(** * Attendance tracker: session schedule and auto-logout engine

    A shallow embedding of the schedule evaluator, the scan classifier and
    the meeting-end auto-logout scheduler of [database.js] and [server.js],
    with the properties of the specification stated over it. *)

From Stdlib Require Import ZArith Lia Bool Ascii.
From Stdlib Require String.
From stdpp Require Import base option list sorting gmap strings pretty.

Local Open Scope Z_scope.

(** ** Times of day as the store holds them

    [meeting_schedules.start_time] and [end_time] are TEXT columns holding
    "HH:MM"; SQLite compares them as strings (byte by byte), and the
    server reads the hour and the minute back with
    [end_time.split(':').map(Number)]. *)

Module Time.

(** The decimal digit character of [d] (for [0 <= d <= 9]). *)
Definition digit (d : Z) : ascii := ascii_of_N (48 + Z.to_N d).

(** [String(n).padStart(2, '0')] for [0 <= n <= 99]; also the two-digit
    fields of [Date.prototype.toTimeString]. *)
Definition pad2 (n : Z) : string :=
  String (digit (n / 10)) (String (digit (n mod 10)) EmptyString).

(** The text "HH:MM". *)
Definition hhmm (h m : Z) : string := pad2 h +:+ ":" +:+ pad2 m.

(** SQLite's [<], [<=] on two TEXT values under the BINARY collation. *)
Definition text_lt (a b : string) : bool := String.ltb a b.
Definition text_le (a b : string) : bool := String.leb a b.

(** [s.split(':')]. *)
Fixpoint split_colon (s : string) : list string :=
  match s with
  | EmptyString => [EmptyString]
  | String c s' =>
      if Ascii.eqb c ":" then EmptyString :: split_colon s'
      else match split_colon s' with
           | x :: r => String c x :: r
           | [] => [String c EmptyString]
           end
  end.

Definition is_digit (c : ascii) : bool :=
  let n := N_of_ascii c in ((48 <=? n) && (n <=? 57))%N.

Fixpoint digits_value (acc : Z) (s : string) : option Z :=
  match s with
  | EmptyString => Some acc
  | String c s' =>
      if is_digit c
      then digits_value (10 * acc + (Z.of_N (N_of_ascii c) - 48)) s'
      else None
  end.

(** A JavaScript number as the scheduler uses it: an integer, or [None]
    for NaN / undefined. *)
Definition JsNum := option Z.

(** [Number(s)] on a string of decimal digits ([Number("")] is 0).
    Any other string is mapped to [None]: it is NaN for most of them, and
    the ones JavaScript would still read as a number (signs, blanks,
    fractions, exponents, radix prefixes) are outside this model. *)
Definition Number (s : string) : JsNum := digits_value 0 s.

(** [const [hour, minute] = t.split(':').map(Number)]: a missing
    component is [undefined]. *)
Definition split_hour_minute (t : string) : JsNum * JsNum :=
  match Number <$> split_colon t with
  | h :: m :: _ => (h, m)
  | [h] => (h, None)
  | [] => (None, None)
  end.

(** A stored time is well formed when it is the text "HH:MM" of a time of
    day; [minutes_of] is then its number of minutes since midnight. *)
Definition minutes_of (t : string) : option Z :=
  match split_hour_minute t with
  | (Some h, Some m) =>
      if (h <? 24) && (m <? 60) && String.eqb t (hhmm h m)
      then Some (h * 60 + m) else None
  | _ => None
  end.

Definition well_formed (t : string) : Prop := is_Some (minutes_of t).

(** Minutes since midnight of a well-formed time. *)
Definition minutes (t : string) : Z := default 0 (minutes_of t).

End Time.

(** ** The relational store ([database.js])

    Each table is the list of its rows in rowid order.  Timestamps
    ([scan_time], filled by [CURRENT_TIMESTAMP]) are instants on the
    store's clock; booleans are the 0/1 the driver binds. *)

Module Db.

Record Member := {
  m_id : Z;
  name : string;
  barcode : string;
}.

Record AttendanceRecord := {
  ar_id : Z;
  member_id : Z;
  scan_time : Z;
  is_checkin : bool;
  is_auto_logout : bool;
  needs_review : bool;
}.

Record MeetingSchedule := {
  ms_id : Z;
  day_of_week : Z;
  session_number : Z;
  start_time : string;
  end_time : string;
  session_name : string;
  is_active : bool;
}.

(** [attendance_seq] and [schedule_seq] are the AUTOINCREMENT counters
    of the two tables. *)
Record Database := {
  members : list Member;
  attendance_records : list AttendanceRecord;
  attendance_seq : Z;
  meeting_schedules : list MeetingSchedule;
  schedule_seq : Z;
}.

Global Instance Member_eq_dec : EqDecision Member.
Proof. solve_decision. Defined.
Global Instance AttendanceRecord_eq_dec : EqDecision AttendanceRecord.
Proof. solve_decision. Defined.
Global Instance MeetingSchedule_eq_dec : EqDecision MeetingSchedule.
Proof. solve_decision. Defined.

(** The key of the UNIQUE(day_of_week, session_number) constraint. *)
Definition schedule_key (s : MeetingSchedule) : Z * Z :=
  (day_of_week s, session_number s).

(** Both times of the row are times of day "HH:MM". *)
Definition well_formed_schedule (s : MeetingSchedule) : Prop :=
  Time.well_formed (start_time s) ∧ Time.well_formed (end_time s).

(** The UNIQUE constraint on a list of rows: rows of equal key are the
    same row. *)
Definition unique_keys (rows : list MeetingSchedule) : Prop :=
  ∀ a b, a ∈ rows → b ∈ rows → schedule_key a = schedule_key b → a = b.

(** [ORDER BY ... LIMIT 1] through [db.get]: the row that the order puts
    first, [None] (undefined) when there is none.  To answer it the store
    keeps the best row it has met and replaces it only by a row that comes
    strictly before it, so of rows that tie in the order the one visited
    first is returned; [rows] lists the rows in the order of the visit. *)
Fixpoint first_by {A} (R : relation A) `{!RelDecision R}
    (rows : list A) : option A :=
  match rows with
  | [] => None
  | row :: rest =>
      match first_by R rest with
      | Some best => Some (if decide (R row best) then row else best)
      | None => Some row
      end
  end.

(** *** Members *)

(** [SELECT * FROM members WHERE barcode = ?] *)
Definition select_member_by_barcode (d : Database) (code : string)
    : option Member :=
  head (filter (λ m, barcode m = code) (members d)).

(** *** Attendance records *)

(** [INSERT INTO attendance_records (member_id, is_checkin, is_auto_logout,
    needs_review) VALUES (...)] at instant [ts]. *)
Definition insert_attendance (memberId : Z) (isCheckin isAutoLogout
    needsReview : bool) (ts : Z) (d : Database) : Database :=
  {| members := members d;
     attendance_records := attendance_records d ++
       [{| ar_id := attendance_seq d + 1; member_id := memberId;
           scan_time := ts; is_checkin := isCheckin;
           is_auto_logout := isAutoLogout; needs_review := needsReview |}];
     attendance_seq := attendance_seq d + 1;
     meeting_schedules := meeting_schedules d;
     schedule_seq := schedule_seq d |}.

Definition later_scan : relation AttendanceRecord :=
  λ a b, scan_time b <= scan_time a.

Global Instance later_scan_dec : RelDecision later_scan.
Proof. intros a b. unfold later_scan. apply _. Defined.

(** [SELECT * FROM attendance_records WHERE member_id = ?
     ORDER BY scan_time DESC LIMIT 1]: the table has no index but its
    rowid, so the records are visited in the order of their ids, and of
    the member's records of the latest scan_time (CURRENT_TIMESTAMP counts
    in seconds) the one of lowest id is returned. *)
Definition select_last_scan (d : Database) (memberId : Z)
    : option AttendanceRecord :=
  first_by later_scan
    (filter (λ r, member_id r = memberId) (attendance_records d)).

(** [SELECT MAX(id) FROM attendance_records ar2 WHERE ar2.member_id = ?]:
    NULL ([None]) over no rows. *)
Definition max_record_id (recs : list AttendanceRecord) (memberId : Z)
    : option Z :=
  foldr (λ r acc,
           if decide (member_id r = memberId)
           then Some (from_option (Z.max (ar_id r)) (ar_id r) acc)
           else acc)
        None recs.

(** A row of the checked-in query: [m.id, m.name, ar.scan_time as
    last_checkin]. *)
Record CheckedIn := {
  id : Z;
  member_name : string;
  last_checkin : Z;
}.

Global Instance CheckedIn_eq_dec : EqDecision CheckedIn.
Proof. solve_decision. Defined.

Definition later_checkin : relation CheckedIn :=
  λ a b, last_checkin b <= last_checkin a.

Global Instance later_checkin_dec : RelDecision later_checkin.
Proof. intros a b. unfold later_checkin. apply _. Defined.

(** [SELECT COUNT( * ) as count FROM attendance_records] *)
Definition count_attendance (d : Database) : Z :=
  Z.of_nat (length (attendance_records d)).

(** The main query of [getCurrentlyCheckedInMembers]: members joined with
    their record of highest id, kept when that record is a check-in,
    DISTINCT, latest first. *)
Definition select_checked_in (d : Database) : list CheckedIn :=
  merge_sort later_checkin
    (remove_dups
       (m ← members d;
        ar ← attendance_records d;
        if decide (m_id m = member_id ar
                   ∧ Some (ar_id ar) = max_record_id (attendance_records d) (m_id m)
                   ∧ is_checkin ar = true)
        then [{| id := m_id m; member_name := name m;
                 last_checkin := scan_time ar |}]
        else [])).

(** The PRIMARY KEY of [attendance_records]: records of equal id are the
    same record. *)
Definition unique_ids (recs : list AttendanceRecord) : Prop :=
  ∀ a b, a ∈ recs → b ∈ recs → ar_id a = ar_id b → a = b.

(** Records carry the time of their insertion: a higher id never has an
    earlier scan_time. *)
Definition ids_follow_time (recs : list AttendanceRecord) : Prop :=
  ∀ a b, a ∈ recs → b ∈ recs → ar_id a < ar_id b →
         scan_time a <= scan_time b.

(** What appending records at the instants of a clock that is never set
    back maintains, [ts] being the latest instant read. *)
Definition appended_in_time (d : Database) (ts : Z) : Prop :=
  unique_ids (attendance_records d)
  ∧ ids_follow_time (attendance_records d)
  ∧ (∀ r, r ∈ attendance_records d → ar_id r <= attendance_seq d)
  ∧ (∀ r, r ∈ attendance_records d → scan_time r <= ts).

(** The specification's order of recency: later scan_time first, records
    of one scan_time by highest id first. *)
Definition more_recent : relation AttendanceRecord :=
  λ a b, scan_time b < scan_time a
         ∨ (scan_time b = scan_time a ∧ ar_id b <= ar_id a).

Global Instance more_recent_dec : RelDecision more_recent.
Proof. intros a b. unfold more_recent. apply _. Defined.

(** The specification's most recent record of a member. *)
Definition most_recent_record (recs : list AttendanceRecord)
    (memberId : Z) : option AttendanceRecord :=
  first_by more_recent (filter (λ r, member_id r = memberId) recs).

(** The specification's CheckedInMember: a member whose most recent
    record is a check-in. *)
Definition spec_checked_in (d : Database) (m : Member) : Prop :=
  ∃ r, most_recent_record (attendance_records d) (m_id m) = Some r
       ∧ is_checkin r = true.

(** The claim on [getCurrentlyCheckedInMembers] as the specification
    words it. *)
Definition checked_in_by_latest_scan (d : Database) : Prop :=
  ∀ m, m ∈ members d →
       (m_id m ∈ id <$> select_checked_in d ↔ spec_checked_in d m).

(** *** Meeting schedules *)

Definition schedule_order : relation MeetingSchedule :=
  λ a b, day_of_week a < day_of_week b
         ∨ (day_of_week a = day_of_week b ∧ session_number a <= session_number b).

Global Instance schedule_order_dec : RelDecision schedule_order.
Proof. intros a b. unfold schedule_order. apply _. Defined.

(** [SELECT * FROM meeting_schedules WHERE is_active = true
     ORDER BY day_of_week, session_number] *)
Definition select_schedules (d : Database) : list MeetingSchedule :=
  merge_sort schedule_order
    (filter (λ s, is_active s = true) (meeting_schedules d)).

(** [INSERT OR REPLACE INTO meeting_schedules (day_of_week, session_number,
    start_time, end_time, session_name, is_active) VALUES (?, ?, ?, ?, ?,
    true)]: the row holding the key, if any, is deleted and a fresh row is
    inserted. *)
Definition upsert_schedule (dayOfWeek sessionNumber : Z)
    (startTime endTime sessionName : string) (d : Database) : Database :=
  {| members := members d;
     attendance_records := attendance_records d;
     attendance_seq := attendance_seq d;
     meeting_schedules :=
       filter (λ s, schedule_key s ≠ (dayOfWeek, sessionNumber))
              (meeting_schedules d) ++
       [{| ms_id := schedule_seq d + 1; day_of_week := dayOfWeek;
           session_number := sessionNumber; start_time := startTime;
           end_time := endTime; session_name := sessionName;
           is_active := true |}];
     schedule_seq := schedule_seq d + 1 |}.

Definition deactivate (s : MeetingSchedule) : MeetingSchedule :=
  {| ms_id := ms_id s; day_of_week := day_of_week s;
     session_number := session_number s; start_time := start_time s;
     end_time := end_time s; session_name := session_name s;
     is_active := false |}.

(** [UPDATE meeting_schedules SET is_active = false
     WHERE day_of_week = ? AND session_number = ?] *)
Definition soft_delete_schedule (dayOfWeek sessionNumber : Z)
    (d : Database) : Database :=
  {| members := members d;
     attendance_records := attendance_records d;
     attendance_seq := attendance_seq d;
     meeting_schedules :=
       (λ s, if decide (schedule_key s = (dayOfWeek, sessionNumber))
             then deactivate s else s) <$> meeting_schedules d;
     schedule_seq := schedule_seq d |}.

(** The order in which the store visits the rows of one weekday: it finds
    them through the index of UNIQUE(day_of_week, session_number), so by
    session_number. *)
Definition session_order : relation MeetingSchedule :=
  λ a b, session_number a <= session_number b.

Global Instance session_order_dec : RelDecision session_order.
Proof. intros a b. unfold session_order. apply _. Defined.

(** [SELECT * FROM meeting_schedules WHERE day_of_week = ? AND
     is_active = true AND start_time <= ? AND end_time >= ?] through
    [db.get]: the first row of the result, which is, of the rows that
    match, the one of least session_number. *)
Definition select_within (d : Database) (dayOfWeek : Z)
    (currentTime : string) : option MeetingSchedule :=
  first_by session_order
    (filter (λ s, day_of_week s = dayOfWeek
                  ∧ is_active s = true
                  ∧ Time.text_le (start_time s) currentTime = true
                  ∧ Time.text_le currentTime (end_time s) = true)
            (meeting_schedules d)).

(** [ORDER BY start_time] over the rows of one weekday: by start_time as
    text, rows of equal start_time in the order of the visit, which is
    that of session_number. *)
Definition earlier_start : relation MeetingSchedule :=
  λ a b, Time.text_lt (start_time a) (start_time b) = true
         ∨ (start_time a = start_time b
            ∧ session_number a <= session_number b).

Global Instance earlier_start_dec : RelDecision earlier_start.
Proof. intros a b. unfold earlier_start. apply _. Defined.

(** First query of [getNextMeetingSession]:
    [WHERE day_of_week = ? AND is_active = true AND start_time > ?
     ORDER BY start_time LIMIT 1] *)
Definition select_today_session (d : Database) (dayOfWeek : Z)
    (currentTime : string) : option MeetingSchedule :=
  first_by earlier_start
    (filter (λ s, day_of_week s = dayOfWeek
                  ∧ is_active s = true
                  ∧ Time.text_lt currentTime (start_time s) = true)
            (meeting_schedules d)).

(** [CASE WHEN day_of_week > ? THEN day_of_week ELSE day_of_week + 7 END] *)
Definition week_rank (dayOfWeek : Z) (s : MeetingSchedule) : Z :=
  if decide (day_of_week s > dayOfWeek)
  then day_of_week s else day_of_week s + 7.

Definition week_order (dayOfWeek : Z) : relation MeetingSchedule :=
  λ a b, week_rank dayOfWeek a < week_rank dayOfWeek b
         ∨ (week_rank dayOfWeek a = week_rank dayOfWeek b
            ∧ session_number a <= session_number b).

Global Instance week_order_dec d : RelDecision (week_order d).
Proof. intros a b. unfold week_order. apply _. Defined.

(** Second query of [getNextMeetingSession]:
    [WHERE ((day_of_week > ? AND day_of_week <= 6)
            OR (day_of_week >= 0 AND day_of_week < ?))
     AND is_active = true
     ORDER BY CASE ... END, session_number LIMIT 1] *)
Definition select_week_session (d : Database) (dayOfWeek : Z)
    : option MeetingSchedule :=
  first_by (week_order dayOfWeek)
    (filter (λ s, ((day_of_week s > dayOfWeek ∧ day_of_week s <= 6)
                   ∨ (day_of_week s >= 0 ∧ day_of_week s < dayOfWeek))
                  ∧ is_active s = true)
            (meeting_schedules d)).

End Db.

(** ** The server ([server.js]) *)

Module Server.
Import Db.

(** *** The wall clock

    A JavaScript [Date] read in local time: the minute it falls in,
    counted from the midnight that starts some Sunday. *)
Record Date := { local_minutes : Z }.

Definition getDay (now : Date) : Z := (local_minutes now / 1440) mod 7.
Definition getHours (now : Date) : Z := (local_minutes now mod 1440) / 60.
Definition getMinutes (now : Date) : Z := local_minutes now mod 60.

(** [now.toTimeString().substring(0, 5)] *)
Definition currentTime (now : Date) : string :=
  Time.hhmm (getHours now) (getMinutes now).

Definition minute_of_day (now : Date) : Z :=
  getHours now * 60 + getMinutes now.

(** [now] falls in session [s]: same weekday, active, and between its
    start and its end, both included. *)
Definition in_session (s : MeetingSchedule) (now : Date) : Prop :=
  day_of_week s = getDay now
  ∧ is_active s = true
  ∧ Time.minutes (start_time s) <= minute_of_day now
                                <= Time.minutes (end_time s).

(** *** Process state and storage faults

    [meetingSchedulers] maps the scheduler id of a session (the text
    [`${day_of_week}-${session_number}`], here the pair itself) to its
    running cron task.  Every statement sent to the store consumes one
    entry of [faults]: on [true] the statement fails (its callback gets an
    error and the store is left as it was), on [false], or once the list is
    used up, it succeeds. *)

Record Trigger := {
  cron_minute : Time.JsNum;
  cron_hour : Time.JsNum;
  cron_day : Z;
}.

Record State := {
  db : Database;
  meetingSchedulers : gmap (Z * Z) Trigger;
  clock : Z;
  faults : list bool;
}.

Definition set_db (d : Database) (st : State) : State :=
  {| db := d; meetingSchedulers := meetingSchedulers st;
     clock := clock st; faults := faults st |}.

Definition set_meetingSchedulers (m : gmap (Z * Z) Trigger) (st : State)
    : State :=
  {| db := db st; meetingSchedulers := m;
     clock := clock st; faults := faults st |}.

Definition set_faults (fs : list bool) (st : State) : State :=
  {| db := db st; meetingSchedulers := meetingSchedulers st;
     clock := clock st; faults := fs |}.

(** What a callback [(err, value) => ...] receives. *)
Inductive Result (A : Type) : Type :=
| Ok (value : A)
| Err.
Global Arguments Ok {A} value.
Global Arguments Err {A}.

Definition Eff (A : Type) : Type := State → A * State.

Definition ret {A} (a : A) : Eff A := λ st, (a, st).

Definition bind {A B} (c : Eff A) (k : A → Eff B) : Eff B :=
  λ st, let '(a, st') := c st in k a st'.

Notation "'let!' x ':=' c 'in' k" := (bind c (λ x, k))
  (at level 10, x name, c at level 200, k at level 200, only parsing).

Definition modify (f : State → State) : Eff unit := λ st, (tt, f st).

(** The fault of the next statement. *)
Definition next_fault : Eff bool := λ st,
  match faults st with
  | f :: fs => (f, set_faults fs st)
  | [] => (false, st)
  end.

Definition storage_read {A} (q : Database → A) : Eff (Result A) :=
  let! failed := next_fault in
  if failed then ret Err
  else λ st, (Ok (q (db st)), st).

Definition storage_write (q : Z → Database → Database) : Eff (Result unit) :=
  let! failed := next_fault in
  if failed then ret Err
  else λ st, (Ok tt, set_db (q (clock st) (db st)) st).

(** *** The methods of [Database] *)

Definition getMemberByBarcode (code : string) : Eff (Result (option Member)) :=
  storage_read (λ d, select_member_by_barcode d code).

Definition recordAttendance (memberId : Z) (isCheckin needsReview : bool)
    : Eff (Result unit) :=
  storage_write (insert_attendance memberId isCheckin false needsReview).

Definition recordAutoLogout (memberId : Z) : Eff (Result unit) :=
  storage_write (insert_attendance memberId false true true).

Definition getCurrentlyCheckedInMembers : Eff (Result (list CheckedIn)) :=
  let! result := storage_read count_attendance in
  match result with
  | Err => ret Err
  | Ok count =>
      if decide (count = 0) then ret (Ok [])
      else storage_read select_checked_in
  end.

Definition getLastScanForMember (memberId : Z)
    : Eff (Result (option AttendanceRecord)) :=
  storage_read (λ d, select_last_scan d memberId).

Definition getMeetingSchedules : Eff (Result (list MeetingSchedule)) :=
  storage_read select_schedules.

(** [sessionName || `Session ${sessionNumber}`] *)
Definition session_label (sessionName : option string) (sessionNumber : Z)
    : string :=
  match sessionName with
  | Some n => if decide (n = EmptyString)
              then "Session " +:+ pretty sessionNumber else n
  | None => "Session " +:+ pretty sessionNumber
  end.

Definition updateMeetingSchedule (dayOfWeek sessionNumber : Z)
    (startTime endTime : string) (sessionName : option string)
    : Eff (Result unit) :=
  storage_write
    (λ _, upsert_schedule dayOfWeek sessionNumber startTime endTime
            (session_label sessionName sessionNumber)).

Definition deleteMeetingSchedule (dayOfWeek sessionNumber : Z)
    : Eff (Result unit) :=
  storage_write (λ _, soft_delete_schedule dayOfWeek sessionNumber).

Definition isWithinMeetingSchedule (now : Date)
    : Eff (Result (option MeetingSchedule)) :=
  storage_read (λ d, select_within d (getDay now) (currentTime now)).

Definition getNextMeetingSession (now : Date)
    : Eff (Result (option MeetingSchedule)) :=
  let! today := storage_read
                (λ d, select_today_session d (getDay now) (currentTime now)) in
  match today with
  | Ok (Some todaySession) => ret (Ok (Some todaySession))
  | _ => storage_read (λ d, select_week_session d (getDay now))
  end.

(** [getNextMeetingSession] when both of its queries succeed. *)
Definition nextSession (d : Database) (now : Date) : option MeetingSchedule :=
  match select_today_session d (getDay now) (currentTime now) with
  | Some todaySession => Some todaySession
  | None => select_week_session d (getDay now)
  end.

(** A row the first query of [getNextMeetingSession] can return. *)
Definition later_today (d : Database) (now : Date) (s : MeetingSchedule)
    : Prop :=
  s ∈ meeting_schedules d
  ∧ day_of_week s = getDay now
  ∧ is_active s = true
  ∧ Time.text_lt (currentTime now) (start_time s) = true.

(** A row its second query can return. *)
Definition other_day (d : Database) (now : Date) (s : MeetingSchedule)
    : Prop :=
  s ∈ meeting_schedules d
  ∧ is_active s = true
  ∧ 0 <= day_of_week s <= 6
  ∧ day_of_week s ≠ getDay now.

(** Days from now's weekday to the weekday of a session on another day. *)
Definition day_distance (now : Date) (s : MeetingSchedule) : Z :=
  (day_of_week s - getDay now) mod 7.

(** *** Meeting-end auto-logout scheduler *)

Definition js_add (a : Time.JsNum) (n : Z) : Time.JsNum := (λ x, x + n) <$> a.

(** [a >= n]; false on NaN and undefined. *)
Definition js_ge (a : Time.JsNum) (n : Z) : bool :=
  match a with Some x => n <=? x | None => false end.

(** The cron expression [`${logoutMinute} ${logoutHour} * * ${day_of_week}`]
    of a schedule row.  The sums are computed on integers, as JavaScript
    computes them on the numbers it holds exactly (a text of up to
    fifteen digits reads as one). *)
Definition logout_trigger (schedule : MeetingSchedule) : Trigger :=
  let '(hour, minute) := Time.split_hour_minute (end_time schedule) in
  let logoutMinute := js_add minute 15 in
  let logoutHour := hour in
  let '(logoutMinute, logoutHour) :=
    if js_ge logoutMinute 60
    then (js_add logoutMinute (-60), js_add logoutHour 1)
    else (logoutMinute, logoutHour) in
  let logoutHour :=
    if js_ge logoutHour 24 then js_add logoutHour (-24) else logoutHour in
  {| cron_minute := logoutMinute; cron_hour := logoutHour;
     cron_day := day_of_week schedule |}.

(** [cron.schedule(expression, task)] of node-cron checks the expression
    before it arms the task and throws when a field is out of range: the
    minute is to be 0..59, the hour 0..23 and the weekday 0..7 (0 and 7
    are both Sunday); NaN is in no range. *)
Definition cron_accepts (t : Trigger) : bool :=
  match cron_minute t, cron_hour t with
  | Some minute, Some hour =>
      (0 <=? minute) && (minute <=? 59) && (0 <=? hour) && (hour <=? 23)
      && (0 <=? cron_day t) && (cron_day t <=? 7)
  | _, _ => false
  end.

(** A session whose trigger [cron.schedule] accepts for sure: its weekday
    is one of 0 (Sunday) to 6 and its end_time is a time of day "HH:MM". *)
Definition armable (s : MeetingSchedule) : Prop :=
  0 <= day_of_week s <= 6 ∧ Time.well_formed (end_time s).

(** How a rearm ends: the schedules could not be read (logged, nothing
    armed); every session read was armed; or [cron.schedule] threw on the
    expression of a session, and the exception, which nothing catches,
    ended the [forEach] and the callback there. *)
Inductive Rearm :=
| ReadFailed
| Armed
| Thrown (schedule : MeetingSchedule).

(** The [schedules.forEach] of [initializeMeetingScheduler]: the sessions
    are armed in turn, up to the first whose expression is refused. *)
Fixpoint arm_all (schedules : list MeetingSchedule) : Eff Rearm :=
  match schedules with
  | [] => ret Armed
  | schedule :: rest =>
      let trigger := logout_trigger schedule in
      if cron_accepts trigger then
        let! _ := modify (λ st,
                    set_meetingSchedulers
                      (<[schedule_key schedule := trigger]>
                         (meetingSchedulers st)) st) in
        arm_all rest
      else ret (Thrown schedule)
  end.

Definition initializeMeetingScheduler : Eff Rearm :=
  let! _ := modify (set_meetingSchedulers ∅) in
  let! result := getMeetingSchedules in
  match result with
  | Err => ret ReadFailed
  | Ok schedules => arm_all schedules
  end.

(** The table [m] with the trigger of each row of a list written into
    it. *)
Definition with_triggers (schedules : list MeetingSchedule)
    (m : gmap (Z * Z) Trigger) : gmap (Z * Z) Trigger :=
  foldl (λ m schedule, <[schedule_key schedule := logout_trigger schedule]> m)
        m schedules.

(** The trigger set the specification asks of a rearm: the complete set of
    the active sessions, or else the set armed before. *)
Definition rearm_all_or_nothing (st : State) : Prop :=
  let st' := (initializeMeetingScheduler st).2 in
  meetingSchedulers st' = with_triggers (select_schedules (db st)) ∅
  ∨ meetingSchedulers st' = meetingSchedulers st.

(** What [performMeetingEndLogout] writes to the console. *)
Inductive LogoutLog :=
| LookupFailed
| NobodyCheckedIn
| Completed (successful errors : nat).

Fixpoint logout_each (checkedInMembers : list CheckedIn)
    (processed errors : nat) : Eff (nat * nat) :=
  match checkedInMembers with
  | [] => ret (processed, errors)
  | member :: rest =>
      let! result := recordAutoLogout (id member) in
      logout_each rest (S processed)
        (match result with Err => S errors | Ok _ => errors end)
  end.

Definition performMeetingEndLogout : Eff LogoutLog :=
  let! result := getCurrentlyCheckedInMembers in
  match result with
  | Err => ret LookupFailed
  | Ok checkedInMembers =>
      if decide (length checkedInMembers = 0%nat) then ret NobodyCheckedIn
      else
        let! counts := logout_each checkedInMembers 0 0 in
        ret (Completed (counts.1 - counts.2) counts.2)
  end.

(** Whether each of the next [n] statements fails, read off [faults]. *)
Fixpoint write_outcomes (n : nat) (fs : list bool) : list bool :=
  match n with
  | O => []
  | S n =>
      match fs with
      | [] => false :: write_outcomes n []
      | f :: fs => f :: write_outcomes n fs
      end
  end.

(** The members whose write did not fail. *)
Fixpoint written (checkedInMembers : list CheckedIn) (outcomes : list bool)
    : list CheckedIn :=
  match checkedInMembers, outcomes with
  | member :: rest, failed :: outcomes =>
      if failed then written rest outcomes
      else member :: written rest outcomes
  | _, _ => []
  end.

(** How many of the writes failed. *)
Definition failures (outcomes : list bool) : nat :=
  length (filter (λ failed, failed = true) outcomes).

(** The shape of a record inserted by [recordAutoLogout]. *)
Definition auto_logout_record (r : AttendanceRecord) : Prop :=
  is_checkin r = false ∧ is_auto_logout r = true ∧ needs_review r = true.

(** *** HTTP responses *)

Record SessionInfo := {
  number : Z;
  startTime : string;
  endTime : string;
}.

(** The [nextSession] field of the 403 body; [day] is absent when
    [dayNames[nextSession.day]] is undefined. *)
Record NextSessionInfo := {
  day : option string;
  next_startTime : string;
  next_endTime : string;
}.

Inductive Body :=
| ErrorBody (error : string)
| OutOfScheduleBody (error : string) (nextSession : option NextSessionInfo)
| ScanBody (member : Member) (action : string)
           (session : option SessionInfo) (flaggedForReview : bool)
| SuccessBody (message : string).

Record Response := { status : Z; body : Body }.

Definition json (code : Z) (b : Body) : Response :=
  {| status := code; body := b |}.

(** *** POST /api/attendance/scan *)

(** [!lastScan || !lastScan.is_checkin] *)
Definition isCheckin_of (lastScan : option AttendanceRecord) : bool :=
  match lastScan with
  | None => true
  | Some last => negb (is_checkin last)
  end.

(** The flag computed at the head of [recordAttendanceWithSession]. *)
Definition needsReview_of (isCheckin : bool)
    (session : option MeetingSchedule) (now : Date) : bool :=
  match isCheckin, session with
  | true, Some session =>
      let currentTime := getHours now * 60 + getMinutes now in
      let '(endHour, endMinute) := Time.split_hour_minute (end_time session) in
      match endHour, endMinute with
      | Some endHour, Some endMinute =>
          let sessionEndTime := endHour * 60 + endMinute in
          let minutesUntilEnd := sessionEndTime - currentTime in
          (minutesUntilEnd <=? 5) && (0 <=? minutesUntilEnd)
      | _, _ => false
      end
  | _, _ => false
  end.

Definition recordAttendanceWithSession (member : Member) (isCheckin : bool)
    (session : option MeetingSchedule) (now : Date) : Eff Response :=
  let needsReview := needsReview_of isCheckin session now in
  let! result := recordAttendance (m_id member) isCheckin needsReview in
  match result with
  | Err => ret (json 500 (ErrorBody "Database error"))
  | Ok _ =>
      ret (json 200
             (ScanBody member
                (if isCheckin then "check-in" else "check-out")
                (match session with
                 | Some session =>
                     if isCheckin
                     then Some {| number := session_number session;
                                  startTime := start_time session;
                                  endTime := end_time session |}
                     else None
                 | None => None
                 end)
                (match session with
                 | Some _ => isCheckin && needsReview
                 | None => false
                 end)))
  end.

Definition dayNames : list string :=
  ["Sunday"; "Monday"; "Tuesday"; "Wednesday"; "Thursday"; "Friday";
   "Saturday"].

Definition dayName (d : Z) : option string :=
  if decide (0 <= d) then dayNames !! Z.to_nat d else None.

(** The 403 answer to a check-in outside every session. *)
Definition out_of_schedule (nextSession : option MeetingSchedule) : Response :=
  json 403
    (match nextSession with
     | Some next =>
         OutOfScheduleBody
           ("Check-in not allowed. Next session: "
              +:+ default "undefined" (dayName (day_of_week next))
              +:+ " " +:+ start_time next +:+ "-" +:+ end_time next)
           (Some {| day := dayName (day_of_week next);
                    next_startTime := start_time next;
                    next_endTime := end_time next |})
     | None =>
         OutOfScheduleBody "Check-in not allowed outside meeting sessions." None
     end).

Definition scan (code : string) (now : Date) : Eff Response :=
  if decide (code = EmptyString)
  then ret (json 400 (ErrorBody "Barcode is required"))
  else
    let! found := getMemberByBarcode code in
    match found with
    | Err => ret (json 500 (ErrorBody "Database error"))
    | Ok None => ret (json 404 (ErrorBody "Member not found"))
    | Ok (Some member) =>
        let! last := getLastScanForMember (m_id member) in
        match last with
        | Err => ret (json 500 (ErrorBody "Database error"))
        | Ok lastScan =>
            let isCheckin := isCheckin_of lastScan in
            if isCheckin then
              let! within := isWithinMeetingSchedule now in
              match within with
              | Err => ret (json 500 (ErrorBody "Database error checking schedule"))
              | Ok None =>
                  let! next := getNextMeetingSession now in
                  match next with
                  | Err => ret (json 500 (ErrorBody "Database error"))
                  | Ok nextSession => ret (out_of_schedule nextSession)
                  end
              | Ok (Some activeSession) =>
                  recordAttendanceWithSession member isCheckin
                    (Some activeSession) now
              end
            else recordAttendanceWithSession member isCheckin None now
        end
    end.

(** *** PUT /api/meeting-schedules *)

(** An element of the [schedules] array of the request. *)
Record ScheduleInput := {
  dayOfWeek : Z;
  sessionNumber : Z;
  in_startTime : string;
  in_endTime : string;
  sessionName : option string;
}.

Definition input_key (s : ScheduleInput) : Z * Z :=
  (dayOfWeek s, sessionNumber s).

(** An element that asks for an [armable] session. *)
Definition armable_input (x : ScheduleInput) : Prop :=
  0 <= dayOfWeek x <= 6 ∧ Time.well_formed (in_endTime x).

(** The effect on the store of the upsert of one element. *)
Definition upsert_input (x : ScheduleInput) (d : Database) : Database :=
  upsert_schedule (dayOfWeek x) (sessionNumber x) (in_startTime x)
    (in_endTime x) (session_label (sessionName x) (sessionNumber x)) d.

(** Runs the statements of a [forEach] in turn and counts those that
    failed. *)
Fixpoint count_errors {A} (op : A → Eff (Result unit)) (items : list A)
    (errors : nat) : Eff nat :=
  match items with
  | [] => ret errors
  | x :: rest =>
      let! result := op x in
      count_errors op rest
        (match result with Err => S errors | Ok _ => errors end)
  end.

Definition putMeetingSchedules (schedules : list ScheduleInput)
    : Eff Response :=
  let! current := getMeetingSchedules in
  match current with
  | Err => ret (json 500 (ErrorBody "Error getting current schedules"))
  | Ok currentSchedules =>
      let newScheduleKeys := input_key <$> schedules in
      let schedulesToDelete :=
        filter (λ current, schedule_key current ∉ newScheduleKeys)
               currentSchedules in
      let totalOperations :=
        (length schedules + length schedulesToDelete)%nat in
      if decide (totalOperations = 0%nat) then
        let! _ := initializeMeetingScheduler in
        ret (json 200 (SuccessBody "No changes needed"))
      else
        let! errors :=
          count_errors
            (λ schedule, deleteMeetingSchedule (day_of_week schedule)
                           (session_number schedule))
            schedulesToDelete 0 in
        let! errors :=
          count_errors
            (λ schedule, updateMeetingSchedule (dayOfWeek schedule)
                           (sessionNumber schedule) (in_startTime schedule)
                           (in_endTime schedule) (sessionName schedule))
            schedules errors in
        if decide (errors = 0%nat) then
          let! _ := initializeMeetingScheduler in
          ret (json 200 (SuccessBody "Meeting schedules updated successfully"))
        else ret (json 500 (ErrorBody "Error updating some schedules"))
  end.

(** The store that the route leaves when no statement fails: the active
    rows that the request does not name are deactivated, then the
    elements of the request are upserted. *)
Definition replaced (schedules : list ScheduleInput) (d : Database)
    : Database :=
  foldl (λ d x, upsert_input x d)
    (foldl (λ d s, soft_delete_schedule (day_of_week s) (session_number s) d)
           d
           (filter (λ current, schedule_key current ∉ input_key <$> schedules)
                   (select_schedules d)))
    schedules.

End Server.

(** ** Sample data: the first row of the default schedule *)

Module Sample.
Import Db Server.

(** [{ day: 1, session: 1, start: '08:00', end: '12:00' }] *)
Definition monday_morning : MeetingSchedule :=
  {| ms_id := 1; day_of_week := 1; session_number := 1;
     start_time := "08:00"; end_time := "12:00";
     session_name := "Session 1"; is_active := true |}.

(** A session that ends late in the evening. *)
Definition monday_late : MeetingSchedule :=
  {| ms_id := 2; day_of_week := 1; session_number := 2;
     start_time := "20:00"; end_time := "23:50";
     session_name := "Session 2"; is_active := true |}.

Definition ann : Member := {| m_id := 1; name := "Ann"; barcode := "A1" |}.
Definition bob : Member := {| m_id := 2; name := "Bob"; barcode := "B2" |}.

Definition monday_only : Database :=
  {| members := [ann; bob]; attendance_records := []; attendance_seq := 0;
     meeting_schedules := [monday_morning]; schedule_seq := 1 |}.

Definition late_only : Database :=
  {| members := [ann; bob]; attendance_records := []; attendance_seq := 0;
     meeting_schedules := [monday_late]; schedule_seq := 2 |}.

(** Ann checked in during the Monday session; Bob never scanned. *)
Definition ann_checked_in : Database :=
  {| members := [ann; bob];
     attendance_records :=
       [{| ar_id := 1; member_id := 1; scan_time := 900;
           is_checkin := true; is_auto_logout := false;
           needs_review := false |}];
     attendance_seq := 1;
     meeting_schedules := [monday_morning]; schedule_seq := 1 |}.

(** Ann's records after the clock of the store was set back between her
    check-in and her check-out. *)
Definition clock_set_back : Database :=
  {| members := [ann; bob];
     attendance_records :=
       [{| ar_id := 1; member_id := 1; scan_time := 200;
           is_checkin := true; is_auto_logout := false;
           needs_review := false |};
        {| ar_id := 2; member_id := 1; scan_time := 100;
           is_checkin := false; is_auto_logout := false;
           needs_review := false |}];
     attendance_seq := 2;
     meeting_schedules := [monday_morning]; schedule_seq := 1 |}.

(** Ann and Bob both checked in. *)
Definition both_checked_in : Database :=
  {| members := [ann; bob];
     attendance_records :=
       [{| ar_id := 1; member_id := 1; scan_time := 900;
           is_checkin := true; is_auto_logout := false;
           needs_review := false |};
        {| ar_id := 2; member_id := 2; scan_time := 950;
           is_checkin := true; is_auto_logout := false;
           needs_review := false |}];
     attendance_seq := 2;
     meeting_schedules := [monday_morning]; schedule_seq := 1 |}.

(** The Monday afternoon session with its end_time entered as "17", and
    the evening session that follows it. *)
Definition monday_short_end : MeetingSchedule :=
  {| ms_id := 2; day_of_week := 1; session_number := 2;
     start_time := "13:00"; end_time := "17";
     session_name := "Session 2"; is_active := true |}.

Definition monday_evening : MeetingSchedule :=
  {| ms_id := 3; day_of_week := 1; session_number := 3;
     start_time := "18:00"; end_time := "21:00";
     session_name := "Session 3"; is_active := true |}.

Definition short_end_between : Database :=
  {| members := [ann; bob]; attendance_records := []; attendance_seq := 0;
     meeting_schedules := [monday_morning; monday_short_end; monday_evening];
     schedule_seq := 3 |}.

(** The Monday session soft-deleted. *)
Definition monday_deleted : Database :=
  {| members := [ann; bob]; attendance_records := []; attendance_seq := 0;
     meeting_schedules := [deactivate monday_morning]; schedule_seq := 1 |}.

(** A request that lists the Monday session again. *)
Definition monday_again : ScheduleInput :=
  {| dayOfWeek := 1; sessionNumber := 1; in_startTime := "09:00";
     in_endTime := "11:00"; sessionName := None |}.

(** Monday at [h]:[m]. *)
Definition monday_at (h m : Z) : Date :=
  {| local_minutes := 1440 + h * 60 + m |}.

Definition state_of (d : Database) (fs : list bool) : State :=
  {| db := d; meetingSchedulers := ∅; clock := 1000; faults := fs |}.

(** The Monday session armed, and the next statement sent to the store
    going to fail. *)
Definition armed_then_failing : State :=
  {| db := monday_only;
     meetingSchedulers := {[ (1, 1) := logout_trigger monday_morning ]};
     clock := 1000; faults := [true] |}.

End Sample.

(** ** Further statements of the store ([database.js]) *)

Module Store.
Import Db Server.

Definition with_members (rows : list Member) (d : Database) : Database :=
  {| members := rows;
     attendance_records := attendance_records d;
     attendance_seq := attendance_seq d;
     meeting_schedules := meeting_schedules d;
     schedule_seq := schedule_seq d |}.

Definition with_attendance (rows : list AttendanceRecord) (d : Database)
    : Database :=
  {| members := members d;
     attendance_records := rows;
     attendance_seq := attendance_seq d;
     meeting_schedules := meeting_schedules d;
     schedule_seq := schedule_seq d |}.

Definition with_schedules (rows : list MeetingSchedule) (seq : Z)
    (d : Database) : Database :=
  {| members := members d;
     attendance_records := attendance_records d;
     attendance_seq := attendance_seq d;
     meeting_schedules := rows;
     schedule_seq := seq |}.

(** *** Members *)

(** [SELECT COUNT( * ) as count FROM attendance_records WHERE member_id = ?] *)
Definition count_attendance_of (memberId : Z) (d : Database) : Z :=
  Z.of_nat (length (filter (λ r, member_id r = memberId)
                           (attendance_records d))).

(** [DELETE FROM attendance_records WHERE member_id = ?] *)
Definition delete_attendance_of (memberId : Z) (d : Database) : Database :=
  with_attendance
    (filter (λ r, member_id r ≠ memberId) (attendance_records d)) d.

(** [DELETE FROM members WHERE id = ?] *)
Definition delete_member_row (memberId : Z) (d : Database) : Database :=
  with_members (filter (λ m, m_id m ≠ memberId) (members d)) d.

(** [deleteMember]: the member's records first, when there are any, then
    the member; the first statement that fails ends it. *)
Definition deleteMember (memberId : Z) : Eff (Result unit) :=
  let! counted := storage_read (count_attendance_of memberId) in
  match counted with
  | Err => ret Err
  | Ok count =>
      if decide (count > 0) then
        let! deleted := storage_write (λ _, delete_attendance_of memberId) in
        match deleted with
        | Err => ret Err
        | Ok _ => storage_write (λ _, delete_member_row memberId)
        end
      else storage_write (λ _, delete_member_row memberId)
  end.

(** The error that the driver hands to the callback of a failed write.
    [err.code] names the primary result code of the store:
    "SQLITE_CONSTRAINT" for a violated constraint of any kind, the UNIQUE
    ones included; a storage fault is taken to be a disk I/O error. *)
Record WriteError := {
  err_code : string;
  err_message : string;
}.

Definition constraint_failed : WriteError :=
  {| err_code := "SQLITE_CONSTRAINT";
     err_message :=
       "SQLITE_CONSTRAINT: UNIQUE constraint failed: members.barcode" |}.

Definition storage_fault : WriteError :=
  {| err_code := "SQLITE_IOERR";
     err_message := "SQLITE_IOERR: disk I/O error" |}.

Definition rename (newName newBarcode : string) (m : Member) : Member :=
  {| m_id := m_id m; name := newName; barcode := newBarcode |}.

(** [UPDATE members SET name = ?, barcode = ? WHERE id = ?] under the
    UNIQUE constraint on [barcode]: with no row of that id nothing changes;
    the statement is refused, and rolled back, when the barcode is held
    by a row of another id or when it would be given to two rows. *)
Definition update_member_row (memberId : Z) (newName newBarcode : string)
    (d : Database) : option Database :=
  let targets := filter (λ m, m_id m = memberId) (members d) in
  if decide (targets = []) then Some d
  else if decide (Exists (λ m, m_id m ≠ memberId ∧ barcode m = newBarcode)
                         (members d)
                  ∨ (1 < length targets)%nat)
  then None
  else Some (with_members
               ((λ m, if decide (m_id m = memberId)
                      then rename newName newBarcode m else m)
                  <$> members d) d).

Definition updateMember (memberId : Z) (newName newBarcode : string)
    : Eff (option WriteError) :=
  let! failed := next_fault in
  if failed then ret (Some storage_fault)
  else λ st,
    match update_member_row memberId newName newBarcode (db st) with
    | None => (Some constraint_failed, st)
    | Some d => (None, set_db d st)
    end.

(** The UNIQUE constraint on [members.barcode] and the PRIMARY KEY of
    [members]. *)
Definition unique_barcodes (rows : list Member) : Prop :=
  ∀ a b, a ∈ rows → b ∈ rows → barcode a = barcode b → a = b.

Definition unique_member_ids (rows : list Member) : Prop :=
  ∀ a b, a ∈ rows → b ∈ rows → m_id a = m_id b → a = b.

(** The FOREIGN KEY of [attendance_records.member_id] (declared, not
    enforced by the store): every record belongs to a member. *)
Definition references_hold (d : Database) : Prop :=
  ∀ r, r ∈ attendance_records d →
       ∃ m, m ∈ members d ∧ m_id m = member_id r.

(** *** Flagged records *)

Definition later_flagged : relation (AttendanceRecord * Member) :=
  λ a b, scan_time b.1 <= scan_time a.1.

Global Instance later_flagged_dec : RelDecision later_flagged.
Proof. intros a b. unfold later_flagged. apply _. Defined.

(** [SELECT ar.*, m.name, m.barcode FROM attendance_records ar
     JOIN members m ON ar.member_id = m.id
     WHERE ar.needs_review = 1 ORDER BY ar.scan_time DESC] *)
Definition select_flagged (d : Database) : list (AttendanceRecord * Member) :=
  merge_sort later_flagged
    (ar ← attendance_records d;
     m ← members d;
     if decide (member_id ar = m_id m ∧ needs_review ar = true)
     then [(ar, m)] else []).

Definition getFlaggedRecords : Eff (Result (list (AttendanceRecord * Member))) :=
  storage_read select_flagged.

Definition reviewed (r : AttendanceRecord) : AttendanceRecord :=
  {| ar_id := ar_id r; member_id := member_id r; scan_time := scan_time r;
     is_checkin := is_checkin r; is_auto_logout := is_auto_logout r;
     needs_review := false |}.

(** [UPDATE attendance_records SET needs_review = 0 WHERE id = ?] *)
Definition mark_reviewed (recordId : Z) (d : Database) : Database :=
  with_attendance
    ((λ r, if decide (ar_id r = recordId) then reviewed r else r)
       <$> attendance_records d) d.

Definition markRecordAsReviewed (recordId : Z) : Eff (Result unit) :=
  storage_write (λ _, mark_reviewed recordId).

(** *** Default schedules *)

(** The [defaultSchedules] of [createDefaultMeetingSchedules]:
    [{ day, session, start, end }]. *)
Definition defaultSchedules : list (Z * Z * string * string) :=
  [(1, 1, "08:00", "12:00"); (1, 2, "13:00", "17:00"); (1, 3, "18:00", "21:00");
   (2, 1, "08:00", "12:00"); (2, 2, "13:00", "17:00"); (2, 3, "18:00", "21:00");
   (3, 1, "08:00", "12:00"); (3, 2, "13:00", "17:00"); (3, 3, "18:00", "21:00");
   (4, 1, "08:00", "12:00"); (4, 2, "13:00", "17:00"); (4, 3, "18:00", "21:00");
   (5, 1, "08:00", "12:00"); (5, 2, "13:00", "17:00"); (5, 3, "18:00", "21:00")].

(** [INSERT INTO meeting_schedules (day_of_week, session_number, start_time,
    end_time) VALUES (?, ?, ?, ?)]: refused when the key is held;
    [is_active] takes its default, true, and [session_name] is left NULL,
    written here as the empty text (which the server never stores). *)
Definition insert_schedule (schedule : Z * Z * string * string)
    (d : Database) : option Database :=
  let '(dayOfWeek, sessionNumber, start, stop) := schedule in
  if decide (Exists (λ s, schedule_key s = (dayOfWeek, sessionNumber))
                    (meeting_schedules d))
  then None
  else Some (with_schedules
               (meeting_schedules d ++
                [{| ms_id := schedule_seq d + 1; day_of_week := dayOfWeek;
                    session_number := sessionNumber; start_time := start;
                    end_time := stop; session_name := EmptyString;
                    is_active := true |}])
               (schedule_seq d + 1) d).

(** A [db.run] with no callback: a statement that fails or is refused is
    dropped. *)
Definition run_unchecked (q : Database → option Database) : Eff unit :=
  let! failed := next_fault in
  if failed then ret tt
  else modify (λ st, match q (db st) with
                     | Some d => set_db d st
                     | None => st
                     end).

Fixpoint run_each {A} (op : A → Eff unit) (items : list A) : Eff unit :=
  match items with
  | [] => ret tt
  | x :: rest => let! _ := op x in run_each op rest
  end.

(** [SELECT COUNT( * ) as count FROM meeting_schedules] *)
Definition count_schedules (d : Database) : Z :=
  Z.of_nat (length (meeting_schedules d)).

(** [createDefaultMeetingSchedules].  The fifteen inserts are handed to
    the driver in one [forEach], outside [db.serialize], and the driver
    runs statements that are not serialized in an order of its own:
    [order] is the order in which it runs them, some rearrangement of
    [defaultSchedules]. *)
Definition createDefaultMeetingSchedules
    (order : list (Z * Z * string * string)) : Eff unit :=
  let! counted := storage_read count_schedules in
  match counted with
  | Ok count =>
      if decide (count = 0)
      then run_each (λ schedule, run_unchecked (insert_schedule schedule))
                    order
      else ret tt
  | Err => ret tt
  end.

(** The key of an element of [defaultSchedules]. *)
Definition default_key (t : Z * Z * string * string) : Z * Z :=
  (t.1.1.1, t.1.1.2).

(** The data of a row that [defaultSchedules] gives. *)
Definition schedule_data (s : MeetingSchedule) : Z * Z * string * string :=
  (day_of_week s, session_number s, start_time s, end_time s).

(** The schedule table holds the default sessions, each once and in any
    order of the rows, all of them active. *)
Definition holds_defaults (d : Database) : Prop :=
  schedule_data <$> meeting_schedules d ≡ₚ defaultSchedules
  ∧ Forall (λ s, is_active s = true) (meeting_schedules d).

(** Active sessions of one weekday do not meet: one ends before the other
    starts. *)
Definition non_overlapping (rows : list MeetingSchedule) : Prop :=
  ∀ a b, a ∈ rows → b ∈ rows →
         is_active a = true → is_active b = true →
         day_of_week a = day_of_week b → a ≠ b →
         Time.minutes (end_time a) < Time.minutes (start_time b)
         ∨ Time.minutes (end_time b) < Time.minutes (start_time a).

End Store.

(** ** Further routes ([server.js])

    The management routes are modelled as their handlers run once
    [requireAuth] has let the request through. *)

Module Routes.
Import Db Server Store.

(** The body of an answer of the management routes: [{ error }] or
    [{ success: true }]. *)
Inductive AdminBody :=
| AdminError (error : string)
| AdminSuccess.

(** PUT /api/members/:id *)
Definition putMember (memberId : Z) (newName newBarcode : string)
    : Eff (Z * AdminBody) :=
  if decide (newName = EmptyString ∨ newBarcode = EmptyString)
  then ret (400, AdminError "Name and barcode are required")
  else
    let! err := updateMember memberId newName newBarcode in
    match err with
    | Some err =>
        if String.eqb (err_code err) "SQLITE_CONSTRAINT_UNIQUE"
        then ret (400, AdminError "Barcode already exists")
        else ret (500, AdminError ("Database error: " +:+ err_message err))
    | None => ret (200, AdminSuccess)
    end.

(** DELETE /api/members/:id *)
Definition deleteMemberRoute (memberId : Z) : Eff (Z * AdminBody) :=
  let! err := deleteMember memberId in
  match err with
  | Err => ret (500, AdminError "Database error")
  | Ok _ => ret (200, AdminSuccess)
  end.

(** PUT /api/flagged-records/:id/review *)
Definition reviewRoute (recordId : Z) : Eff (Z * AdminBody) :=
  let! err := markRecordAsReviewed recordId in
  match err with
  | Err => ret (500, AdminError "Database error")
  | Ok _ => ret (200, AdminSuccess)
  end.

(** DELETE /api/meeting-schedules/:day/:session, on the results of
    [parseInt]: a parameter that is NaN matches no row and names no
    scheduler. *)
Definition deleteScheduleRoute (dayOfWeek sessionNumber : Time.JsNum)
    : Eff Response :=
  let! err :=
    match dayOfWeek, sessionNumber with
    | Some d, Some n => deleteMeetingSchedule d n
    | _, _ => storage_write (λ _ d, d)
    end in
  match err with
  | Err => ret (json 500 (ErrorBody "Database error"))
  | Ok _ =>
      let! _ :=
        modify (λ st,
                  match dayOfWeek, sessionNumber with
                  | Some d, Some n =>
                      set_meetingSchedulers
                        (delete (d, n) (meetingSchedulers st)) st
                  | _, _ => st
                  end) in
      ret (json 200 (SuccessBody "Session deleted and auto-logout removed"))
  end.

(** POST /api/meeting-schedules/refresh: the rearm does its work in the
    callback of its read, after the route has answered, so the [catch] of
    the route sees nothing of how it ends. *)
Definition refreshRoute : Eff Response :=
  let! _ := initializeMeetingScheduler in
  ret (json 200 (SuccessBody "Meeting scheduler refreshed")).

(** The body of GET /api/meeting-schedules/current. *)
Inductive StatusBody :=
| StatusError (error : string)
| StatusActive (session : MeetingSchedule)
| StatusInactive (nextSession : option MeetingSchedule).

(** GET /api/meeting-schedules/current; an error of the next-session
    lookup is answered as no next session. *)
Definition meetingStatus (now : Date) : Eff (Z * StatusBody) :=
  let! within := isWithinMeetingSchedule now in
  match within with
  | Err => ret (500, StatusError "Database error")
  | Ok (Some activeSession) => ret (200, StatusActive activeSession)
  | Ok None =>
      let! next := getNextMeetingSession now in
      ret (200, StatusInactive (match next with
                                | Ok nextSession => nextSession
                                | Err => None
                                end))
  end.

(** The trigger table holds, for the active sessions of the store, their
    triggers and nothing else. *)
Definition triggers_match_store (st : State) : Prop :=
  meetingSchedulers st = with_triggers (select_schedules (db st)) ∅.

End Routes.

Module TimeFacts.
Import Time.

Lemma digit_code d : 0 <= d < 10 -> N_of_ascii (digit d) = (48 + Z.to_N d)%N.
Proof.
  intros Hd. unfold digit. apply N_ascii_embedding. lia.
Qed.

Lemma digit_compare x y :
  0 <= x < 10 -> 0 <= y < 10 -> Ascii.compare (digit x) (digit y) = (x ?= y).
Proof.
  intros Hx Hy. unfold Ascii.compare. rewrite !digit_code by done.
  destruct (Z.compare_spec x y) as [->|H|H].
  - apply N.compare_refl.
  - apply N.compare_lt_iff. lia.
  - apply N.compare_gt_iff. lia.
Qed.

Lemma append_cons c s t : String c s +:+ t = String c (s +:+ t).
Proof. reflexivity. Qed.

Lemma append_nil t : EmptyString +:+ t = t.
Proof. reflexivity. Qed.

Lemma compare_cons c c' s s' :
  String.compare (String c s) (String c' s') =
    match Ascii.compare c c' with Eq => String.compare s s' | o => o end.
Proof. reflexivity. Qed.

Ltac string_step := rewrite ?append_cons, ?append_nil, ?compare_cons.

Lemma pad2_compare a b s t :
  0 <= a < 100 -> 0 <= b < 100 ->
  String.compare (pad2 a +:+ s) (pad2 b +:+ t) =
    match a ?= b with Eq => String.compare s t | c => c end.
Proof.
  intros Ha Hb. unfold pad2. string_step.
  assert (0 <= a / 10 < 10 /\ 0 <= a mod 10 < 10) as [Ha1 Ha2]
    by (split; [split; [apply Z.div_pos; lia | apply Z.div_lt_upper_bound; lia]
               | apply Z.mod_pos_bound; lia]).
  assert (0 <= b / 10 < 10 /\ 0 <= b mod 10 < 10) as [Hb1 Hb2]
    by (split; [split; [apply Z.div_pos; lia | apply Z.div_lt_upper_bound; lia]
               | apply Z.mod_pos_bound; lia]).
  rewrite !digit_compare by done.
  pose proof (Z.div_mod a 10 ltac:(lia)) as Ea.
  pose proof (Z.div_mod b 10 ltac:(lia)) as Eb.
  destruct (Z.compare_spec (a / 10) (b / 10)) as [E1|E1|E1];
    destruct (Z.compare_spec (a mod 10) (b mod 10)) as [E2|E2|E2];
    destruct (Z.compare_spec a b) as [E3|E3|E3];
    try reflexivity; exfalso; lia.
Qed.

Lemma hhmm_compare h m h' m' :
  0 <= h < 24 -> 0 <= m < 60 -> 0 <= h' < 24 -> 0 <= m' < 60 ->
  String.compare (hhmm h m) (hhmm h' m') = (h * 60 + m ?= h' * 60 + m').
Proof.
  intros Hh Hm Hh' Hm'. unfold hhmm.
  rewrite pad2_compare by lia. string_step.
  replace (Ascii.compare ":" ":") with Eq by reflexivity.
  change (pad2 m) with (pad2 m +:+ EmptyString).
  change (pad2 m') with (pad2 m' +:+ EmptyString).
  rewrite pad2_compare by lia.
  change (String.compare EmptyString EmptyString) with Eq.
  destruct (Z.compare_spec h h') as [E1|E1|E1];
    destruct (Z.compare_spec m m') as [E2|E2|E2];
    destruct (Z.compare_spec (h * 60 + m) (h' * 60 + m')) as [E3|E3|E3];
    try reflexivity; exfalso; lia.
Qed.

Lemma hhmm_lt h m h' m' :
  0 <= h < 24 -> 0 <= m < 60 -> 0 <= h' < 24 -> 0 <= m' < 60 ->
  text_lt (hhmm h m) (hhmm h' m') = (h * 60 + m <? h' * 60 + m').
Proof.
  intros. unfold text_lt, String.ltb. rewrite hhmm_compare by done.
  unfold Z.ltb. by destruct (_ ?= _).
Qed.

Lemma hhmm_le h m h' m' :
  0 <= h < 24 -> 0 <= m < 60 -> 0 <= h' < 24 -> 0 <= m' < 60 ->
  text_le (hhmm h m) (hhmm h' m') = (h * 60 + m <=? h' * 60 + m').
Proof.
  intros. unfold text_le, String.leb. rewrite hhmm_compare by done.
  unfold Z.leb. by destruct (_ ?= _).
Qed.

Lemma digit_is_digit d : 0 <= d < 10 -> is_digit (digit d) = true.
Proof.
  intros Hd. unfold is_digit. rewrite digit_code by done.
  apply andb_true_intro; split; apply N.leb_le; lia.
Qed.

Lemma digit_value d : 0 <= d < 10 -> Z.of_N (N_of_ascii (digit d)) - 48 = d.
Proof. intros Hd. rewrite digit_code by done. lia. Qed.

Lemma Number_pad2 n : 0 <= n < 100 -> Number (pad2 n) = Some n.
Proof.
  intros Hn. unfold Number, pad2. cbn [digits_value].
  assert (0 <= n / 10 < 10)
    by (split; [apply Z.div_pos; lia | apply Z.div_lt_upper_bound; lia]).
  assert (0 <= n mod 10 < 10) by (apply Z.mod_pos_bound; lia).
  rewrite !digit_is_digit, !digit_value by done.
  f_equal. pose proof (Z.div_mod n 10 ltac:(lia)). lia.
Qed.

Lemma digit_not_colon d : 0 <= d < 10 -> Ascii.eqb (digit d) ":" = false.
Proof.
  intros Hd. apply Ascii.eqb_neq. intros E.
  apply (f_equal N_of_ascii) in E. rewrite digit_code in E by done.
  cbn in E. lia.
Qed.

Lemma split_colon_hhmm h m :
  0 <= h < 100 -> 0 <= m < 100 -> split_colon (hhmm h m) = [pad2 h; pad2 m].
Proof.
  intros Hh Hm. unfold hhmm, pad2. string_step. cbn [split_colon].
  assert (forall n, 0 <= n < 100 -> 0 <= n / 10 < 10 /\ 0 <= n mod 10 < 10) as D.
  { intros n Hn. split; [split; [apply Z.div_pos; lia | apply Z.div_lt_upper_bound; lia]
                        | apply Z.mod_pos_bound; lia]. }
  destruct (D h Hh), (D m Hm).
  rewrite !digit_not_colon by done. reflexivity.
Qed.

Lemma split_hour_minute_hhmm h m :
  0 <= h < 100 -> 0 <= m < 100 ->
  split_hour_minute (hhmm h m) = (Some h, Some m).
Proof.
  intros Hh Hm. unfold split_hour_minute.
  rewrite split_colon_hhmm by done. cbn [fmap list_fmap].
  by rewrite !Number_pad2.
Qed.

Lemma minutes_of_hhmm h m :
  0 <= h < 24 -> 0 <= m < 60 -> minutes_of (hhmm h m) = Some (h * 60 + m).
Proof.
  intros Hh Hm. unfold minutes_of.
  rewrite split_hour_minute_hhmm by lia.
  rewrite String.eqb_refl.
  destruct (Z.ltb_spec h 24), (Z.ltb_spec m 60); try lia. reflexivity.
Qed.

Lemma digits_value_nonneg s acc v :
  0 <= acc -> digits_value acc s = Some v -> 0 <= v.
Proof.
  revert acc. induction s as [|c s IH]; intros acc Hacc; cbn [digits_value].
  - intros [= <-]. done.
  - destruct (is_digit c) eqn:Hc; [|done].
    apply IH. unfold is_digit in Hc. cbv zeta in Hc.
    apply andb_prop in Hc as [Hc _]. apply N.leb_le in Hc. lia.
Qed.

(** Every well-formed time is the text of an hour and a minute. *)
Lemma minutes_of_inv t n :
  minutes_of t = Some n ->
  exists h m, 0 <= h < 24 /\ 0 <= m < 60 /\ t = hhmm h m /\ n = h * 60 + m.
Proof.
  unfold minutes_of, split_hour_minute. intros H.
  destruct (Number <$> split_colon t) as [|[h|] [|[m|] r]] eqn:E; try done.
  destruct (Z.ltb_spec h 24), (Z.ltb_spec m 60); try done.
  destruct (String.eqb_spec t (hhmm h m)) as [Et|]; [|done].
  injection H as <-. exists h, m.
  destruct (split_colon t) as [|sh [|sm r']]; try done.
  injection E as Eh Em _.
  apply digits_value_nonneg in Eh; [|done].
  apply digits_value_nonneg in Em; [|done].
  repeat split; try done; lia.
Qed.

Lemma well_formed_hhmm t :
  well_formed t <->
  exists h m, 0 <= h < 24 /\ 0 <= m < 60 /\ t = hhmm h m.
Proof.
  split.
  - intros [n Hn]. apply minutes_of_inv in Hn as (h & m & ? & ? & ? & _). eauto.
  - intros (h & m & Hh & Hm & ->). eexists. by apply minutes_of_hhmm.
Qed.

(** On well-formed times the store's text order is the order of the
    times of day. *)
Lemma text_lt_minutes a b x y :
  minutes_of a = Some x -> minutes_of b = Some y ->
  text_lt a b = (x <? y).
Proof.
  intros (h & m & ? & ? & -> & ->)%minutes_of_inv
         (h' & m' & ? & ? & -> & ->)%minutes_of_inv.
  by apply hhmm_lt.
Qed.

Lemma text_le_minutes a b x y :
  minutes_of a = Some x -> minutes_of b = Some y ->
  text_le a b = (x <=? y).
Proof.
  intros (h & m & ? & ? & -> & ->)%minutes_of_inv
         (h' & m' & ? & ? & -> & ->)%minutes_of_inv.
  by apply hhmm_le.
Qed.

(** The text order is a total preorder on all strings. *)
Lemma compare_trans_lt c a b :
  String.compare a b = Lt -> String.compare b c = Lt -> String.compare a c = Lt.
Proof.
  revert a b. induction c as [|z c IH]; intros [|x a] [|y b]; cbn; try done.
  unfold Ascii.compare.
  destruct (N.compare_spec (N_of_ascii x) (N_of_ascii y)) as [E1|E1|E1];
    destruct (N.compare_spec (N_of_ascii y) (N_of_ascii z)) as [E2|E2|E2];
    destruct (N.compare_spec (N_of_ascii x) (N_of_ascii z)) as [E3|E3|E3];
    try done; try lia; eauto.
Qed.

Lemma compare_refl a : String.compare a a = Eq.
Proof.
  induction a as [|x a IH]; cbn; [done|].
  unfold Ascii.compare. by rewrite N.compare_refl.
Qed.

Lemma text_le_refl a : text_le a a = true.
Proof. unfold text_le, String.leb. by rewrite compare_refl. Qed.

Lemma text_le_trans a b c :
  text_le a b = true -> text_le b c = true -> text_le a c = true.
Proof.
  unfold text_le, String.leb. intros H1 H2.
  destruct (String.compare a b) eqn:E1; [| |done].
  - apply String.compare_eq_iff in E1 as ->. done.
  - destruct (String.compare b c) eqn:E2; [| |done].
    + apply String.compare_eq_iff in E2 as <-. by rewrite E1.
    + by rewrite (compare_trans_lt c a b).
Qed.

Lemma text_le_total a b : text_le a b = true \/ text_le b a = true.
Proof. apply String.leb_total. Qed.

Lemma text_lt_le a b : text_lt a b = true -> text_le a b = true.
Proof.
  unfold text_lt, text_le, String.ltb, String.leb.
  by destruct (String.compare a b).
Qed.

Lemma text_lt_trans a b c :
  text_lt a b = true -> text_lt b c = true -> text_lt a c = true.
Proof.
  unfold text_lt, String.ltb. intros H1 H2.
  destruct (String.compare a b) eqn:E1; try done.
  destruct (String.compare b c) eqn:E2; try done.
  by rewrite (compare_trans_lt c a b).
Qed.

(** Two texts are equal, or one comes before the other. *)
Lemma text_lt_cases a b : text_lt a b = true \/ a = b \/ text_lt b a = true.
Proof.
  unfold text_lt, String.ltb.
  destruct (String.compare a b) eqn:E.
  - right; left. by apply String.compare_eq_iff.
  - by left.
  - right; right. rewrite String.compare_antisym, E. done.
Qed.

End TimeFacts.

(** ** [ORDER BY ... LIMIT 1] returns a least row *)

Module SortFacts.
Import Db.

Section first_by.
Context {A : Type} (R : relation A).
Context `{!RelDecision R, !Transitive R, !Total R}.

Lemma first_by_None (rows : list A) : first_by R rows = None ↔ rows = [].
Proof.
  destruct rows as [|row rest]; [done|]. cbn.
  by destruct (first_by R rest).
Qed.

Lemma first_by_Some (rows : list A) (x : A) :
  first_by R rows = Some x → x ∈ rows ∧ ∀ y, y ∈ rows → R x y.
Proof.
  revert x. induction rows as [|row rest IH]; intros x; [done|]. cbn.
  destruct (first_by R rest) as [best|] eqn:E.
  - destruct (IH best eq_refl) as [Hin Hmin]. intros [= <-].
    case_decide as Hr.
    + split; [by left|]. intros y [->|Hy]%elem_of_cons.
      * by destruct (total R row row).
      * trans best; [done|by apply Hmin].
    + split; [by right|]. intros y [->|Hy]%elem_of_cons.
      * by destruct (total R best row).
      * by apply Hmin.
  - apply first_by_None in E as ->. intros [= <-]. split; [by left|].
    intros y ->%list_elem_of_singleton. by destruct (total R row row).
Qed.


Lemma first_by_is_Some (rows : list A) (y : A) :
  y ∈ rows → is_Some (first_by R rows).
Proof.
  intros Hy. destruct (first_by R rows) eqn:E; [by eexists|].
  apply first_by_None in E. subst. by apply elem_of_nil in Hy.
Qed.
End first_by.


Global Instance session_order_trans : Transitive session_order.
Proof. intros a b c. unfold session_order. lia. Qed.

Global Instance session_order_total : Total session_order.
Proof. intros a b. unfold session_order. lia. Qed.

Global Instance earlier_start_trans : Transitive earlier_start.
Proof.
  intros a b c. unfold earlier_start.
  intros [H1|[E1 H1]] [H2|[E2 H2]].
  - left. by eapply TimeFacts.text_lt_trans.
  - left. by rewrite <- E2.
  - left. by rewrite E1.
  - right. split; [congruence|lia].
Qed.

Global Instance earlier_start_total : Total earlier_start.
Proof.
  intros a b. unfold earlier_start.
  destruct (TimeFacts.text_lt_cases (start_time a) (start_time b))
    as [H|[H|H]]; [by left; left| |by right; left].
  destruct (Z.le_ge_cases (session_number a) (session_number b));
    [left|right]; right; done.
Qed.

Lemma earlier_start_le a b :
  earlier_start a b → Time.text_le (start_time a) (start_time b) = true.
Proof.
  intros [H|[-> _]]; [by apply TimeFacts.text_lt_le|].
  apply TimeFacts.text_le_refl.
Qed.

Global Instance week_order_trans d : Transitive (week_order d).
Proof. intros a b c. unfold week_order. lia. Qed.

Global Instance week_order_total d : Total (week_order d).
Proof. intros a b. unfold week_order. lia. Qed.

Global Instance later_scan_trans : Transitive later_scan.
Proof. intros a b c. unfold later_scan. lia. Qed.

Global Instance later_scan_total : Total later_scan.
Proof. intros a b. unfold later_scan. lia. Qed.

End SortFacts.

(** ** Schedule evaluator *)

Module Evaluator.
Import Db Server SortFacts.

Lemma getDay_range now : 0 <= getDay now < 7.
Proof. unfold getDay. apply Z.mod_pos_bound. lia. Qed.

Lemma getHours_range now : 0 <= getHours now < 24.
Proof.
  unfold getHours.
  pose proof (Z.mod_pos_bound (local_minutes now) 1440 ltac:(lia)).
  split; [apply Z.div_pos; lia | apply Z.div_lt_upper_bound; lia].
Qed.

Lemma getMinutes_range now : 0 <= getMinutes now < 60.
Proof. unfold getMinutes. apply Z.mod_pos_bound. lia. Qed.

Lemma minute_of_day_range now : 0 <= minute_of_day now < 1440.
Proof.
  unfold minute_of_day.
  pose proof (getHours_range now). pose proof (getMinutes_range now). lia.
Qed.

Lemma currentTime_minutes now :
  Time.minutes_of (currentTime now) = Some (minute_of_day now).
Proof.
  apply TimeFacts.minutes_of_hhmm;
    [apply getHours_range | apply getMinutes_range].
Qed.

Lemma minutes_well_formed t :
  Time.well_formed t → Time.minutes_of t = Some (Time.minutes t).
Proof. intros [n Hn]. unfold Time.minutes. by rewrite Hn. Qed.

(** The WHERE clause of [isWithinMeetingSchedule], on well-formed rows,
    is [in_session]. *)
Lemma within_clause s now :
  well_formed_schedule s →
  (day_of_week s = getDay now
   ∧ is_active s = true
   ∧ Time.text_le (start_time s) (currentTime now) = true
   ∧ Time.text_le (currentTime now) (end_time s) = true)
  ↔ in_session s now.
Proof.
  intros [Hs He]. unfold in_session.
  rewrite (TimeFacts.text_le_minutes _ _ _ _
             (minutes_well_formed _ Hs) (currentTime_minutes now)).
  rewrite (TimeFacts.text_le_minutes _ _ _ _
             (currentTime_minutes now) (minutes_well_formed _ He)).
  rewrite !Z.leb_le. tauto.
Qed.

Lemma select_within_Some d dayOfWeek cur s :
  select_within d dayOfWeek cur = Some s →
  s ∈ meeting_schedules d
  ∧ day_of_week s = dayOfWeek
  ∧ is_active s = true
  ∧ Time.text_le (start_time s) cur = true
  ∧ Time.text_le cur (end_time s) = true.
Proof.
  unfold select_within. intros [H _]%(first_by_Some _).
  apply list_elem_of_filter in H. tauto.
Qed.

Lemma select_within_None d dayOfWeek cur :
  select_within d dayOfWeek cur = None ↔
  ∀ s, s ∈ meeting_schedules d →
       ¬ (day_of_week s = dayOfWeek
          ∧ is_active s = true
          ∧ Time.text_le (start_time s) cur = true
          ∧ Time.text_le cur (end_time s) = true).
Proof.
  unfold select_within. rewrite (first_by_None _). split.
  - intros E s Hs HP. by eapply (filter_nil_not_elem_of _ _ s E).
  - intros H. apply elem_of_nil_inv. intros s Hs.
    apply list_elem_of_filter in Hs as [HP Hs]. by apply (H s).
Qed.

(** C4: on a schedule table of well-formed times, [isWithinSession(now)]
    (the row that [isWithinMeetingSchedule] hands to its callback when the
    store answers) returns a session only if that session is active, on now's weekday and
    has start_time <= now <= end_time, and it returns none exactly when no
    session of the table is such; both bounds are included: at a session's
    start_time and at its end_time a session is returned, and one minute
    after its end_time that session is not returned (none is, when it is
    the only session of the table). *)
Theorem isWithinSession_inclusive (d : Database) (now : Date) :
  Forall well_formed_schedule (meeting_schedules d) →
  let found := select_within d (getDay now) (currentTime now) in
  (∀ st, db st = d → head (faults st) ≠ Some true →
         (isWithinMeetingSchedule now st).1 = Ok found)
  ∧ (∀ s, found = Some s → s ∈ meeting_schedules d ∧ in_session s now)
  ∧ (found = None ↔ ∀ s, s ∈ meeting_schedules d → ¬ in_session s now)
  ∧ (∀ s, s ∈ meeting_schedules d →
          is_active s = true → day_of_week s = getDay now →
          Time.minutes (start_time s) <= Time.minutes (end_time s) →
          (minute_of_day now = Time.minutes (start_time s) → is_Some found)
          ∧ (minute_of_day now = Time.minutes (end_time s) → is_Some found)
          ∧ (minute_of_day now = Time.minutes (end_time s) + 1 →
             found ≠ Some s
             ∧ (meeting_schedules d = [s] → found = None))).
Proof.
  intros Hwf found.
  rewrite Forall_forall in Hwf.
  assert (∀ s, found = Some s → s ∈ meeting_schedules d ∧ in_session s now)
    as Hsound.
  { intros s (Hs & HP)%select_within_Some. split; [done|].
    by apply within_clause; [apply Hwf|]. }
  assert (found = None ↔ ∀ s, s ∈ meeting_schedules d → ¬ in_session s now)
    as Hnone.
  { unfold found. rewrite select_within_None.
    split; intros H s Hs; specialize (H s Hs);
      by rewrite within_clause in * by by apply Hwf. }
  split.
  { intros st <- Hf. destruct st as [d' m c [|[] fs]]; done. }
  split; [done|]. split; [done|].
  intros s Hs Hact Hday Hle.
  assert (in_session s now → is_Some found) as Hin.
  { intros HP. destruct found eqn:E; [by eexists|].
    exfalso. by eapply Hnone. }
  split; [|split].
  - intros E. apply Hin. repeat split; try done; lia.
  - intros E. apply Hin. repeat split; try done; lia.
  - intros E.
    assert (¬ in_session s now) as Hout by (unfold in_session; lia).
    split.
    + intros [_ H]%Hsound. done.
    + intros Htbl. apply Hnone. intros s' Hs'. rewrite Htbl in Hs'.
      by apply list_elem_of_singleton in Hs' as ->.
Qed.

Lemma isWithinSession_inclusive_witness :
  Forall well_formed_schedule (meeting_schedules Sample.monday_only)
  ∧ is_Some (select_within Sample.monday_only
               (getDay (Sample.monday_at 12 0))
               (currentTime (Sample.monday_at 12 0))).
Proof.
  assert (Forall well_formed_schedule (meeting_schedules Sample.monday_only))
    as Hwf by (apply Forall_singleton; split; by eexists).
  split; [exact Hwf|].
  destruct (isWithinSession_inclusive Sample.monday_only
              (Sample.monday_at 12 0) Hwf) as (_ & _ & _ & Hbounds).
  destruct (Hbounds Sample.monday_morning) as (_ & Hend & _);
    [by left | done | by vm_compute | by vm_compute |].
  apply Hend. by vm_compute.
Defined.

(** *** [getNextMeetingSession] *)

Lemma today_rows d now s :
  s ∈ filter (λ s, day_of_week s = getDay now
                   ∧ is_active s = true
                   ∧ Time.text_lt (currentTime now) (start_time s) = true)
             (meeting_schedules d)
  ↔ later_today d now s.
Proof. rewrite list_elem_of_filter. unfold later_today. tauto. Qed.

Lemma week_rows d now s :
  s ∈ filter (λ s, ((day_of_week s > getDay now ∧ day_of_week s <= 6)
                    ∨ (day_of_week s >= 0 ∧ day_of_week s < getDay now))
                   ∧ is_active s = true)
             (meeting_schedules d)
  ↔ other_day d now s.
Proof.
  rewrite list_elem_of_filter. unfold other_day.
  pose proof (getDay_range now). intuition lia.
Qed.

Lemma week_rank_distance d now s :
  other_day d now s →
  week_rank (getDay now) s = getDay now + day_distance now s.
Proof.
  intros (_ & _ & Hr & Hne). pose proof (getDay_range now).
  unfold week_rank, day_distance. case_decide.
  - rewrite Z.mod_small by lia. lia.
  - replace (day_of_week s - getDay now)
      with (day_of_week s + 7 - getDay now + (-1) * 7) by lia.
    rewrite Z.mod_add by lia. rewrite Z.mod_small by lia. lia.
Qed.

(** A session later today is preferred, the one of least start_time. *)
Lemma nextSession_today d now s :
  later_today d now s →
  ∃ r, nextSession d now = Some r
       ∧ later_today d now r
       ∧ ∀ s', later_today d now s' →
               Time.text_le (start_time r) (start_time s') = true.
Proof.
  intros Hs. unfold nextSession, select_today_session.
  apply today_rows in Hs.
  destruct (first_by_is_Some earlier_start _ _ Hs) as [r Hr].
  rewrite Hr. destruct (first_by_Some _ _ _ Hr) as [Hin Hmin].
  exists r. split; [done|]. split; [by apply today_rows|].
  intros s' Hs'. by apply earlier_start_le, Hmin, today_rows.
Qed.

(** With none left today, the session of another weekday that comes
    first: least day distance, then least session_number. *)
Lemma nextSession_week d now s :
  (∀ s', ¬ later_today d now s') →
  other_day d now s →
  ∃ r, nextSession d now = Some r
       ∧ other_day d now r
       ∧ ∀ s', other_day d now s' →
               day_distance now r < day_distance now s'
               ∨ (day_distance now r = day_distance now s'
                  ∧ session_number r <= session_number s').
Proof.
  intros Hnone Hs. unfold nextSession.
  destruct (select_today_session _ _ _) as [t|] eqn:Et.
  { destruct (first_by_Some _ _ _ Et) as [Ht _]. apply today_rows in Ht.
    by destruct (Hnone t). }
  unfold select_week_session. apply week_rows in Hs.
  destruct (first_by_is_Some (week_order (getDay now)) _ _ Hs) as [r Hr].
  rewrite Hr. destruct (first_by_Some _ _ _ Hr) as [Hin Hmin].
  apply week_rows in Hin.
  exists r. split; [done|]. split; [done|].
  intros s' Hs'. specialize (Hmin s' (proj2 (week_rows _ _ _) Hs')).
  unfold week_order in Hmin.
  rewrite !(week_rank_distance d) in Hmin by done. lia.
Qed.

(** None is returned exactly when no active session starts later today
    and no active session lies on another weekday. *)
Lemma nextSession_None d now :
  nextSession d now = None ↔
  (∀ s, ¬ later_today d now s) ∧ (∀ s, ¬ other_day d now s).
Proof.
  unfold nextSession. split.
  - destruct (select_today_session _ _ _) eqn:Et; [done|].
    intros Ew. apply (proj1 (first_by_None _ _)) in Et, Ew.
    split; intros s Hs.
    + apply today_rows in Hs. rewrite Et in Hs. by apply elem_of_nil in Hs.
    + apply week_rows in Hs. rewrite Ew in Hs. by apply elem_of_nil in Hs.
  - intros [Ht Hw].
    destruct (select_today_session _ _ _) as [t|] eqn:Et.
    { destruct (first_by_Some _ _ _ Et) as [Hin _]. apply today_rows in Hin.
      by destruct (Ht t). }
    apply (first_by_None _), elem_of_nil_inv.
    intros s Hs. apply week_rows in Hs. by apply (Hw s).
Qed.

(** When both queries succeed [getNextMeetingSession] answers
    [nextSession]. *)
Lemma getNextMeetingSession_ok now st :
  faults st = [] →
  getNextMeetingSession now st = (Ok (nextSession (db st) now), st).
Proof.
  intros Hf. unfold getNextMeetingSession, nextSession, bind, storage_read,
    bind, next_fault. rewrite Hf. cbn.
  destruct (select_today_session _ _ _); [done|].
  rewrite Hf. done.
Qed.

(** C1: [nextSession] with a single active session, Monday 08:00-12:00,
    asked on a Monday at 12:05: the session has started, no other weekday
    holds a session, and none is returned although the table has an active
    session (next Monday's occurrence of it). *)
Theorem nextSession_misses_same_weekday :
  Sample.monday_morning ∈ meeting_schedules Sample.monday_only
  ∧ is_active Sample.monday_morning = true
  ∧ select_within Sample.monday_only (getDay (Sample.monday_at 12 5))
      (currentTime (Sample.monday_at 12 5)) = None
  ∧ nextSession Sample.monday_only (Sample.monday_at 12 5) = None
  ∧ getNextMeetingSession (Sample.monday_at 12 5)
      (Sample.state_of Sample.monday_only [])
    = (Ok None, Sample.state_of Sample.monday_only []).
Proof.
  split; [by left|]. split; [done|]. split; [by vm_compute|].
  split; by vm_compute.
Qed.

End Evaluator.

(** ** Auto-logout scheduler: arming the triggers *)

Module Scheduler.
Import Db Server.

Lemma select_schedules_elem d s :
  s ∈ select_schedules d ↔ s ∈ meeting_schedules d ∧ is_active s = true.
Proof.
  unfold select_schedules. rewrite merge_sort_Permutation.
  rewrite list_elem_of_filter. tauto.
Qed.

Lemma select_schedules_unique d :
  unique_keys (meeting_schedules d) → unique_keys (select_schedules d).
Proof.
  intros U a b [Ha _]%select_schedules_elem [Hb _]%select_schedules_elem.
  by apply U.
Qed.

Lemma with_triggers_snoc rows s m :
  with_triggers (rows ++ [s]) m
  = <[schedule_key s := logout_trigger s]> (with_triggers rows m).
Proof. unfold with_triggers. by rewrite foldl_snoc. Qed.

(** Written into the empty table, the triggers are those of the rows. *)
Lemma with_triggers_lookup rows k t :
  unique_keys rows →
  with_triggers rows ∅ !! k = Some t
  ↔ ∃ s, s ∈ rows ∧ schedule_key s = k ∧ t = logout_trigger s.
Proof.
  induction rows as [|s rows IH] using rev_ind; intros U.
  - cbn. rewrite lookup_empty. split; [done|].
    intros (s & Hs & _). by apply elem_of_nil in Hs.
  - rewrite with_triggers_snoc.
    assert (unique_keys rows) as U'.
    { intros a b Ha Hb. apply U; apply elem_of_app; by left. }
    destruct (decide (schedule_key s = k)) as [<-|Hne].
    + rewrite lookup_insert_eq. split.
      * intros [= <-]. exists s. split; [|done].
        apply elem_of_app. right. by left.
      * intros (s' & Hs' & Hk & ->). f_equal. f_equal.
        apply U; [apply elem_of_app; right; by left|done|done].
    + rewrite lookup_insert_ne by done. rewrite (IH U'). split.
      * intros (s' & Hs' & Hk). exists s'. split; [|done].
        apply elem_of_app. by left.
      * intros (s' & Hs' & Hk & Ht). exists s'. split; [|done].
        apply elem_of_app in Hs' as [Hs'|Hs']; [done|].
        apply list_elem_of_singleton in Hs' as ->. done.
Qed.

Lemma with_triggers_is_Some rows s m :
  s ∈ rows → is_Some (with_triggers rows m !! schedule_key s).
Proof.
  induction rows as [|y rows IH] using rev_ind; [by intros ?%elem_of_nil|].
  intros Hs. rewrite with_triggers_snoc.
  destruct (decide (schedule_key y = schedule_key s)) as [E|Hne].
  - rewrite E, lookup_insert_eq. by eexists.
  - rewrite lookup_insert_ne by done. apply IH.
    apply elem_of_app in Hs as [Hs|Hs]; [done|].
    apply list_elem_of_singleton in Hs. by subst.
Qed.

(** The trigger of a row whose end_time is a time of day: a quarter of an
    hour later, around the clock. *)
Lemma logout_trigger_well_formed s e :
  Time.minutes_of (end_time s) = Some e →
  logout_trigger s
  = {| cron_minute := Some ((e + 15) mod 60);
       cron_hour := Some ((e + 15) / 60 mod 24);
       cron_day := day_of_week s |}.
Proof.
  intros (h & m & Hh & Hm & Et & ->)%TimeFacts.minutes_of_inv.
  unfold logout_trigger. rewrite Et.
  rewrite TimeFacts.split_hour_minute_hhmm by lia. cbn.
  unfold js_ge, js_add. cbn.
  destruct (Z.leb_spec 60 (m + 15)) as [Hov|Hov]; cbn;
    [destruct (Z.leb_spec 24 (h + 1)) as [Hd|Hd]
    |destruct (Z.leb_spec 24 h) as [Hd|Hd]]; cbn;
    f_equal; f_equal; Z.div_mod_to_equations; lia.
Qed.

(** [cron.schedule] accepts the expression of an armable session. *)
Lemma armable_accepted s : armable s → cron_accepts (logout_trigger s) = true.
Proof.
  intros [Hday [e He]]. rewrite (logout_trigger_well_formed s e He).
  unfold cron_accepts. cbn.
  pose proof (Z.mod_pos_bound (e + 15) 60 ltac:(lia)).
  pose proof (Z.mod_pos_bound ((e + 15) / 60) 24 ltac:(lia)).
  repeat (apply andb_true_intro; split); apply Z.leb_le; lia.
Qed.

Lemma set_meetingSchedulers_same st :
  set_meetingSchedulers (meetingSchedulers st) st = st.
Proof. by destruct st. Qed.

(** The loop arms every session when [cron.schedule] accepts them
    all, *)
Lemma arm_all_accepted rows :
  ∀ st,
    Forall (λ s, cron_accepts (logout_trigger s) = true) rows →
    arm_all rows st
    = (Armed,
       set_meetingSchedulers (with_triggers rows (meetingSchedulers st)) st).
Proof.
  induction rows as [|s rows IH]; intros st Hacc.
  - cbn. by rewrite set_meetingSchedulers_same.
  - apply Forall_cons in Hacc as [Hs Hacc].
    cbn [arm_all]. rewrite Hs. unfold bind, modify.
    by rewrite IH.
Qed.

(** and it stops at the first session that is refused: the sessions
    before it stay armed, the sessions after it are not armed. *)
Lemma arm_all_thrown before s after :
  ∀ st,
    Forall (λ s, cron_accepts (logout_trigger s) = true) before →
    cron_accepts (logout_trigger s) = false →
    arm_all (before ++ s :: after) st
    = (Thrown s,
       set_meetingSchedulers (with_triggers before (meetingSchedulers st)) st).
Proof.
  induction before as [|s0 before IH]; intros st Hacc Hs.
  - cbn [app arm_all]. rewrite Hs. cbn. by rewrite set_meetingSchedulers_same.
  - apply Forall_cons in Hacc as [Hs0 Hacc].
    cbn [app arm_all]. rewrite Hs0. unfold bind, modify.
    by rewrite IH.
Qed.

Lemma arm_all_db rows : ∀ st, db (arm_all rows st).2 = db st.
Proof.
  induction rows as [|s rows IH]; intros st; [done|].
  cbn [arm_all]. destruct (cron_accepts (logout_trigger s)); [|done].
  unfold bind, modify. by rewrite IH.
Qed.

(** A rearm never writes to the store. *)
Lemma initialize_db st : db (initializeMeetingScheduler st).2 = db st.
Proof.
  unfold initializeMeetingScheduler, bind, modify, getMeetingSchedules,
    storage_read, next_fault, ret.
  destruct st as [d m c [|[] fs]]; cbn; try done; by rewrite arm_all_db.
Qed.

Lemma initialize_read_ok st :
  head (faults st) ≠ Some true →
  (∀ s, s ∈ meeting_schedules (db st) → is_active s = true → armable s) →
  initializeMeetingScheduler st
  = (Armed, {| db := db st;
               meetingSchedulers := with_triggers (select_schedules (db st)) ∅;
               clock := clock st; faults := tail (faults st) |}).
Proof.
  intros Hf Harm.
  assert (Forall (λ s, cron_accepts (logout_trigger s) = true)
                 (select_schedules (db st))) as Hacc.
  { apply Forall_forall. intros s [Hs Ha]%select_schedules_elem.
    by apply armable_accepted, Harm. }
  unfold initializeMeetingScheduler, bind, modify, getMeetingSchedules,
    storage_read, next_fault, ret.
  destruct st as [d m c [|[] fs]]; cbn in Hf, Hacc |- *; try done;
    by rewrite arm_all_accepted.
Qed.

Lemma initialize_read_failed st :
  head (faults st) = Some true →
  initializeMeetingScheduler st
  = (ReadFailed, {| db := db st; meetingSchedulers := ∅;
                    clock := clock st; faults := tail (faults st) |}).
Proof.
  intros Hf. destruct st as [d m c [|[] fs]]; done.
Qed.

(** After a rearm that read armable sessions, the table of triggers. *)
Lemma initialize_armed st k t :
  unique_keys (meeting_schedules (db st)) →
  head (faults st) ≠ Some true →
  (∀ s, s ∈ meeting_schedules (db st) → is_active s = true → armable s) →
  meetingSchedulers (initializeMeetingScheduler st).2 !! k = Some t
  ↔ ∃ s, s ∈ meeting_schedules (db st) ∧ is_active s = true
         ∧ schedule_key s = k ∧ t = logout_trigger s.
Proof.
  intros U Hf Harm. rewrite initialize_read_ok by done. cbn.
  rewrite with_triggers_lookup by by apply select_schedules_unique.
  split.
  - intros (s & [Hs Ha]%select_schedules_elem & Hk & Ht). eauto.
  - intros (s & Hs & Ha & Hk & Ht). exists s.
    split; [by apply select_schedules_elem|done].
Qed.

(** A session whose end_time was entered as "17" has the minute NaN in its
    expression; [cron.schedule] throws on it, and of the three Monday
    sessions only the one read before it is left armed. *)
Lemma rearm_stops_at_refused_session :
  let run := initializeMeetingScheduler
               (Sample.state_of Sample.short_end_between []) in
  logout_trigger Sample.monday_short_end
  = {| cron_minute := None; cron_hour := Some 17; cron_day := 1 |}
  ∧ run.1 = Thrown Sample.monday_short_end
  ∧ meetingSchedulers run.2 !! (1, 1)
    = Some {| cron_minute := Some 15; cron_hour := Some 12; cron_day := 1 |}
  ∧ meetingSchedulers run.2 !! (1, 2) = None
  ∧ meetingSchedulers run.2 !! (1, 3) = None.
Proof. repeat split; by vm_compute. Qed.

(** The claim of C2 fails: with the Monday trigger armed and the read of
    the schedule table failing, the rearm leaves neither the complete
    trigger set nor the one armed before. *)
Lemma rearm_failure_discards_triggers :
  ¬ rearm_all_or_nothing Sample.armed_then_failing.
Proof.
  unfold rearm_all_or_nothing.
  rewrite initialize_read_failed by done. cbn.
  intros [E|E]; apply (f_equal (λ m, m !! (1, 1))) in E;
    vm_compute in E; discriminate.
Qed.

(** C2 (amended): a rearm never touches the store and first discards
    every armed trigger; when the read of the schedule table fails the
    trigger table is left empty (the triggers armed before are not kept),
    and when it succeeds on a table whose active sessions all have a
    weekday 0 to 6 and a time of day "HH:MM" as end_time, the table holds
    exactly one trigger per active session, the one of that session. *)
Theorem rearm_empty_or_complete (st : State) :
  unique_keys (meeting_schedules (db st)) →
  let st' := (initializeMeetingScheduler st).2 in
  db st' = db st
  ∧ (head (faults st) = Some true → meetingSchedulers st' = ∅)
  ∧ (head (faults st) ≠ Some true →
     (∀ s, s ∈ meeting_schedules (db st) → is_active s = true → armable s) →
     ∀ k t, meetingSchedulers st' !! k = Some t
            ↔ ∃ s, s ∈ meeting_schedules (db st) ∧ is_active s = true
                   ∧ schedule_key s = k ∧ t = logout_trigger s).
Proof.
  intros U st'. split; [|split].
  - apply initialize_db.
  - intros Hf. unfold st'. by rewrite initialize_read_failed.
  - intros Hf Harm k t. by apply initialize_armed.
Qed.

Lemma unique_keys_singleton s : unique_keys [s].
Proof.
  intros a b Ha%list_elem_of_singleton Hb%list_elem_of_singleton _.
  congruence.
Qed.

Lemma rearm_empty_or_complete_witness :
  meetingSchedulers
    (initializeMeetingScheduler Sample.armed_then_failing).2 = ∅
  ∧ meetingSchedulers
      (initializeMeetingScheduler (Sample.state_of Sample.monday_only [])).2
      !! (1, 1)
    = Some (logout_trigger Sample.monday_morning).
Proof.
  split.
  - apply (rearm_empty_or_complete Sample.armed_then_failing);
      [apply unique_keys_singleton | reflexivity].
  - apply (rearm_empty_or_complete (Sample.state_of Sample.monday_only []));
      [apply unique_keys_singleton | done | |].
    + intros s Hs%list_elem_of_singleton _. subst s.
      split; [done | by eexists].
    + exists Sample.monday_morning. split; [by left | done].
Defined.

(** C8: after a rearm that read the schedule table, its active sessions
    all having a weekday 0 to 6 and a time of day "HH:MM" as end_time, the
    trigger armed for an active session fires a quarter of an hour after
    the session's end_time, the minutes rolling into the hour and the hour
    wrapping past midnight, on the session's own day_of_week: a session
    ending at 23:50 is armed for 00:05 of that same day_of_week. *)
Theorem auto_logout_trigger_time (st : State) (s : MeetingSchedule) (e : Z) :
  unique_keys (meeting_schedules (db st)) →
  head (faults st) ≠ Some true →
  (∀ s', s' ∈ meeting_schedules (db st) → is_active s' = true → armable s') →
  s ∈ meeting_schedules (db st) →
  is_active s = true →
  Time.minutes_of (end_time s) = Some e →
  let armed := meetingSchedulers (initializeMeetingScheduler st).2 in
  armed !! schedule_key s
  = Some {| cron_minute := Some ((e + 15) mod 1440 mod 60);
            cron_hour := Some ((e + 15) mod 1440 / 60);
            cron_day := day_of_week s |}
  ∧ (end_time s = "23:50" →
     armed !! schedule_key s
     = Some {| cron_minute := Some 5; cron_hour := Some 0;
               cron_day := day_of_week s |}).
Proof.
  intros U Hf Harm Hs Ha He armed.
  assert (armed !! schedule_key s = Some (logout_trigger s)) as ->.
  { apply initialize_armed; [done..|]. by exists s. }
  rewrite (logout_trigger_well_formed s e He). split.
  - do 2 f_equal; f_equal; Z.div_mod_to_equations; lia.
  - intros E. rewrite E in He. vm_compute in He. by injection He as <-.
Qed.

Lemma auto_logout_trigger_time_witness :
  meetingSchedulers
    (initializeMeetingScheduler (Sample.state_of Sample.late_only [])).2
    !! (1, 2)
  = Some {| cron_minute := Some 5; cron_hour := Some 0; cron_day := 1 |}.
Proof.
  apply (auto_logout_trigger_time (Sample.state_of Sample.late_only [])
           Sample.monday_late 1430);
    [apply unique_keys_singleton | done | | by left | done | by vm_compute
    | done].
  intros s Hs%list_elem_of_singleton _. subst s. split; [done | by eexists].
Defined.

End Scheduler.

(** ** Scan classifier *)

Module Classifier.
Import Db Server SortFacts.

Lemma select_last_scan_None d memberId :
  select_last_scan d memberId = None
  ↔ ∀ r, r ∈ attendance_records d → member_id r ≠ memberId.
Proof.
  unfold select_last_scan. rewrite (first_by_None _). split.
  - intros E r Hr Hm. by eapply (filter_nil_not_elem_of _ _ r E).
  - intros H. apply elem_of_nil_inv. intros r [Hm Hr]%list_elem_of_filter.
    by apply (H r).
Qed.

Lemma select_last_scan_Some d memberId r :
  select_last_scan d memberId = Some r →
  r ∈ attendance_records d
  ∧ member_id r = memberId
  ∧ ∀ r', r' ∈ attendance_records d → member_id r' = memberId →
          scan_time r' <= scan_time r.
Proof.
  unfold select_last_scan. intros E.
  destruct (first_by_Some _ _ _ E) as [[Hm Hr]%list_elem_of_filter Hmax].
  split; [done|]. split; [done|].
  intros r' Hr' Hm'. apply (Hmax r'). by apply list_elem_of_filter.
Qed.


(** C5: three scans of Ann's barcode within one second, during the Monday
    session, Ann being checked in: the first is answered and recorded as
    a check-out and the second as a check-in, and the third is a check-in
    again, although Ann's most recent record is by then the check-in of
    the second scan: of Ann's two records of that second, the query of
    [getLastScanForMember] returns the older one, the check-out. *)
Theorem same_second_scans_check_in_twice :
  let now := Sample.monday_at 9 0 in
  let run1 := scan "A1" now (Sample.state_of Sample.ann_checked_in []) in
  let run2 := scan "A1" now run1.2 in
  let run3 := scan "A1" now run2.2 in
  let session := {| number := 1; startTime := "08:00"; endTime := "12:00" |} in
  run1.1 = json 200 (ScanBody Sample.ann "check-out" None false)
  ∧ run2.1 = json 200 (ScanBody Sample.ann "check-in" (Some session) false)
  ∧ most_recent_record (attendance_records (db run2.2)) 1
    = Some {| ar_id := 3; member_id := 1; scan_time := 1000;
              is_checkin := true; is_auto_logout := false;
              needs_review := false |}
  ∧ select_last_scan (db run2.2) 1
    = Some {| ar_id := 2; member_id := 1; scan_time := 1000;
              is_checkin := false; is_auto_logout := false;
              needs_review := false |}
  ∧ run3.1 = json 200 (ScanBody Sample.ann "check-in" (Some session) false)
  ∧ is_checkin <$> attendance_records (db run3.2) = [true; false; true; true].
Proof. repeat split; by vm_compute. Qed.

Lemma needsReview_of_minutes session now e :
  Time.minutes_of (end_time session) = Some e →
  needsReview_of true (Some session) now
  = (e - minute_of_day now <=? 5) && (0 <=? e - minute_of_day now).
Proof.
  intros (h & m & Hh & Hm & Et & ->)%TimeFacts.minutes_of_inv.
  unfold needsReview_of, minute_of_day. rewrite Et.
  by rewrite TimeFacts.split_hour_minute_hhmm by lia.
Qed.

(** C6: a check-in recorded inside a session is persisted with
    needs_review = true exactly when the session's end_time minus the time
    of the scan is between 0 and 5 minutes, both included: flagged 3
    minutes before the end and at the end itself, not flagged 10 minutes
    before. *)
Theorem checkin_flagged_near_session_end (st : State) (member : Member)
    (session : MeetingSchedule) (now : Date) (e : Z) :
  head (faults st) ≠ Some true →
  Time.minutes_of (end_time session) = Some e →
  let st' := (recordAttendanceWithSession member true (Some session)
                now st).2 in
  ∃ r, attendance_records (db st') = attendance_records (db st) ++ [r]
       ∧ member_id r = m_id member
       ∧ is_checkin r = true
       ∧ is_auto_logout r = false
       ∧ (needs_review r = true ↔ 0 <= e - minute_of_day now <= 5)
       ∧ (minute_of_day now = e - 3 → needs_review r = true)
       ∧ (minute_of_day now = e → needs_review r = true)
       ∧ (minute_of_day now = e - 10 → needs_review r = false).
Proof.
  intros Hf He st'.
  assert (needsReview_of true (Some session) now = true
          ↔ 0 <= e - minute_of_day now <= 5) as Hflag.
  { rewrite (needsReview_of_minutes _ _ _ He).
    rewrite andb_true_iff, !Z.leb_le. lia. }
  exists {| ar_id := attendance_seq (db st) + 1; member_id := m_id member;
            scan_time := clock st; is_checkin := true;
            is_auto_logout := false;
            needs_review := needsReview_of true (Some session) now |}.
  split.
  { unfold st'. destruct st as [d m c [|[] fs]]; done. }
  cbn [member_id is_checkin is_auto_logout needs_review].
  split; [done|]. split; [done|]. split; [done|]. split; [done|].
  split; [|split].
  - intros E. apply Hflag. lia.
  - intros E. apply Hflag. lia.
  - intros E. apply not_true_is_false. rewrite Hflag. lia.
Qed.

Lemma checkin_flagged_near_session_end_witness :
  ∃ r, attendance_records
         (db (recordAttendanceWithSession Sample.ann true
                (Some Sample.monday_morning) (Sample.monday_at 11 58)
                (Sample.state_of Sample.monday_only [])).2)
       = attendance_records (db (Sample.state_of Sample.monday_only []))
           ++ [r]
       ∧ needs_review r = true.
Proof.
  destruct (checkin_flagged_near_session_end
              (Sample.state_of Sample.monday_only []) Sample.ann
              Sample.monday_morning (Sample.monday_at 11 58) 720)
    as (r & Hr & _ & _ & _ & Hflag & _); [done | by vm_compute |].
  exists r. split; [exact Hr|]. apply Hflag. by vm_compute.
Defined.

(** C7: a scan classified as a check-in while no session is active leaves
    the store as it was, whatever storage faults occur, and when the
    store answers every query it is rejected with status 403 and the
    out-of-schedule body that carries the next session. *)
Theorem rejected_checkin_writes_nothing (st : State) (code : string)
    (now : Date) (member : Member) :
  code ≠ EmptyString →
  select_member_by_barcode (db st) code = Some member →
  isCheckin_of (select_last_scan (db st) (m_id member)) = true →
  select_within (db st) (getDay now) (currentTime now) = None →
  db (scan code now st).2 = db st
  ∧ (faults st = [] →
     (scan code now st).1 = out_of_schedule (nextSession (db st) now)
     ∧ status (scan code now st).1 = 403
     ∧ ∃ message,
         body (scan code now st).1
         = OutOfScheduleBody message
             ((λ next, {| day := dayName (day_of_week next);
                          next_startTime := start_time next;
                          next_endTime := end_time next |})
                <$> nextSession (db st) now)).
Proof.
  intros Hcode Hmember Hin Hnone.
  destruct st as [d m c fs]. cbn in Hmember, Hin, Hnone |- *.
  unfold scan. rewrite decide_False by done.
  unfold getMemberByBarcode, getLastScanForMember, isWithinMeetingSchedule,
    getNextMeetingSession, nextSession,
    storage_read, bind, next_fault, ret.
  split.
  - destruct fs as [|[] [|[] [|[] [|[] [|[] fs]]]]]; cbn;
      rewrite ?Hmember; cbn; rewrite ?Hin; cbn; rewrite ?Hnone; cbn;
      try done;
      destruct (select_today_session _ _ _); done.
  - intros ->. cbn. rewrite Hmember. cbn. rewrite Hin. cbn.
    rewrite Hnone. cbn.
    destruct (select_today_session _ _ _) as [t|]; cbn.
    + split; [done|]. split; [done|]. by eexists.
    + destruct (select_week_session _ _) as [t|]; cbn;
        (split; [done|]; split; [done|]; by eexists).
Qed.

Lemma rejected_checkin_writes_nothing_witness :
  db (scan "A1" (Sample.monday_at 12 5)
        (Sample.state_of Sample.monday_only [])).2
  = Sample.monday_only.
Proof.
  apply (rejected_checkin_writes_nothing
           (Sample.state_of Sample.monday_only []) "A1"
           (Sample.monday_at 12 5) Sample.ann);
    [discriminate | by vm_compute | by vm_compute | by vm_compute].
Defined.

End Classifier.

(** ** Currently checked-in members *)

Module CheckedInFacts.
Import Db Server SortFacts.

Global Instance more_recent_trans : Transitive more_recent.
Proof. intros a b c. unfold more_recent. lia. Qed.

Global Instance more_recent_total : Total more_recent.
Proof. intros a b. unfold more_recent. lia. Qed.

Lemma max_record_id_cons r recs k :
  max_record_id (r :: recs) k
  = if decide (member_id r = k)
    then Some (from_option (Z.max (ar_id r)) (ar_id r) (max_record_id recs k))
    else max_record_id recs k.
Proof. reflexivity. Qed.

(** [MAX(id)] is the id of a record of the member, and bounds the ids of
    the member's records. *)
Lemma max_record_id_Some recs k x :
  max_record_id recs k = Some x →
  (∃ r, r ∈ recs ∧ member_id r = k ∧ ar_id r = x)
  ∧ (∀ r, r ∈ recs → member_id r = k → ar_id r <= x).
Proof.
  revert x. induction recs as [|r recs IH]; intros x; [done|].
  rewrite max_record_id_cons. case_decide as Hk.
  - intros [= <-]. destruct (max_record_id recs k) as [y|] eqn:E; cbn.
    + destruct (IH y eq_refl) as [(r' & Hr' & Hm & Hid) Hle].
      split.
      * destruct (Z.max_spec (ar_id r) y) as [[_ ->]|[_ ->]].
        -- exists r'. split; [by right|done].
        -- exists r. split; [by left|done].
      * intros r0 [->|Hr0]%elem_of_cons Hm0; [lia|].
        specialize (Hle r0 Hr0 Hm0). lia.
    + split; [exists r; split; [by left|done]|].
      intros r0 [->|Hr0]%elem_of_cons Hm0; [lia|].
      exfalso. clear IH. induction recs as [|r1 recs IH']; [by apply elem_of_nil in Hr0|].
      rewrite max_record_id_cons in E. case_decide; [done|].
      apply elem_of_cons in Hr0 as [->|Hr0]; [done|]. by apply IH'.
  - intros E. destruct (IH x E) as [(r' & Hr' & Hm & Hid) Hle]. split.
    + exists r'. split; [by right|done].
    + intros r0 [->|Hr0]%elem_of_cons Hm0; [done|]. by apply Hle.
Qed.

Lemma max_record_id_is_Some recs k r :
  r ∈ recs → member_id r = k → is_Some (max_record_id recs k).
Proof.
  induction recs as [|r1 recs IH]; [by intros ?%elem_of_nil|].
  intros [->|Hr]%elem_of_cons Hm; rewrite max_record_id_cons.
  - rewrite decide_True by done. by eexists.
  - case_decide; [by eexists|]. by apply IH.
Qed.

Lemma max_record_id_greatest recs k r :
  r ∈ recs → member_id r = k →
  (∀ r', r' ∈ recs → member_id r' = k → ar_id r' <= ar_id r) →
  max_record_id recs k = Some (ar_id r).
Proof.
  intros Hr Hm Hmax.
  destruct (max_record_id_is_Some recs k r Hr Hm) as [x Hx].
  rewrite Hx. f_equal.
  destruct (max_record_id_Some _ _ _ Hx) as [(r' & Hr' & Hm' & <-) Hle].
  specialize (Hle r Hr Hm). specialize (Hmax r' Hr' Hm'). lia.
Qed.

(** The rows of the checked-in query. *)
Lemma select_checked_in_elem d row :
  row ∈ select_checked_in d
  ↔ ∃ m ar, m ∈ members d ∧ ar ∈ attendance_records d
            ∧ m_id m = member_id ar
            ∧ Some (ar_id ar) = max_record_id (attendance_records d) (m_id m)
            ∧ is_checkin ar = true
            ∧ row = {| id := m_id m; member_name := name m;
                       last_checkin := scan_time ar |}.
Proof.
  unfold select_checked_in.
  rewrite merge_sort_Permutation, elem_of_remove_dups, list_elem_of_bind.
  split.
  - intros (m & Hrow & Hm). apply list_elem_of_bind in Hrow as (ar & Hrow & Har).
    case_decide as Hc; [|by apply elem_of_nil in Hrow].
    apply list_elem_of_singleton in Hrow. exists m, ar. tauto.
  - intros (m & ar & Hm & Har & H1 & H2 & H3 & ->).
    exists m. split; [|done]. apply list_elem_of_bind. exists ar.
    split; [|done]. rewrite decide_True by done. by left.
Qed.

(** A member is in the answer exactly when the member's record of highest
    id is a check-in. *)
Lemma checked_in_by_highest_id d m :
  m ∈ members d →
  m_id m ∈ id <$> select_checked_in d
  ↔ ∃ ar, ar ∈ attendance_records d ∧ member_id ar = m_id m
          ∧ (∀ r, r ∈ attendance_records d → member_id r = m_id m →
                  ar_id r <= ar_id ar)
          ∧ is_checkin ar = true.
Proof.
  intros Hm. rewrite list_elem_of_fmap. split.
  - intros (row & Hid & (m' & ar & Hm' & Har & H1 & H2 & H3 & ->)%select_checked_in_elem).
    cbn in Hid. rewrite <- Hid in *.
    exists ar. split; [done|]. split; [done|]. split; [|done].
    symmetry in H2. apply max_record_id_Some in H2 as [_ Hle]. done.
  - intros (ar & Har & Hk & Hmax & Hin).
    exists {| id := m_id m; member_name := name m;
              last_checkin := scan_time ar |}.
    split; [done|]. apply select_checked_in_elem. exists m, ar.
    repeat split; try done.
    symmetry. by apply max_record_id_greatest.
Qed.

(** When ids follow insertion time, the most recent record of a member is
    the member's record of highest id. *)
Lemma most_recent_has_highest_id recs k r :
  ids_follow_time recs →
  most_recent_record recs k = Some r →
  r ∈ recs ∧ member_id r = k
  ∧ ∀ r', r' ∈ recs → member_id r' = k → ar_id r' <= ar_id r.
Proof.
  intros Ht E. unfold most_recent_record in E.
  destruct (first_by_Some _ _ _ E) as [[Hm Hr]%list_elem_of_filter Hmax].
  split; [done|]. split; [done|]. intros r' Hr' Hm'.
  assert (more_recent r r') as Hrec
    by (apply Hmax; by apply list_elem_of_filter).
  destruct (decide (ar_id r' <= ar_id r)) as [|Hgt]; [done|].
  specialize (Ht r r' Hr Hr' ltac:(lia)).
  unfold more_recent in Hrec. lia.
Qed.

Lemma most_recent_is_Some recs k r :
  r ∈ recs → member_id r = k → is_Some (most_recent_record recs k).
Proof.
  intros Hr Hm. unfold most_recent_record.
  apply (first_by_is_Some _ _ r). by apply list_elem_of_filter.
Qed.

Lemma getCurrentlyCheckedInMembers_ok st :
  faults st = [] →
  ∃ rows, getCurrentlyCheckedInMembers st = (Ok rows, st)
          ∧ ∀ row, row ∈ rows ↔ row ∈ select_checked_in (db st).
Proof.
  intros Hf. destruct st as [d m c fs]. cbn in Hf. subst fs.
  unfold getCurrentlyCheckedInMembers, storage_read, bind, next_fault, ret.
  cbn. case_decide as Hc.
  - exists []. split; [done|]. intros row. split; [by intros ?%elem_of_nil|].
    intros (m' & ar & _ & Har & _)%select_checked_in_elem.
    unfold count_attendance in Hc.
    destruct (attendance_records d); [by apply elem_of_nil in Har|done].
  - by eexists.
Qed.

(** Records inserted while the clock does not go back keep the ids in the
    order of the scan times, so the stores the server builds under such a
    clock meet the hypotheses of [checked_in_members_exact]. *)
Lemma insert_attendance_in_time d ts ts' memberId isCheckin isAuto review :
  appended_in_time d ts → ts <= ts' →
  appended_in_time
    (insert_attendance memberId isCheckin isAuto review ts' d) ts'.
Proof.
  intros (Hu & Ht & Hid & Hts) Hle. unfold appended_in_time. cbn.
  set (r := {| ar_id := attendance_seq d + 1; member_id := memberId;
               scan_time := ts'; is_checkin := isCheckin;
               is_auto_logout := isAuto; needs_review := review |}).
  assert (∀ a, a ∈ attendance_records d ++ [r]
               → (a ∈ attendance_records d ∧ ar_id a <= attendance_seq d
                  ∧ scan_time a <= ts)
                 ∨ a = r) as Hcases.
  { intros a [Ha|Ha%list_elem_of_singleton]%elem_of_app; [left|by right].
    split; [done|]. split; [by apply Hid|by apply Hts]. }
  split; [|split; [|split]].
  - intros a b [(Ha & Ha1 & _)| ->]%Hcases [(Hb & Hb1 & _)| ->]%Hcases E;
      cbn in E; [by apply Hu|lia|lia|done].
  - intros a b [(Ha & Ha1 & Ha2)| ->]%Hcases [(Hb & Hb1 & Hb2)| ->]%Hcases E;
      cbn in E |- *; [by apply Ht|lia|lia|lia].
  - intros a [(Ha & Ha1 & _)| ->]%Hcases; cbn; lia.
  - intros a [(Ha & _ & Ha2)| ->]%Hcases; cbn; lia.
Qed.

(** The claim of C3 fails on a store where a higher id carries an earlier
    scan_time: Ann's latest scan by time is her check-in, her record of
    highest id is a check-out, and the query leaves her out. *)
Lemma highest_id_is_not_latest_scan :
  ¬ checked_in_by_latest_scan Sample.clock_set_back.
Proof.
  intros H. specialize (H Sample.ann ltac:(by left)) as [_ H].
  assert (m_id Sample.ann ∈ id <$> select_checked_in Sample.clock_set_back)
    as Hin.
  { apply H. eexists. split; [by vm_compute|done]. }
  vm_compute in Hin. by apply elem_of_nil in Hin.
Qed.

(** C3 (amended): on a store whose records carry non-decreasing scan_time
    in the order of their ids (as records appended with the current time
    do), the members that [getCurrentlyCheckedInMembers] answers are
    exactly the members whose most recent record (latest scan_time, ties
    broken by the highest id) is a check-in; the answer is computed from
    the records at each call and the call changes nothing. *)
Theorem checked_in_members_exact (st : State) :
  unique_ids (attendance_records (db st)) →
  ids_follow_time (attendance_records (db st)) →
  faults st = [] →
  ∃ rows,
    getCurrentlyCheckedInMembers st = (Ok rows, st)
    ∧ (∀ m, m ∈ members (db st) →
            (m_id m ∈ id <$> rows ↔ spec_checked_in (db st) m))
    ∧ (∀ row, row ∈ rows → ∃ m, m ∈ members (db st) ∧ id row = m_id m).
Proof.
  intros Hu Ht Hf.
  destruct (getCurrentlyCheckedInMembers_ok st Hf) as (rows & Hrun & Hrows).
  exists rows. split; [done|]. split.
  - intros m Hm.
    assert (m_id m ∈ id <$> rows ↔ m_id m ∈ id <$> select_checked_in (db st))
      as ->.
    { rewrite !list_elem_of_fmap. by setoid_rewrite Hrows. }
    rewrite (checked_in_by_highest_id _ _ Hm). unfold spec_checked_in. split.
    + intros (ar & Har & Hk & Hmax & Hin).
      destruct (most_recent_is_Some _ _ _ Har Hk) as [r Hr].
      exists r. split; [done|].
      destruct (most_recent_has_highest_id _ _ _ Ht Hr) as (Hr1 & Hr2 & Hr3).
      assert (r = ar) as ->; [|done].
      apply Hu; [done..|].
      specialize (Hmax r Hr1 Hr2). specialize (Hr3 ar Har Hk). lia.
    + intros (r & Hr & Hin).
      destruct (most_recent_has_highest_id _ _ _ Ht Hr) as (Hr1 & Hr2 & Hr3).
      by exists r.
  - intros row (m & ar & Hm & _ & _ & _ & _ & ->)%Hrows%select_checked_in_elem.
    by exists m.
Qed.

Lemma checked_in_members_exact_witness :
  ∃ rows,
    getCurrentlyCheckedInMembers (Sample.state_of Sample.ann_checked_in [])
    = (Ok rows, Sample.state_of Sample.ann_checked_in [])
    ∧ (m_id Sample.ann ∈ id <$> rows
       ↔ spec_checked_in Sample.ann_checked_in Sample.ann).
Proof.
  destruct (checked_in_members_exact
              (Sample.state_of Sample.ann_checked_in []))
    as (rows & Hrun & Hiff & _).
  - intros a b Ha%list_elem_of_singleton Hb%list_elem_of_singleton _.
    congruence.
  - intros a b Ha%list_elem_of_singleton Hb%list_elem_of_singleton.
    subst. cbn. lia.
  - reflexivity.
  - exists rows. split; [exact Hrun|]. apply Hiff. by left.
Defined.

End CheckedInFacts.

(** ** The force-logout pass *)

Module ForceLogout.
Import Db Server.

Lemma write_outcomes_S n fs :
  write_outcomes (S n) fs
  = default false (head fs) :: write_outcomes n (tail fs).
Proof. by destruct fs. Qed.

Lemma failures_cons failed outcomes :
  failures (failed :: outcomes)
  = ((if failed then 1 else 0) + failures outcomes)%nat.
Proof.
  unfold failures. destruct failed.
  - by rewrite filter_cons_True.
  - by rewrite filter_cons_False.
Qed.

Lemma recordAutoLogout_failed memberId st :
  head (faults st) = Some true →
  recordAutoLogout memberId st = (Err, set_faults (tail (faults st)) st).
Proof. destruct st as [d m c [|[] fs]]; done. Qed.

Lemma recordAutoLogout_ok memberId st :
  head (faults st) ≠ Some true →
  recordAutoLogout memberId st
  = (Ok tt,
     set_db (insert_attendance memberId false true true (clock st) (db st))
            (set_faults (tail (faults st)) st)).
Proof. destruct st as [d m c [|[] fs]]; done. Qed.

(** The loop over the checked-in members: every member is processed, a
    record is appended for each member whose write succeeds, and the
    failed writes are counted. *)
Lemma logout_each_run ms :
  ∀ st processed errors,
    let outcomes := write_outcomes (length ms) (faults st) in
    let run := logout_each ms processed errors st in
    ∃ new,
      run.1 = ((processed + length ms)%nat,
               (errors + failures outcomes)%nat)
      ∧ attendance_records (db run.2) = attendance_records (db st) ++ new
      ∧ members (db run.2) = members (db st)
      ∧ meeting_schedules (db run.2) = meeting_schedules (db st)
      ∧ member_id <$> new = id <$> written ms outcomes
      ∧ Forall auto_logout_record new
      ∧ (length new + failures outcomes = length ms)%nat.
Proof.
  induction ms as [|m ms IH]; intros st processed errors outcomes run.
  - exists []. subst outcomes run. cbn. rewrite app_nil_r.
    repeat split; try done; f_equal; lia.
  - subst outcomes run. cbn [logout_each length]. unfold bind.
    rewrite write_outcomes_S.
    destruct (decide (head (faults st) = Some true)) as [Hfail|Hok].
    + rewrite recordAutoLogout_failed by done. rewrite Hfail.
      change (default false (Some true)) with true.
      destruct (IH (set_faults (tail (faults st)) st) (S processed)
                   (S errors))
        as (new & H1 & H2 & H3 & H4 & H5 & H6 & H7).
      cbn [faults db set_faults] in H1, H2, H3, H4, H5, H7.
      exists new. rewrite failures_cons. cbn [written].
      rewrite H1, H2, H3, H4, H5.
      repeat split; try done; try (f_equal; lia).
    + rewrite recordAutoLogout_ok by done.
      assert (default false (head (faults st)) = false) as ->.
      { destruct (faults st) as [|[] fs]; done. }
      set (r := {| ar_id := attendance_seq (db st) + 1; member_id := id m;
                   scan_time := clock st; is_checkin := false;
                   is_auto_logout := true; needs_review := true |}).
      destruct (IH (set_db (insert_attendance (id m) false true true
                              (clock st) (db st))
                      (set_faults (tail (faults st)) st))
                   (S processed) errors)
        as (new & H1 & H2 & H3 & H4 & H5 & H6 & H7).
      cbn [faults db set_faults set_db insert_attendance
           attendance_records members meeting_schedules]
        in H1, H2, H3, H4, H5, H7.
      exists (r :: new). rewrite failures_cons. cbn [written].
      rewrite H1, H2, H3, H4, <- app_assoc.
      rewrite !fmap_cons, H5. cbn [length].
      repeat split; try done; try (f_equal; lia).
      constructor; [done|exact H6].
Qed.

Lemma getCurrentlyCheckedInMembers_db st :
  db (getCurrentlyCheckedInMembers st).2 = db st.
Proof.
  destruct st as [d m c fs].
  unfold getCurrentlyCheckedInMembers, storage_read, bind, next_fault, ret.
  destruct fs as [|[] [|[] fs]]; cbn; try done; by case_decide.
Qed.

Lemma written_lookup ms :
  ∀ outcomes i m,
    ms !! i = Some m → outcomes !! i = Some false → m ∈ written ms outcomes.
Proof.
  induction ms as [|m0 ms IH]; intros outcomes i m Hm Ho; [done|].
  destruct outcomes as [|failed outcomes]; [done|].
  destruct i as [|i]; cbn in Hm, Ho.
  - injection Hm as ->. injection Ho as ->. by left.
  - cbn. destruct failed; [|right]; by eapply IH.
Qed.

(** C9: the force-logout pass first computes the checked-in members; with
    none it does nothing; otherwise it processes every one of them,
    appending for each member whose write succeeds a record with
    is_checkin = false, is_auto_logout = true and needs_review = true; a
    failed write is counted and the members after it are still written;
    the pass reports the numbers of successful and failed writes. *)
Theorem force_logout_pass (st : State) (ms : list CheckedIn) (st1 : State) :
  getCurrentlyCheckedInMembers st = (Ok ms, st1) →
  let outcomes := write_outcomes (length ms) (faults st1) in
  let run := performMeetingEndLogout st in
  (ms = [] → run = (NobodyCheckedIn, st1) ∧ db st1 = db st)
  ∧ (ms ≠ [] →
     ∃ new,
       attendance_records (db run.2) = attendance_records (db st) ++ new
       ∧ member_id <$> new = id <$> written ms outcomes
       ∧ Forall auto_logout_record new
       ∧ run.1 = Completed (length new) (failures outcomes)
       ∧ (length new + failures outcomes = length ms)%nat
       ∧ (∀ i m, ms !! i = Some m → outcomes !! i = Some false →
                 id m ∈ member_id <$> new)).
Proof.
  intros Hlookup outcomes run.
  assert (db st1 = db st) as Hdb.
  { pose proof (getCurrentlyCheckedInMembers_db st) as H.
    by rewrite Hlookup in H. }
  subst run. unfold performMeetingEndLogout, bind. rewrite Hlookup. split.
  - intros ->. by rewrite decide_True.
  - intros Hne. rewrite decide_False by (by destruct ms).
    destruct (logout_each_run ms st1 0%nat 0%nat)
      as (new & H1 & H2 & H3 & H4 & H5 & H6 & H7).
    fold outcomes in H1, H5, H7.
    destruct (logout_each ms 0 0 st1) as [counts st2] eqn:E.
    cbn in H1, H2 |- *. subst counts. cbn.
    exists new. rewrite H2, Hdb.
    split; [done|]. split; [done|]. split; [done|].
    split; [f_equal; lia|]. split; [done|].
    intros i m Hm Ho. rewrite H5. apply list_elem_of_fmap_2.
    by eapply written_lookup.
Qed.

Lemma force_logout_pass_witness :
  ∃ new,
    attendance_records
      (db (performMeetingEndLogout
             (Sample.state_of Sample.both_checked_in
                [false; false; true])).2)
    = attendance_records Sample.both_checked_in ++ new
    ∧ member_id <$> new = [1]
    ∧ Forall auto_logout_record new.
Proof.
  destruct (force_logout_pass
              (Sample.state_of Sample.both_checked_in [false; false; true])
              [{| id := 2; member_name := "Bob"; last_checkin := 950 |};
               {| id := 1; member_name := "Ann"; last_checkin := 900 |}]
              (Sample.state_of Sample.both_checked_in [true]))
    as [_ Hpass]; [by vm_compute|].
  destruct Hpass as (new & Hrecs & Hids & Hshape & _); [done|].
  exists new. split; [exact Hrecs|]. split; [exact Hids|exact Hshape].
Defined.

End ForceLogout.

(** ** Replacing the schedule list *)

Module Replace.
Import Db Server.

Lemma set_db_same st : set_db (db st) st = st.
Proof. by destruct st. Qed.

Lemma set_db_twice d d' st : set_db d (set_db d' st) = set_db d st.
Proof. reflexivity. Qed.

Lemma storage_write_ok q st :
  faults st = [] →
  storage_write q st = (Ok tt, set_db (q (clock st) (db st)) st).
Proof. destruct st as [d m c fs]. cbn. by intros ->. Qed.

Lemma storage_read_ok {A} (q : Database → A) st :
  faults st = [] → storage_read q st = (Ok (q (db st)), st).
Proof. destruct st as [d m c fs]. cbn. by intros ->. Qed.

(** With no fault, a [forEach] of writes runs them all and counts no
    error. *)
Lemma count_errors_ok {A} (op : A → Eff (Result unit))
    (f : A → Database → Database) (items : list A) :
  (∀ x st, faults st = [] → op x st = (Ok tt, set_db (f x (db st)) st)) →
  ∀ st errors,
    faults st = [] →
    count_errors op items errors st
    = (errors, set_db (foldl (λ d x, f x d) (db st) items) st).
Proof.
  intros Hop. induction items as [|x items IH]; intros st errors Hf.
  - cbn. by rewrite set_db_same.
  - cbn [count_errors foldl]. unfold bind. rewrite Hop by done.
    rewrite IH by done. by rewrite set_db_twice.
Qed.

Lemma upsert_rows k start stop label d row :
  row ∈ meeting_schedules
          (upsert_schedule k.1 k.2 start stop label d)
  ↔ (row ∈ meeting_schedules d ∧ schedule_key row ≠ k)
    ∨ row = {| ms_id := schedule_seq d + 1; day_of_week := k.1;
               session_number := k.2; start_time := start;
               end_time := stop; session_name := label;
               is_active := true |}.
Proof.
  destruct k as [a b]. cbn.
  rewrite elem_of_app, list_elem_of_filter, list_elem_of_singleton. tauto.
Qed.

(** After the upserts of a list, every key of the list is held by a row,
    and each row that holds it is active. *)
Lemma upserts_activate schedules :
  ∀ d x, x ∈ schedules →
    let d' := foldl (λ d x, upsert_input x d) d schedules in
    (∃ row, row ∈ meeting_schedules d' ∧ schedule_key row = input_key x)
    ∧ (∀ row, row ∈ meeting_schedules d' →
              schedule_key row = input_key x → is_active row = true).
Proof.
  induction schedules as [|y schedules IH] using rev_ind;
    intros d x Hx; [by apply elem_of_nil in Hx|].
  cbn zeta. rewrite foldl_snoc.
  set (d1 := foldl (λ d x, upsert_input x d) d schedules) in *.
  unfold upsert_input at 1 2.
  pose proof (λ row, upsert_rows (input_key y) (in_startTime y)
                (in_endTime y) (session_label (sessionName y) (sessionNumber y))
                d1 row) as Hrows.
  cbn [input_key fst snd] in Hrows.
  destruct (decide (input_key x = input_key y)) as [E|Hne].
  - split.
    + eexists. split; [apply Hrows; by right|]. by rewrite E.
    + intros row [[_ Hk]| ->]%Hrows Hkey; [|done].
      rewrite E in Hkey. done.
  - assert (x ∈ schedules) as Hin.
    { apply elem_of_app in Hx as [Hx|Hx]; [done|].
      apply list_elem_of_singleton in Hx. by subst. }
    destruct (IH d x Hin) as [(row & Hrow & Hkey) Hact]. split.
    + exists row. split; [|done]. apply Hrows. left. split; [done|].
      rewrite Hkey. done.
    + intros row' [[Hrow' _]| ->]%Hrows Hkey'; [by apply Hact|done].
Qed.

Lemma soft_delete_rows k d row' :
  row' ∈ meeting_schedules (soft_delete_schedule k.1 k.2 d)
  ↔ ∃ row, row ∈ meeting_schedules d
           ∧ row' = if decide (schedule_key row = k)
                    then deactivate row else row.
Proof.
  destruct k as [a b]. cbn. rewrite list_elem_of_fmap.
  split; [intros (row & -> & Hr)|intros (row & Hr & ->)]; by exists row.
Qed.

(** The rows after the soft deletes of a list of rows. *)
Lemma soft_deletes_rows dels :
  ∀ d row',
    row' ∈ meeting_schedules
             (foldl (λ d s, soft_delete_schedule (day_of_week s)
                              (session_number s) d) d dels)
    ↔ ∃ row, row ∈ meeting_schedules d
             ∧ row' = if decide (schedule_key row ∈ schedule_key <$> dels)
                      then deactivate row else row.
Proof.
  induction dels as [|s dels IH]; intros d row'; cbn [foldl].
  - split; [intros H; exists row'; split; [done|]|intros (row & H & ->)];
      rewrite decide_False; try done; cbn; by intros ?%elem_of_nil.
  - rewrite IH. setoid_rewrite (soft_delete_rows (schedule_key s)).
    rewrite fmap_cons. split.
    + intros (row1 & (row & Hrow & ->) & ->). exists row. split; [done|].
      destruct (decide (schedule_key row = schedule_key s)) as [E|E].
      * rewrite (decide_True (P := schedule_key row ∈ _ :: _))
          by (rewrite E; by left).
        by case_decide.
      * destruct (decide (schedule_key row ∈ schedule_key <$> dels)) as [I|I].
        -- by rewrite decide_True by by right.
        -- rewrite decide_False; [done|].
           intros [?|?]%elem_of_cons; done.
    + intros (row & Hrow & ->).
      exists (if decide (schedule_key row = schedule_key s)
              then deactivate row else row).
      split; [by exists row|].
      destruct (decide (schedule_key row = schedule_key s)) as [E|E].
      * rewrite (decide_True (P := schedule_key row ∈ _ :: _))
          by (rewrite E; by left).
        by case_decide.
      * destruct (decide (schedule_key row ∈ schedule_key <$> dels)) as [I|I].
        -- by rewrite decide_True by by right.
        -- rewrite decide_False; [done|].
           intros [?|?]%elem_of_cons; done.
Qed.

(** A row left by the upserts of a list either was there, under a key the
    list does not name, or is the active row written for an element of
    the list. *)
Lemma upserts_rows schedules :
  ∀ d row,
    row ∈ meeting_schedules (foldl (λ d x, upsert_input x d) d schedules) →
    (row ∈ meeting_schedules d ∧ schedule_key row ∉ input_key <$> schedules)
    ∨ (∃ x, x ∈ schedules ∧ is_active row = true
            ∧ schedule_key row = input_key x
            ∧ end_time row = in_endTime x).
Proof.
  induction schedules as [|x schedules IH] using rev_ind; intros d row.
  - cbn. intros H. left. split; [done|]. by intros ?%elem_of_nil.
  - rewrite foldl_snoc, fmap_app. unfold upsert_input at 1.
    intros [[Hrow Hk]| ->]%(upsert_rows (input_key x)).
    + destruct (IH d row Hrow) as [[Hd Hn]|(y & Hy & Hrest)].
      * left. split; [done|].
        intros [?|Hx%list_elem_of_singleton]%elem_of_app; done.
      * right. exists y. split; [|done]. apply elem_of_app. by left.
    + right. exists x. split; [|done]. apply elem_of_app. right. by left.
Qed.

(** The run of the route when no statement fails: it ends with a rearm
    on the store it has written. *)
Lemma put_no_fault st schedules :
  faults st = [] →
  ∃ message,
    putMeetingSchedules schedules st
    = (json 200 (SuccessBody message),
       (initializeMeetingScheduler (set_db (replaced schedules (db st)) st)).2).
Proof.
  intros Hf. unfold putMeetingSchedules, bind, getMeetingSchedules.
  rewrite storage_read_ok by done.
  case_decide as Htotal.
  - apply Nat.eq_add_0 in Htotal as [Hs Hd].
    apply length_zero_iff_nil in Hs, Hd. subst schedules.
    unfold replaced. cbn [fmap list_fmap] in Hd |- *. rewrite Hd. cbn [foldl].
    rewrite set_db_same.
    destruct (initializeMeetingScheduler st). by eexists.
  - rewrite (count_errors_ok _
               (λ s, soft_delete_schedule (day_of_week s) (session_number s)))
      by (done || (intros; by apply storage_write_ok)).
    rewrite (count_errors_ok _ upsert_input)
      by (done || (intros; by apply storage_write_ok)).
    rewrite decide_True by done. cbn [db set_db].
    rewrite set_db_twice. fold (replaced schedules (db st)).
    destruct (initializeMeetingScheduler _). by eexists.
Qed.

(** The sessions that are active afterwards are those written for the
    elements of the request. *)
Lemma replaced_active schedules d row :
  row ∈ meeting_schedules (replaced schedules d) →
  is_active row = true →
  ∃ x, x ∈ schedules ∧ schedule_key row = input_key x
       ∧ end_time row = in_endTime x.
Proof.
  intros Hrow Ha.
  destruct (upserts_rows schedules _ row Hrow) as [[H1 Hn]|(x & Hx & _ & Hk & He)];
    [|by exists x].
  exfalso. apply soft_deletes_rows in H1 as (row0 & H0 & ->).
  case_decide as Hdel; [done|]. apply Hdel.
  apply list_elem_of_fmap_2. apply list_elem_of_filter. split; [done|].
  by apply Scheduler.select_schedules_elem.
Qed.

(** A request for armable sessions leaves every active session armable. *)
Lemma replaced_armable schedules d row :
  Forall armable_input schedules →
  row ∈ meeting_schedules (replaced schedules d) →
  is_active row = true → armable row.
Proof.
  intros Hin Hrow Ha.
  destruct (replaced_active schedules d row Hrow Ha) as (x & Hx & Hk & He).
  rewrite Forall_forall in Hin. destruct (Hin x Hx) as [Hday Hend].
  injection Hk as Hd _. unfold armable. by rewrite Hd, He.
Qed.

(** C10: after a replaceSchedules call that the store carries out, every
    key (day_of_week, session_number) of the call is held by a stored
    session and each session that holds it has is_active = true, whatever
    the store held before (a soft-deleted session of that key included);
    and when the call asks for sessions with a weekday 0 to 6 and a time
    of day "HH:MM" as end_time, an auto-logout trigger is armed for the
    key. *)
Theorem replaceSchedules_reactivates (st : State)
    (schedules : list ScheduleInput) (x : ScheduleInput) :
  faults st = [] →
  x ∈ schedules →
  let run := putMeetingSchedules schedules st in
  status run.1 = 200
  ∧ (∃ row, row ∈ meeting_schedules (db run.2)
            ∧ schedule_key row = input_key x)
  ∧ (∀ row, row ∈ meeting_schedules (db run.2) →
            schedule_key row = input_key x → is_active row = true)
  ∧ (Forall armable_input schedules →
     is_Some (meetingSchedulers run.2 !! input_key x)).
Proof.
  intros Hf Hx run. subst run.
  destruct (put_no_fault st schedules Hf) as (message & ->).
  cbn [fst snd status json]. rewrite Scheduler.initialize_db. cbn [db set_db].
  destruct (upserts_activate schedules
              (foldl (λ d s, soft_delete_schedule (day_of_week s)
                               (session_number s) d)
                     (db st)
                     (filter (λ current, schedule_key current
                                         ∉ input_key <$> schedules)
                             (select_schedules (db st))))
              x Hx) as [(row & Hrow & Hkey) Hact].
  fold (replaced schedules (db st)) in Hrow, Hact.
  split; [done|]. split; [by exists row|]. split; [done|].
  intros Hin.
  rewrite Scheduler.initialize_read_ok;
    [|cbn; by rewrite Hf
     |cbn [db set_db]; intros s; by apply replaced_armable].
  cbn [snd meetingSchedulers db set_db].
  rewrite <- Hkey. apply Scheduler.with_triggers_is_Some.
  apply Scheduler.select_schedules_elem. split; [done|]. by apply Hact.
Qed.

Lemma replaceSchedules_reactivates_witness :
  (∀ row,
     row ∈ meeting_schedules
             (db (putMeetingSchedules [Sample.monday_again]
                    (Sample.state_of Sample.monday_deleted [])).2) →
     schedule_key row = (1, 1) → is_active row = true)
  ∧ is_Some (meetingSchedulers
               (putMeetingSchedules [Sample.monday_again]
                  (Sample.state_of Sample.monday_deleted [])).2 !! (1, 1)).
Proof.
  destruct (replaceSchedules_reactivates
              (Sample.state_of Sample.monday_deleted [])
              [Sample.monday_again] Sample.monday_again)
    as (_ & _ & Hact & Harmed); [reflexivity | by left |].
  split; [exact Hact|]. apply Harmed.
  apply Forall_singleton. split; [done | by eexists].
Defined.

End Replace.

(** ** The UNIQUE key of the schedule table is kept by its writes *)

Module Invariants.
Import Db Server.

Lemma upsert_schedule_unique dayOfWeek sessionNumber start stop label d :
  unique_keys (meeting_schedules d) →
  unique_keys
    (meeting_schedules
       (upsert_schedule dayOfWeek sessionNumber start stop label d)).
Proof.
  intros U a b
    [[Ha Hka]| ->]%(Replace.upsert_rows (dayOfWeek, sessionNumber))
    [[Hb Hkb]| ->]%(Replace.upsert_rows (dayOfWeek, sessionNumber)) E;
    [by apply U|by destruct Hka|by destruct Hkb|done].
Qed.

Lemma soft_delete_schedule_unique dayOfWeek sessionNumber d :
  unique_keys (meeting_schedules d) →
  unique_keys
    (meeting_schedules (soft_delete_schedule dayOfWeek sessionNumber d)).
Proof.
  intros U a b (a0 & -> & Ha)%list_elem_of_fmap (b0 & -> & Hb)%list_elem_of_fmap E.
  assert (a0 = b0) as ->; [|done].
  apply U; [done..|].
  repeat case_decide; exact E.
Qed.

End Invariants.

(** ** The scan route as a whole *)

Module ScanFacts.
Import Db Server.

(** The record a scan inserts for [member]. *)
Lemma scan_run st code now :
  let run := scan code now st in
  meetingSchedulers run.2 = meetingSchedulers st
  ∧ clock run.2 = clock st
  ∧ (status run.1 ≠ 200 → db run.2 = db st)
  ∧ (status run.1 = 200 →
     ∃ member,
       select_member_by_barcode (db st) code = Some member
       ∧ db run.2
         = insert_attendance (m_id member)
             (isCheckin_of (select_last_scan (db st) (m_id member))) false
             (needsReview_of
                (isCheckin_of (select_last_scan (db st) (m_id member)))
                (select_within (db st) (getDay now) (currentTime now)) now)
             (clock st) (db st)
       ∧ (isCheckin_of (select_last_scan (db st) (m_id member)) = true →
          is_Some (select_within (db st) (getDay now) (currentTime now)))).
Proof.
  destruct st as [d m c fs]. cbn [db clock meetingSchedulers].
  unfold scan. case_decide as Hcode; [by cbn|].
  unfold getMemberByBarcode, getLastScanForMember, isWithinMeetingSchedule,
    getNextMeetingSession, recordAttendanceWithSession, recordAttendance,
    storage_read, storage_write, bind, next_fault, ret.
  destruct fs as [|[] [|[] [|[] [|[] [|[] fs]]]]]; cbn;
    (destruct (select_member_by_barcode d code) as [member|] eqn:Em;
       cbn; [|by repeat split]);
    try (by repeat split);
    (destruct (isCheckin_of (select_last_scan d (m_id member))) eqn:Ei; cbn;
       [destruct (select_within d (getDay now) (currentTime now))
          as [s|] eqn:Ew; cbn;
        [|try destruct (select_today_session d (getDay now) (currentTime now));
          cbn; try destruct (select_week_session d (getDay now)); cbn]|]);
    repeat split; try done; intros _; exists member; by rewrite ?Ei.
Qed.

(** X1: a scan writes only when it answers 200: any other answer (400,
    404, 403, 500) leaves the whole store as it was; an accepted scan
    appends exactly one record, of the member that holds the barcode, with a
    fresh id, the instant of the clock and is_auto_logout = false, and
    touches neither members nor schedules nor the trigger table. *)
Theorem scan_writes_only_on_success (st : State) (code : string) (now : Date) :
  let run := scan code now st in
  meetingSchedulers run.2 = meetingSchedulers st
  ∧ members (db run.2) = members (db st)
  ∧ meeting_schedules (db run.2) = meeting_schedules (db st)
  ∧ (status run.1 ≠ 200 → db run.2 = db st)
  ∧ (status run.1 = 200 →
     ∃ member r,
       select_member_by_barcode (db st) code = Some member
       ∧ attendance_records (db run.2) = attendance_records (db st) ++ [r]
       ∧ member_id r = m_id member
       ∧ ar_id r = attendance_seq (db st) + 1
       ∧ scan_time r = clock st
       ∧ is_auto_logout r = false).
Proof.
  intros run. destruct (scan_run st code now) as (Hm & _ & Hfail & Hok).
  fold run in Hm, Hfail, Hok.
  destruct (decide (status run.1 = 200)) as [E|E].
  - destruct (Hok E) as (member & Hmem & Hdb & _). rewrite Hdb. cbn.
    repeat split; try done. intros _. exists member. by eexists.
  - rewrite (Hfail E). repeat split; try done.
Qed.

(** X2: directions alternate: when a scan of a member is accepted at an
    instant later than the member's earlier records, the member's next scan
    is classified the other way round (a check-in is followed by a
    check-out and a check-out by a check-in). *)
Theorem accepted_scans_alternate (st : State) (code : string) (now : Date)
    (member : Member) :
  select_member_by_barcode (db st) code = Some member →
  (∀ r, r ∈ attendance_records (db st) → member_id r = m_id member →
        scan_time r < clock st) →
  status (scan code now st).1 = 200 →
  isCheckin_of (select_last_scan (db (scan code now st).2) (m_id member))
  = negb (isCheckin_of (select_last_scan (db st) (m_id member))).
Proof.
  intros Hmem Hclock Hok.
  destruct (scan_run st code now) as (_ & _ & _ & Hacc).
  destruct (Hacc Hok) as (member' & Hmem' & Hdb & _).
  rewrite Hmem in Hmem'. injection Hmem' as <-. rewrite Hdb.
  set (dir := isCheckin_of (select_last_scan (db st) (m_id member))).
  match goal with |- context [insert_attendance _ _ _ ?f _ _] =>
    set (flag := f) end.
  destruct (select_last_scan
              (insert_attendance (m_id member) dir false flag (clock st)
                 (db st)) (m_id member)) as [last|] eqn:E.
  - apply Classifier.select_last_scan_Some in E as (Hin & Hlast & Hmax).
    cbn in Hin, Hmax.
    apply elem_of_app in Hin as [Hin|Hin%list_elem_of_singleton].
    + exfalso. specialize (Hclock last Hin Hlast).
      specialize (Hmax {| ar_id := attendance_seq (db st) + 1;
                          member_id := m_id member; scan_time := clock st;
                          is_checkin := dir; is_auto_logout := false;
                          needs_review := flag |}).
      cbn in Hmax. specialize (Hmax ltac:(apply elem_of_app; right; by left)
                                    eq_refl). lia.
    + by subst last.
  - exfalso.
    pose proof (proj1 (Classifier.select_last_scan_None _ _) E) as Hnone.
    eapply (Hnone {| ar_id := attendance_seq (db st) + 1;
                     member_id := m_id member; scan_time := clock st;
                     is_checkin := dir; is_auto_logout := false;
                     needs_review := flag |}); [|done].
    cbn. apply elem_of_app. right. by left.
Qed.

Lemma accepted_scans_alternate_witness :
  isCheckin_of
    (select_last_scan
       (db (scan "A1" (Sample.monday_at 11 0)
              (Sample.state_of Sample.ann_checked_in [])).2) 1)
  = negb (isCheckin_of (select_last_scan Sample.ann_checked_in 1)).
Proof.
  apply (accepted_scans_alternate (Sample.state_of Sample.ann_checked_in [])
           "A1" (Sample.monday_at 11 0) Sample.ann).
  - by vm_compute.
  - intros r Hr%list_elem_of_singleton _. subst r. by vm_compute.
  - by vm_compute.
Defined.

(** X3: on a table of well-formed times and with the store answering, the
    scan of a member who is due to check in is accepted (200) exactly when
    now falls in some active session of the table, and is answered 403
    otherwise. *)
Theorem checkin_accepted_iff_in_session (st : State) (code : string)
    (now : Date) (member : Member) :
  faults st = [] →
  code ≠ EmptyString →
  select_member_by_barcode (db st) code = Some member →
  isCheckin_of (select_last_scan (db st) (m_id member)) = true →
  Forall well_formed_schedule (meeting_schedules (db st)) →
  (status (scan code now st).1 = 200
   ↔ ∃ s, s ∈ meeting_schedules (db st) ∧ in_session s now)
  ∧ (status (scan code now st).1 = 403
     ↔ ∀ s, s ∈ meeting_schedules (db st) → ¬ in_session s now).
Proof.
  intros Hf Hcode Hmem Hdir Hwf. rewrite Forall_forall in Hwf.
  assert (∀ s, s ∈ meeting_schedules (db st) →
               (day_of_week s = getDay now ∧ is_active s = true
                ∧ Time.text_le (start_time s) (currentTime now) = true
                ∧ Time.text_le (currentTime now) (end_time s) = true)
               ↔ in_session s now) as Hclause.
  { intros s Hs. by apply Evaluator.within_clause, Hwf. }
  destruct st as [d m c fs]. cbn in Hf, Hmem, Hdir, Hwf, Hclause |- *.
  subst fs. unfold scan. rewrite decide_False by done.
  unfold getMemberByBarcode, getLastScanForMember, isWithinMeetingSchedule,
    getNextMeetingSession, recordAttendanceWithSession, recordAttendance,
    storage_read, storage_write, bind, next_fault, ret. cbn.
  rewrite Hmem. cbn. rewrite Hdir. cbn.
  destruct (select_within d (getDay now) (currentTime now)) as [s|] eqn:Ew; cbn.
  - apply Evaluator.select_within_Some in Ew as (Hs & Hin).
    apply Hclause in Hin; [|done]. split.
    + split; [|done]. intros _. by exists s.
    + split; [done|]. intros H. by destruct (H s Hs).
  - pose proof (proj1 (Evaluator.select_within_None _ _ _) Ew) as Hnone.
    assert (∀ s, s ∈ meeting_schedules d → ¬ in_session s now) as Hout.
    { intros s Hs Hin. apply (Hnone s Hs). by apply Hclause. }
    destruct (select_today_session d (getDay now) (currentTime now)); cbn;
      [|destruct (select_week_session d (getDay now)); cbn];
      (split; [split; [done|]; intros (s & Hs & Hin); by destruct (Hout s Hs)
              |done]).
Qed.

Lemma checkin_accepted_iff_in_session_witness :
  status (scan "B2" (Sample.monday_at 9 30)
            (Sample.state_of Sample.ann_checked_in [])).1 = 200
  ↔ ∃ s, s ∈ meeting_schedules Sample.ann_checked_in
         ∧ in_session s (Sample.monday_at 9 30).
Proof.
  apply (checkin_accepted_iff_in_session
           (Sample.state_of Sample.ann_checked_in []) "B2"
           (Sample.monday_at 9 30) Sample.bob);
    [reflexivity | discriminate | by vm_compute | by vm_compute |].
  apply Forall_singleton. split; by eexists.
Defined.

(** X4: records appended by scans keep the ids in the order of the scan
    times as long as the clock is not set back, so the store a run of scans
    builds meets the hypotheses under which the checked-in query agrees
    with the latest scan. *)
Theorem scan_keeps_ids_in_time (st : State) (code : string) (now : Date)
    (ts : Z) :
  appended_in_time (db st) ts →
  ts <= clock st →
  appended_in_time (db (scan code now st).2) (clock st).
Proof.
  intros Hinv Hle.
  destruct (scan_run st code now) as (_ & _ & Hfail & Hok).
  destruct (decide (status (scan code now st).1 = 200)) as [E|E].
  - destruct (Hok E) as (member & _ & -> & _).
    by eapply CheckedInFacts.insert_attendance_in_time.
  - rewrite (Hfail E). destruct Hinv as (H1 & H2 & H3 & H4).
    repeat split; try done. intros r Hr. specialize (H4 r Hr). lia.
Qed.

Lemma scan_keeps_ids_in_time_witness :
  appended_in_time
    (db (scan "A1" (Sample.monday_at 11 0)
           (Sample.state_of Sample.ann_checked_in [])).2) 1000.
Proof.
  apply (scan_keeps_ids_in_time (Sample.state_of Sample.ann_checked_in [])
           "A1" (Sample.monday_at 11 0) 900); [|by vm_compute].
  repeat split.
  - intros a b Ha%list_elem_of_singleton Hb%list_elem_of_singleton _.
    congruence.
  - intros a b Ha%list_elem_of_singleton Hb%list_elem_of_singleton.
    subst. cbn. lia.
  - intros r Hr%list_elem_of_singleton. subst. by vm_compute.
  - intros r Hr%list_elem_of_singleton. subst. by vm_compute.
Defined.

End ScanFacts.

(** ** More on the schedule evaluator *)

Module EvaluatorMore.
Import Db Server Store Routes.

Lemma later_today_minutes d now s :
  Forall well_formed_schedule (meeting_schedules d) →
  later_today d now s
  ↔ s ∈ meeting_schedules d
    ∧ day_of_week s = getDay now
    ∧ is_active s = true
    ∧ minute_of_day now < Time.minutes (start_time s).
Proof.
  intros Hwf. rewrite Forall_forall in Hwf. unfold later_today.
  split; intros (Hs & Hd & Ha & Ht); (split; [done|]; split; [done|];
                                       split; [done|]);
    destruct (Hwf s Hs) as [Hstart _];
    rewrite (TimeFacts.text_lt_minutes _ _ _ _
               (Evaluator.currentTime_minutes now)
               (Evaluator.minutes_well_formed _ Hstart)) in *;
    by apply Z.ltb_lt.
Qed.

(** X5: when the active sessions of a weekday do not overlap, the session
    that covers now is the one [isWithinMeetingSchedule] returns. *)
Theorem covering_session_is_returned (d : Database) (now : Date)
    (s : MeetingSchedule) :
  Forall well_formed_schedule (meeting_schedules d) →
  non_overlapping (meeting_schedules d) →
  s ∈ meeting_schedules d →
  in_session s now →
  select_within d (getDay now) (currentTime now) = Some s.
Proof.
  intros Hwf Hno Hs Hin. pose proof Hwf as Hwf'.
  rewrite Forall_forall in Hwf'.
  destruct (select_within d (getDay now) (currentTime now)) as [s'|] eqn:E.
  - apply Evaluator.select_within_Some in E as (Hs' & Hin').
    apply Evaluator.within_clause in Hin'; [|by apply Hwf'].
    destruct (decide (s' = s)) as [->|Hne]; [done|]. exfalso.
    destruct Hin as (Hd & Ha & Ht), Hin' as (Hd' & Ha' & Ht').
    destruct (Hno s' s Hs' Hs Ha' Ha ltac:(congruence) Hne); lia.
  - exfalso.
    pose proof (proj1 (Evaluator.select_within_None _ _ _) E s Hs) as Hnone.
    apply Hnone. by apply Evaluator.within_clause; [apply Hwf'|].
Qed.

Lemma covering_session_is_returned_witness :
  select_within Sample.monday_only (getDay (Sample.monday_at 9 0))
    (currentTime (Sample.monday_at 9 0)) = Some Sample.monday_morning.
Proof.
  apply (covering_session_is_returned Sample.monday_only
           (Sample.monday_at 9 0) Sample.monday_morning).
  - apply Forall_singleton. split; by eexists.
  - intros a b Ha%list_elem_of_singleton Hb%list_elem_of_singleton.
    congruence.
  - by left.
  - by vm_compute.
Defined.

(** X6: when an active session of today starts after now,
    [getNextMeetingSession] returns a session of today that starts after
    now and no later than any other such session. *)
Theorem next_session_is_earliest_later_today (d : Database) (now : Date)
    (s : MeetingSchedule) :
  Forall well_formed_schedule (meeting_schedules d) →
  s ∈ meeting_schedules d →
  day_of_week s = getDay now →
  is_active s = true →
  minute_of_day now < Time.minutes (start_time s) →
  ∃ r, nextSession d now = Some r
       ∧ r ∈ meeting_schedules d
       ∧ day_of_week r = getDay now
       ∧ is_active r = true
       ∧ minute_of_day now < Time.minutes (start_time r)
       ∧ ∀ s', s' ∈ meeting_schedules d →
               day_of_week s' = getDay now →
               is_active s' = true →
               minute_of_day now < Time.minutes (start_time s') →
               Time.minutes (start_time r) <= Time.minutes (start_time s').
Proof.
  intros Hwf Hs Hd Ha Ht. pose proof Hwf as Hwf'.
  rewrite Forall_forall in Hwf'.
  destruct (Evaluator.nextSession_today d now s) as (r & Hr & Hlater & Hmin).
  { by apply later_today_minutes. }
  exists r. split; [done|].
  pose proof (proj1 (later_today_minutes d now r Hwf) Hlater)
    as (Hr1 & Hr2 & Hr3 & Hr4).
  repeat split; try done.
  intros s' Hs' Hd' Ha' Ht'.
  assert (later_today d now s') as Hl by by apply later_today_minutes.
  specialize (Hmin s' Hl).
  destruct (Hwf' r Hr1) as [Hwr _], (Hwf' s' Hs') as [Hws _].
  rewrite (TimeFacts.text_le_minutes _ _ _ _
             (Evaluator.minutes_well_formed _ Hwr)
             (Evaluator.minutes_well_formed _ Hws)) in Hmin.
  by apply Z.leb_le.
Qed.

Lemma next_session_is_earliest_later_today_witness :
  ∃ r, nextSession Sample.monday_only (Sample.monday_at 7 0) = Some r
       ∧ minute_of_day (Sample.monday_at 7 0) < Time.minutes (start_time r).
Proof.
  destruct (next_session_is_earliest_later_today Sample.monday_only
              (Sample.monday_at 7 0) Sample.monday_morning)
    as (r & Hr & _ & _ & _ & Hlt & _).
  - apply Forall_singleton. split; by eexists.
  - by left.
  - by vm_compute.
  - done.
  - by vm_compute.
  - exists r. split; [exact Hr | exact Hlt].
Defined.

(** X7: when no active session of today starts after now and some active
    session lies on another weekday (0 to 6), [getNextMeetingSession]
    returns a session of another weekday, one to six days ahead, that
    comes first by the number of days ahead and then by session_number. *)
Theorem next_session_is_soonest_other_day (d : Database) (now : Date)
    (s : MeetingSchedule) :
  Forall well_formed_schedule (meeting_schedules d) →
  (∀ s', s' ∈ meeting_schedules d → day_of_week s' = getDay now →
         is_active s' = true →
         Time.minutes (start_time s') <= minute_of_day now) →
  s ∈ meeting_schedules d →
  is_active s = true →
  0 <= day_of_week s <= 6 →
  day_of_week s ≠ getDay now →
  ∃ r, nextSession d now = Some r
       ∧ r ∈ meeting_schedules d
       ∧ is_active r = true
       ∧ 1 <= day_distance now r <= 6
       ∧ ∀ s', s' ∈ meeting_schedules d → is_active s' = true →
               0 <= day_of_week s' <= 6 → day_of_week s' ≠ getDay now →
               day_distance now r < day_distance now s'
               ∨ (day_distance now r = day_distance now s'
                  ∧ session_number r <= session_number s').
Proof.
  intros Hwf Hnone Hs Ha Hr Hne.
  destruct (Evaluator.nextSession_week d now s) as (r & Hnext & Hother & Hmin).
  { intros s' (Hs' & Hd' & Ha' & Ht')%later_today_minutes; [|done].
    specialize (Hnone s' Hs' Hd' Ha'). lia. }
  { done. }
  exists r. split; [done|]. destruct Hother as (Hr1 & Hr2 & Hr3 & Hr4).
  split; [done|]. split; [done|]. split.
  - unfold day_distance. pose proof (Evaluator.getDay_range now).
    pose proof (Z.mod_pos_bound (day_of_week r - getDay now) 7 ltac:(lia)).
    assert ((day_of_week r - getDay now) mod 7 ≠ 0); [|lia].
    intros E. apply Z.mod_divide in E as [k Hk]; lia.
  - intros s' Hs' Ha' Hr' Hne'. by apply Hmin.
Qed.

Lemma next_session_is_soonest_other_day_witness :
  ∃ r, nextSession Sample.monday_only
         {| local_minutes := 2 * 1440 + 600 |} = Some r
       ∧ 1 <= day_distance {| local_minutes := 2 * 1440 + 600 |} r <= 6.
Proof.
  destruct (next_session_is_soonest_other_day Sample.monday_only
              {| local_minutes := 2 * 1440 + 600 |} Sample.monday_morning)
    as (r & Hr & _ & _ & Hdist & _).
  - apply Forall_singleton. split; by eexists.
  - intros s' Hs'%list_elem_of_singleton. subst s'. by vm_compute.
  - by left.
  - done.
  - by vm_compute.
  - by vm_compute.
  - exists r. split; [exact Hr | exact Hdist].
Defined.

(** X8: GET /api/meeting-schedules/current, the store answering and the
    times well formed: it reports active, with a session that covers now,
    when one does, and otherwise inactive with the answer of
    [getNextMeetingSession]; it changes nothing. *)
Theorem meeting_status_reports (st : State) (now : Date) :
  faults st = [] →
  Forall well_formed_schedule (meeting_schedules (db st)) →
  (meetingStatus now st).2 = st
  ∧ match (meetingStatus now st).1 with
    | (200, StatusActive s) =>
        s ∈ meeting_schedules (db st) ∧ in_session s now
    | (200, StatusInactive next) =>
        (∀ s, s ∈ meeting_schedules (db st) → ¬ in_session s now)
        ∧ next = nextSession (db st) now
    | _ => False
    end.
Proof.
  intros Hf Hwf. rewrite Forall_forall in Hwf.
  destruct st as [d m c fs]. cbn in Hf, Hwf |- *. subst fs.
  unfold meetingStatus, isWithinMeetingSchedule, getNextMeetingSession,
    nextSession, storage_read, bind, next_fault, ret. cbn.
  destruct (select_within d (getDay now) (currentTime now)) as [s|] eqn:E; cbn.
  - split; [done|].
    apply Evaluator.select_within_Some in E as (Hs & Hin). split; [done|].
    by apply Evaluator.within_clause; [apply Hwf|].
  - pose proof (proj1 (Evaluator.select_within_None _ _ _) E) as Hnone.
    assert (∀ s, s ∈ meeting_schedules d → ¬ in_session s now) as Hout.
    { intros s Hs Hin. apply (Hnone s Hs).
      by apply Evaluator.within_clause; [apply Hwf|]. }
    destruct (select_today_session d (getDay now) (currentTime now)); cbn;
      by split.
Qed.

Lemma meeting_status_reports_witness :
  (meetingStatus (Sample.monday_at 9 0)
     (Sample.state_of Sample.monday_only [])).2
  = Sample.state_of Sample.monday_only [].
Proof.
  destruct (meeting_status_reports (Sample.state_of Sample.monday_only [])
              (Sample.monday_at 9 0)) as [Hsame _].
  - reflexivity.
  - apply Forall_singleton. split; by eexists.
  - exact Hsame.
Defined.

End EvaluatorMore.

(** ** More on the auto-logout triggers *)

Module SchedulerMore.
Import Db Server Store Routes.

(** X9: the trigger of a session with a well-formed end_time is a valid
    time of day; it is the end_time plus 15 minutes when the session ends
    before 23:45, and otherwise it wraps to the first quarter of an hour of
    the session's own weekday, a time of day before the session's end. *)
Theorem trigger_time_of_day (s : MeetingSchedule) (e : Z) :
  Time.minutes_of (end_time s) = Some e →
  ∃ mi h,
    logout_trigger s
    = {| cron_minute := Some mi; cron_hour := Some h;
         cron_day := day_of_week s |}
    ∧ 0 <= mi < 60 ∧ 0 <= h < 24
    ∧ (e < 1425 → h * 60 + mi = e + 15)
    ∧ (1425 <= e → h * 60 + mi = e + 15 - 1440 ∧ h * 60 + mi < 15).
Proof.
  intros He. rewrite (Scheduler.logout_trigger_well_formed s e He).
  apply TimeFacts.minutes_of_inv in He as (h0 & m0 & Hh & Hm & _ & ->).
  eexists _, _. split; [reflexivity|].
  split; [|split; [|split]]; Z.div_mod_to_equations; lia.
Qed.

Lemma trigger_time_of_day_witness :
  ∃ mi h,
    logout_trigger Sample.monday_late
    = {| cron_minute := Some mi; cron_hour := Some h; cron_day := 1 |}
    ∧ h * 60 + mi < 15.
Proof.
  destruct (trigger_time_of_day Sample.monday_late 1430)
    as (mi & h & Ht & _ & _ & _ & Hwrap); [by vm_compute|].
  exists mi, h. split; [exact Ht|]. apply Hwrap. lia.
Defined.

Lemma deleteScheduleRoute_ok st d n :
  head (faults st) ≠ Some true →
  deleteScheduleRoute (Some d) (Some n) st
  = (json 200 (SuccessBody "Session deleted and auto-logout removed"),
     {| db := soft_delete_schedule d n (db st);
        meetingSchedulers := delete (d, n) (meetingSchedulers st);
        clock := clock st; faults := tail (faults st) |}).
Proof. intros Hf. destruct st as [d0 m c [|[] fs]]; done. Qed.

(** X10: DELETE /api/meeting-schedules/:day/:session, when the store
    carries out the update: the session of that key is inactive
    afterwards, its trigger is removed and no other trigger is touched;
    and if the triggers matched the active sessions before, they still do,
    without a rearm. *)
Theorem delete_route_cancels_one_trigger (st : State) (d n : Z) :
  head (faults st) ≠ Some true →
  let run := deleteScheduleRoute (Some d) (Some n) st in
  status run.1 = 200
  ∧ meetingSchedulers run.2 !! (d, n) = None
  ∧ (∀ k, k ≠ (d, n) →
          meetingSchedulers run.2 !! k = meetingSchedulers st !! k)
  ∧ (∀ row, row ∈ meeting_schedules (db run.2) →
            schedule_key row = (d, n) → is_active row = false)
  ∧ (unique_keys (meeting_schedules (db st)) →
     triggers_match_store st → triggers_match_store run.2).
Proof.
  intros Hf run. subst run. rewrite deleteScheduleRoute_ok by done.
  cbn [fst snd status json db meetingSchedulers].
  split; [done|]. split; [apply lookup_delete_eq|].
  split; [intros k Hk; by apply lookup_delete_ne|]. split.
  - intros row' (row & Hrow & ->)%(Replace.soft_delete_rows (d, n)) Hkey.
    case_decide as Hk; [done|]. by destruct Hk.
  - intros U Hmatch. unfold triggers_match_store in *.
    cbn [db meetingSchedulers]. rewrite Hmatch.
    apply map_eq. intros k. apply option_eq. intros t.
    rewrite Scheduler.with_triggers_lookup
      by by apply Scheduler.select_schedules_unique,
               Invariants.soft_delete_schedule_unique.
    destruct (decide (k = (d, n))) as [->|Hk].
    + rewrite lookup_delete_eq. split; [done|].
      intros (s & [Hs Ha]%Scheduler.select_schedules_elem & Hkey & _).
      apply (Replace.soft_delete_rows (d, n)) in Hs as (row & Hrow & ->).
      case_decide as Hd; [done|]. by destruct Hd.
    + rewrite lookup_delete_ne by done.
      rewrite Scheduler.with_triggers_lookup
        by by apply Scheduler.select_schedules_unique.
      split.
      * intros (s & [Hs Ha]%Scheduler.select_schedules_elem & Hkey & ->).
        exists s. split; [|done]. apply Scheduler.select_schedules_elem.
        split; [|done]. apply (Replace.soft_delete_rows (d, n)). exists s.
        split; [done|]. rewrite decide_False; [done|congruence].
      * intros (s & [Hs Ha]%Scheduler.select_schedules_elem & Hkey & ->).
        apply (Replace.soft_delete_rows (d, n)) in Hs as (row & Hrow & ->).
        case_decide as Hd; [done|].
        exists row. split; [|done]. by apply Scheduler.select_schedules_elem.
Qed.

Lemma delete_route_cancels_one_trigger_witness :
  meetingSchedulers
    (deleteScheduleRoute (Some 1) (Some 1)
       (set_faults [] Sample.armed_then_failing)).2 !! (1, 1) = None.
Proof.
  apply (delete_route_cancels_one_trigger
           (set_faults [] Sample.armed_then_failing) 1 1).
  done.
Defined.

(** X11: DELETE /api/meeting-schedules/:day/:session when the update fails,
    or when a parameter is not a number: a failed update is answered 500
    and leaves store and triggers as they were; a parameter that is NaN
    matches no row, so store and triggers are kept and the answer is
    still a success. *)
Theorem delete_route_without_effect (st : State)
    (dayOfWeek sessionNumber : Time.JsNum) :
  let run := deleteScheduleRoute dayOfWeek sessionNumber st in
  (head (faults st) = Some true →
   status run.1 = 500 ∧ db run.2 = db st
   ∧ meetingSchedulers run.2 = meetingSchedulers st)
  ∧ (dayOfWeek = None ∨ sessionNumber = None →
     db run.2 = db st ∧ meetingSchedulers run.2 = meetingSchedulers st
     ∧ (head (faults st) ≠ Some true → status run.1 = 200)).
Proof.
  destruct st as [d m c fs]. cbn [faults db meetingSchedulers].
  split.
  - intros Hf. destruct fs as [|[] fs]; try done.
    by destruct dayOfWeek, sessionNumber.
  - intros Hnan.
    destruct dayOfWeek, sessionNumber; try (by destruct Hnan);
      destruct fs as [|[] fs]; done.
Qed.

End SchedulerMore.

(** ** More on the force-logout pass *)

Module ForceLogoutMore.
Import Db Server Store.

(** The store after the auto-logout of each member of a list, no write
    failing. *)
Lemma auto_logouts_records ts ms :
  ∀ d,
    let d' := foldl (λ d m, insert_attendance (id m) false true true ts d)
                    d ms in
    members d' = members d
    ∧ meeting_schedules d' = meeting_schedules d
    ∧ ∀ r, r ∈ attendance_records d'
           ↔ r ∈ attendance_records d
             ∨ ∃ i m, ms !! i = Some m
                      ∧ r = {| ar_id := attendance_seq d + 1 + Z.of_nat i;
                               member_id := id m; scan_time := ts;
                               is_checkin := false; is_auto_logout := true;
                               needs_review := true |}.
Proof.
  induction ms as [|m ms IH]; intros d; cbn [foldl].
  - repeat split; try done; [by left|].
    intros [H|(i & m & Hm & _)]; done.
  - destruct (IH (insert_attendance (id m) false true true ts d))
      as (H1 & H2 & H3).
    cbn [insert_attendance members meeting_schedules attendance_records
         attendance_seq] in H1, H2, H3.
    split; [done|]. split; [done|]. intros r. rewrite H3.
    rewrite elem_of_app, list_elem_of_singleton. split.
    + intros [[Hr| ->]|(i & m' & Hm' & ->)].
      * by left.
      * right. exists 0%nat, m. split; [done|]. f_equal. lia.
      * right. exists (S i), m'. split; [done|]. f_equal. lia.
    + intros [Hr|([|i] & m' & Hm' & ->)].
      * by left; left.
      * left; right. cbn in Hm'. injection Hm' as <-. f_equal. lia.
      * right. exists i, m'. split; [done|]. f_equal. lia.
Qed.

Lemma logout_each_no_fault ms :
  ∀ st processed errors,
    faults st = [] →
    logout_each ms processed errors st
    = (((processed + length ms)%nat, errors),
       set_db (foldl (λ d m, insert_attendance (id m) false true true
                               (clock st) d)
                     (db st) ms) st).
Proof.
  induction ms as [|m ms IH]; intros st processed errors Hf.
  - cbn. rewrite Replace.set_db_same. do 2 f_equal. lia.
  - cbn [logout_each foldl length]. unfold bind.
    rewrite ForceLogout.recordAutoLogout_ok by by rewrite Hf.
    rewrite Hf. cbn [tail]. rewrite IH by done.
    cbn [db clock set_db set_faults]. f_equal; [f_equal; lia|].
    destruct st as [d sch c fs]. cbn in Hf |- *. by subst fs.
Qed.

Lemma perform_no_fault st :
  faults st = [] →
  ∃ rows,
    (∀ row, row ∈ rows ↔ row ∈ select_checked_in (db st))
    ∧ performMeetingEndLogout st
      = (if decide (length rows = 0%nat) then NobodyCheckedIn
         else Completed (length rows) 0,
         set_db (foldl (λ d m, insert_attendance (id m) false true true
                                 (clock st) d)
                       (db st) rows) st).
Proof.
  intros Hf.
  destruct (CheckedInFacts.getCurrentlyCheckedInMembers_ok st Hf)
    as (rows & Hrun & Hrows).
  exists rows. split; [done|].
  unfold performMeetingEndLogout, bind. rewrite Hrun.
  case_decide as Hlen.
  - destruct rows; [|done]. cbn. by rewrite Replace.set_db_same.
  - rewrite logout_each_no_fault by done. cbn. do 2 f_equal. lia.
Qed.

(** No member is checked in once each checked-in member got a fresh
    check-out record. *)
Lemma nobody_checked_in_after d ts rows :
  (∀ r, r ∈ attendance_records d → ar_id r <= attendance_seq d) →
  (∀ row, row ∈ rows ↔ row ∈ select_checked_in d) →
  select_checked_in
    (foldl (λ d m, insert_attendance (id m) false true true ts d) d rows)
  = [].
Proof.
  intros Hbound Hrows. apply elem_of_nil_inv. intros row Hrow.
  destruct (auto_logouts_records ts rows d) as (Hm & _ & Hrecs).
  apply CheckedInFacts.select_checked_in_elem in Hrow
    as (m & ar & Hmem & Har & Hjoin & Hmax & Hin & _).
  rewrite Hm in Hmem. symmetry in Hmax.
  apply CheckedInFacts.max_record_id_Some in Hmax as [_ Hle].
  apply Hrecs in Har as [Har|(i & m' & _ & ->)]; [|done].
  assert ({| id := m_id m; member_name := name m;
             last_checkin := scan_time ar |} ∈ rows) as Hold.
  { apply Hrows, CheckedInFacts.select_checked_in_elem. exists m, ar.
    repeat split; try done. symmetry.
    apply CheckedInFacts.max_record_id_greatest; [done|done|].
    intros r' Hr' Hk. apply Hle; [|done]. apply Hrecs. by left. }
  apply list_elem_of_lookup in Hold as [i Hi].
  specialize (Hle {| ar_id := attendance_seq d + 1 + Z.of_nat i;
                     member_id := m_id m; scan_time := ts;
                     is_checkin := false; is_auto_logout := true;
                     needs_review := true |}).
  cbn in Hle. specialize (Hbound ar Har).
  assert (attendance_seq d + 1 + Z.of_nat i <= ar_id ar); [|lia].
  apply Hle; [|done]. apply Hrecs. right. eexists i, _. split; [exact Hi|done].
Qed.

(** X12: after a force-logout pass in which no statement fails, nobody is
    checked in any more, and a second pass finds nobody and changes
    nothing (the ids of the store not exceeding its AUTOINCREMENT
    counter). *)
Theorem force_logout_twice (st : State) :
  faults st = [] →
  (∀ r, r ∈ attendance_records (db st) → ar_id r <= attendance_seq (db st)) →
  let st' := (performMeetingEndLogout st).2 in
  select_checked_in (db st') = []
  ∧ performMeetingEndLogout st' = (NobodyCheckedIn, st').
Proof.
  intros Hf Hbound st'.
  destruct (perform_no_fault st Hf) as (rows & Hrows & Hrun).
  subst st'. rewrite Hrun. cbn [snd db set_db].
  assert (select_checked_in
            (foldl (λ d m, insert_attendance (id m) false true true
                             (clock st) d) (db st) rows) = []) as Hnone
    by by apply nobody_checked_in_after.
  split; [done|].
  match goal with |- performMeetingEndLogout ?s = _ => set (st1 := s) end.
  destruct (perform_no_fault st1 Hf) as (rows' & Hrows' & Hrun').
  assert (rows' = []) as ->.
  { apply elem_of_nil_inv. intros row Hrow%Hrows'.
    unfold st1 in Hrow. cbn [db set_db] in Hrow. rewrite Hnone in Hrow.
    by apply elem_of_nil in Hrow. }
  rewrite Hrun'. cbn [foldl length]. rewrite decide_True by done.
  by rewrite Replace.set_db_same.
Qed.

Lemma force_logout_twice_witness :
  select_checked_in
    (db (performMeetingEndLogout
           (Sample.state_of Sample.both_checked_in [])).2) = [].
Proof.
  apply (force_logout_twice (Sample.state_of Sample.both_checked_in []));
    [reflexivity|].
  intros r Hr. cbn in Hr.
  apply elem_of_cons in Hr as [->|Hr%list_elem_of_singleton];
    [|subst r]; by vm_compute.
Defined.

End ForceLogoutMore.

(** ** Flagged records and their review *)

Module ReviewFacts.
Import Db Server Store Routes.

Global Instance later_flagged_trans : Transitive later_flagged.
Proof. intros a b c. unfold later_flagged. lia. Qed.

Global Instance later_flagged_total : Total later_flagged.
Proof. intros a b. unfold later_flagged. lia. Qed.

(** The rows of the flagged query. *)
Lemma select_flagged_elem d p :
  p ∈ select_flagged d
  ↔ p.1 ∈ attendance_records d ∧ p.2 ∈ members d
    ∧ member_id p.1 = m_id p.2 ∧ needs_review p.1 = true.
Proof.
  unfold select_flagged. rewrite merge_sort_Permutation, list_elem_of_bind.
  split.
  - intros (ar & Hp & Har). apply list_elem_of_bind in Hp as (m & Hp & Hm).
    case_decide as Hc; [|by apply elem_of_nil in Hp].
    apply list_elem_of_singleton in Hp as ->. cbn. tauto.
  - destruct p as [ar m]. cbn. intros (Har & Hm & Hjoin & Hflag).
    exists ar. split; [|done]. apply list_elem_of_bind. exists m.
    split; [|done]. rewrite decide_True by done. by left.
Qed.

(** X13: after a force-logout pass in which no statement fails, every
    member that was checked in has, in the list of flagged records, a
    check-out record marked as an automatic logout. *)
Theorem auto_logouts_are_flagged (st : State) (row : CheckedIn) :
  faults st = [] →
  row ∈ select_checked_in (db st) →
  ∃ r m,
    (r, m) ∈ select_flagged (db (performMeetingEndLogout st).2)
    ∧ m_id m = id row
    ∧ member_id r = id row
    ∧ is_checkin r = false
    ∧ is_auto_logout r = true.
Proof.
  intros Hf Hrow.
  destruct (ForceLogoutMore.perform_no_fault st Hf) as (rows & Hrows & ->).
  cbn [snd db set_db].
  destruct (ForceLogoutMore.auto_logouts_records (clock st) rows (db st))
    as (Hm & _ & Hrecs).
  pose proof (proj1 (CheckedInFacts.select_checked_in_elem _ _) Hrow)
    as (m & ar & Hmem & _ & _ & _ & _ & Eq).
  assert (∃ i, rows !! i = Some row) as [i Hi]
    by by apply list_elem_of_lookup, Hrows.
  exists {| ar_id := attendance_seq (db st) + 1 + Z.of_nat i;
            member_id := id row; scan_time := clock st;
            is_checkin := false; is_auto_logout := true;
            needs_review := true |}, m.
  assert (m_id m = id row) as Hid by by rewrite Eq.
  split; [|done].
  apply select_flagged_elem. cbn [fst snd member_id needs_review].
  split; [|split; [by rewrite Hm|done]].
  apply Hrecs. right. by exists i, row.
Qed.

Lemma auto_logouts_are_flagged_witness :
  ∃ r m,
    (r, m) ∈ select_flagged
               (db (performMeetingEndLogout
                      (Sample.state_of Sample.ann_checked_in [])).2)
    ∧ m_id m = 1 ∧ is_auto_logout r = true.
Proof.
  destruct (auto_logouts_are_flagged
              (Sample.state_of Sample.ann_checked_in [])
              {| id := 1; member_name := "Ann"; last_checkin := 900 |})
    as (r & m & Hin & Hm & _ & _ & Hauto);
    [reflexivity | by vm_compute; left |].
  exists r, m. split; [exact Hin|]. split; [exact Hm | exact Hauto].
Defined.

Lemma max_record_id_reviewed recordId recs k :
  max_record_id
    ((λ r, if decide (ar_id r = recordId) then reviewed r else r) <$> recs) k
  = max_record_id recs k.
Proof.
  induction recs as [|r recs IH]; [done|].
  rewrite fmap_cons, !CheckedInFacts.max_record_id_cons, IH.
  by destruct (decide (ar_id r = recordId)).
Qed.

(** X14: marking a record as reviewed removes that record, and no other,
    from the flagged list, and changes nothing of who is checked in. *)
Theorem review_clears_one_flag (st : State) (recordId : Z) :
  head (faults st) ≠ Some true →
  let run := reviewRoute recordId st in
  run.1 = (200, AdminSuccess)
  ∧ (∀ p, p ∈ select_flagged (db run.2)
          ↔ p ∈ select_flagged (db st) ∧ ar_id p.1 ≠ recordId)
  ∧ select_checked_in (db run.2) = select_checked_in (db st).
Proof.
  intros Hf run.
  assert (run = ((200, AdminSuccess), 
                 set_db (mark_reviewed recordId (db st))
                        (set_faults (tail (faults st)) st))) as ->.
  { subst run. destruct st as [d m c [|[] fs]]; done. }
  cbn [fst snd db set_db set_faults]. split; [done|]. split.
  - intros [r m]. rewrite !select_flagged_elem. cbn [fst snd mark_reviewed
      with_attendance attendance_records members].
    rewrite list_elem_of_fmap. split.
    + intros ((r0 & -> & Hr0) & Hm & Hjoin & Hflag).
      case_decide as Hid; [done|]. done.
    + intros ((Hr & Hm & Hjoin & Hflag) & Hid).
      repeat split; try done. exists r. by rewrite decide_False.
  - unfold select_checked_in. cbn [mark_reviewed with_attendance
      attendance_records members]. do 2 f_equal.
    apply list_bind_ext; [|done]. intros m.
    rewrite list_fmap_bind. apply list_bind_ext; [|done]. intros r. cbn.
    rewrite max_record_id_reviewed.
    by destruct (decide (ar_id r = recordId)).
Qed.

Lemma review_clears_one_flag_witness :
  select_checked_in
    (db (reviewRoute 1 (Sample.state_of Sample.ann_checked_in [])).2)
  = select_checked_in Sample.ann_checked_in.
Proof.
  apply (review_clears_one_flag (Sample.state_of Sample.ann_checked_in []) 1).
  done.
Defined.

End ReviewFacts.

(** ** More on the checked-in query and the pass *)

Module CheckedInMore.
Import Db Server Store.

(** X15: the checked-in query answers each member at most once (ids being
    the primary keys of their tables), so a force-logout pass writes at
    most one record per member. *)
Theorem checked_in_once_per_member (d : Database) :
  unique_member_ids (members d) →
  unique_ids (attendance_records d) →
  NoDup (id <$> select_checked_in d).
Proof.
  intros Hm Hr. apply NoDup_fmap_2_strong.
  - intros a b
      (m & ar & Hm1 & Har1 & Hj1 & Hx1 & _ & ->)%CheckedInFacts.select_checked_in_elem
      (m' & ar' & Hm2 & Har2 & Hj2 & Hx2 & _ & ->)%CheckedInFacts.select_checked_in_elem
      E.
    cbn in E. assert (m = m') as <- by by apply Hm.
    assert (ar = ar') as <-; [|done].
    apply Hr; [done..|]. rewrite <- Hx1 in Hx2. by injection Hx2.
  - unfold select_checked_in. rewrite merge_sort_Permutation.
    apply NoDup_remove_dups.
Qed.

Lemma checked_in_once_per_member_witness :
  NoDup (id <$> select_checked_in Sample.both_checked_in).
Proof.
  apply (checked_in_once_per_member Sample.both_checked_in).
  - intros a b Ha Hb E. cbn in Ha, Hb.
    apply elem_of_cons in Ha as [->|Ha%list_elem_of_singleton];
      apply elem_of_cons in Hb as [->|Hb%list_elem_of_singleton];
      subst; done.
  - intros a b Ha Hb E. cbn in Ha, Hb.
    apply elem_of_cons in Ha as [->|Ha%list_elem_of_singleton];
      apply elem_of_cons in Hb as [->|Hb%list_elem_of_singleton];
      subst; done.
Defined.

Lemma getCurrentlyCheckedInMembers_clock st :
  clock (getCurrentlyCheckedInMembers st).2 = clock st.
Proof.
  destruct st as [d m c fs].
  unfold getCurrentlyCheckedInMembers, storage_read, bind, next_fault, ret.
  destruct fs as [|[] [|[] fs]]; cbn; try done; by case_decide.
Qed.

Lemma logout_each_in_time ms :
  ∀ st processed errors ts,
    appended_in_time (db st) ts → ts <= clock st →
    appended_in_time (db (logout_each ms processed errors st).2) (clock st).
Proof.
  induction ms as [|m ms IH]; intros st processed errors ts Hinv Hle.
  - cbn. destruct Hinv as (H1 & H2 & H3 & H4). repeat split; try done.
    intros r Hr. specialize (H4 r Hr). lia.
  - cbn [logout_each]. unfold bind.
    destruct (decide (head (faults st) = Some true)) as [Hfail|Hok].
    + rewrite ForceLogout.recordAutoLogout_failed by done.
      by apply (IH (set_faults _ st) _ _ ts).
    + rewrite ForceLogout.recordAutoLogout_ok by done.
      match goal with |- context [logout_each ms ?p ?e ?s] =>
        apply (IH s p e (clock st)) end; [|done].
      cbn [db set_db]. by eapply CheckedInFacts.insert_attendance_in_time.
Qed.

(** X16: whatever writes fail, a force-logout pass keeps the ids of the
    records in the order of their scan times, as long as the clock is not
    set back. *)
Theorem force_logout_keeps_ids_in_time (st : State) (ts : Z) :
  appended_in_time (db st) ts →
  ts <= clock st →
  appended_in_time (db (performMeetingEndLogout st).2) (clock st).
Proof.
  intros Hinv Hle. unfold performMeetingEndLogout, bind.
  pose proof (ForceLogout.getCurrentlyCheckedInMembers_db st) as Hdb.
  pose proof (getCurrentlyCheckedInMembers_clock st) as Hclock.
  destruct (getCurrentlyCheckedInMembers st) as [[rows|] st1]; cbn in Hdb, Hclock.
  - assert (appended_in_time (db st1) (clock st)) as Hkeep.
    { rewrite Hdb. destruct Hinv as (H1 & H2 & H3 & H4).
      repeat split; try done. intros r Hr. specialize (H4 r Hr). lia. }
    case_decide; [done|].
    pose proof (logout_each_in_time rows st1 0%nat 0%nat (clock st)) as Hrun.
    rewrite Hclock in Hrun.
    destruct (logout_each rows 0 0 st1) as [counts st2]. cbn in Hrun |- *.
    by apply Hrun.
  - cbn. rewrite Hdb. destruct Hinv as (H1 & H2 & H3 & H4).
    repeat split; try done. intros r Hr. specialize (H4 r Hr). lia.
Qed.

Lemma force_logout_keeps_ids_in_time_witness :
  appended_in_time
    (db (performMeetingEndLogout
           (Sample.state_of Sample.ann_checked_in [false; false; true])).2)
    1000.
Proof.
  apply (force_logout_keeps_ids_in_time
           (Sample.state_of Sample.ann_checked_in [false; false; true]) 900);
    [|by vm_compute].
  repeat split.
  - intros a b Ha%list_elem_of_singleton Hb%list_elem_of_singleton _.
    congruence.
  - intros a b Ha%list_elem_of_singleton Hb%list_elem_of_singleton.
    subst. cbn. lia.
  - intros r Hr%list_elem_of_singleton. subst. by vm_compute.
  - intros r Hr%list_elem_of_singleton. subst. by vm_compute.
Defined.

End CheckedInMore.

(** ** More on replacing the schedule list *)

Module ReplaceMore.
Import Db Server Store Routes.

Lemma deactivate_twice s : deactivate (deactivate s) = deactivate s.
Proof. reflexivity. Qed.

Lemma soft_deletes_unique dels :
  ∀ d, unique_keys (meeting_schedules d) →
       unique_keys
         (meeting_schedules
            (foldl (λ d s, soft_delete_schedule (day_of_week s)
                             (session_number s) d) d dels)).
Proof.
  induction dels as [|s dels IH]; intros d U; [done|]. cbn [foldl].
  by apply IH, Invariants.soft_delete_schedule_unique.
Qed.

Lemma upserts_unique schedules :
  ∀ d, unique_keys (meeting_schedules d) →
       unique_keys
         (meeting_schedules (foldl (λ d x, upsert_input x d) d schedules)).
Proof.
  induction schedules as [|x schedules IH]; intros d U; [done|]. cbn [foldl].
  by apply IH, Invariants.upsert_schedule_unique.
Qed.

Lemma replaced_unique schedules d :
  unique_keys (meeting_schedules d) →
  unique_keys (meeting_schedules (replaced schedules d)).
Proof. intros U. by apply upserts_unique, soft_deletes_unique. Qed.

(** After the route, a session is active exactly when the request names
    its key. *)
Lemma replaced_active_keys schedules d row :
  row ∈ meeting_schedules (replaced schedules d) →
  is_active row = true ↔ schedule_key row ∈ input_key <$> schedules.
Proof.
  intros Hrow. split.
  - intros Ha.
    destruct (Replace.replaced_active schedules d row Hrow Ha)
      as (x & Hx & -> & _).
    by apply list_elem_of_fmap_2.
  - intros (x & Hk & Hx)%list_elem_of_fmap.
    destruct (Replace.upserts_activate schedules
                (foldl (λ d s, soft_delete_schedule (day_of_week s)
                                 (session_number s) d)
                       d
                       (filter (λ current, schedule_key current
                                           ∉ input_key <$> schedules)
                               (select_schedules d)))
                x Hx) as [_ Hact].
    by apply Hact.
Qed.

(** X17: after a replaceSchedules call that the store carries out, the
    active sessions are exactly the sessions of the keys of the call and
    the keys of the table are still unique; and when the call asks for
    sessions with a weekday 0 to 6 and a time of day "HH:MM" as end_time,
    the armed triggers are those of the active sessions: one for each key
    of the call and no other. *)
Theorem replace_sets_active_keys (st : State)
    (schedules : list ScheduleInput) :
  faults st = [] →
  unique_keys (meeting_schedules (db st)) →
  let run := putMeetingSchedules schedules st in
  unique_keys (meeting_schedules (db run.2))
  ∧ (∀ row, row ∈ meeting_schedules (db run.2) →
            (is_active row = true
             ↔ schedule_key row ∈ input_key <$> schedules))
  ∧ (Forall armable_input schedules →
     triggers_match_store run.2
     ∧ ∀ k, is_Some (meetingSchedulers run.2 !! k)
            ↔ k ∈ input_key <$> schedules).
Proof.
  intros Hf U run. subst run.
  destruct (Replace.put_no_fault st schedules Hf) as (message & ->).
  cbn [snd]. rewrite Scheduler.initialize_db. cbn [db set_db].
  set (d2 := replaced schedules (db st)).
  assert (unique_keys (meeting_schedules d2)) as U2
    by by apply replaced_unique.
  split; [done|]. split; [intros row; by apply replaced_active_keys|].
  intros Hin.
  rewrite Scheduler.initialize_read_ok;
    [|cbn; by rewrite Hf
     |cbn [db set_db]; intros s; by apply Replace.replaced_armable].
  cbn [snd db set_db]. split; [done|].
  cbn [meetingSchedulers]. intros k. split.
  - intros [t Ht].
    apply Scheduler.with_triggers_lookup in Ht
      as (s & [Hs Ha]%Scheduler.select_schedules_elem & <- & _);
      [|by apply Scheduler.select_schedules_unique].
    by apply (replaced_active_keys schedules (db st)).
  - intros (x & -> & Hx)%list_elem_of_fmap.
    destruct (Replace.upserts_activate schedules
                (foldl (λ d s, soft_delete_schedule (day_of_week s)
                                 (session_number s) d)
                       (db st)
                       (filter (λ current, schedule_key current
                                           ∉ input_key <$> schedules)
                               (select_schedules (db st))))
                x Hx) as [(row & Hrow & Hkey) Hact].
    rewrite <- Hkey. apply Scheduler.with_triggers_is_Some.
    apply Scheduler.select_schedules_elem. split; [done|]. by apply Hact.
Qed.

Lemma replace_sets_active_keys_witness :
  is_Some (meetingSchedulers
             (putMeetingSchedules [Sample.monday_again]
                (Sample.state_of Sample.late_only [])).2 !! (1, 2))
  ↔ (1, 2) ∈ input_key <$> [Sample.monday_again].
Proof.
  destruct (replace_sets_active_keys (Sample.state_of Sample.late_only [])
              [Sample.monday_again]) as (_ & _ & Harmed).
  - reflexivity.
  - apply Scheduler.unique_keys_singleton.
  - destruct Harmed as [_ Hkeys].
    + apply Forall_singleton. split; [done | by eexists].
    + exact (Hkeys (1, 2)).
Defined.

(** A write on the schedule table touches neither the triggers nor the
    other tables, whether it fails or not. *)
Lemma schedule_write_keeps (q : Z → Database → Database) st :
  (∀ ts d, members (q ts d) = members d
           ∧ attendance_records (q ts d) = attendance_records d) →
  meetingSchedulers (storage_write q st).2 = meetingSchedulers st
  ∧ members (db (storage_write q st).2) = members (db st)
  ∧ attendance_records (db (storage_write q st).2)
    = attendance_records (db st).
Proof.
  intros Hq. destruct st as [d m c [|[] fs]]; cbn; try done;
    destruct (Hq c d); done.
Qed.

Lemma count_errors_keeps {A} (op : A → Eff (Result unit)) items :
  (∀ x st,
     meetingSchedulers (op x st).2 = meetingSchedulers st
     ∧ members (db (op x st).2) = members (db st)
     ∧ attendance_records (db (op x st).2) = attendance_records (db st)) →
  ∀ st errors,
    meetingSchedulers (count_errors op items errors st).2
    = meetingSchedulers st
    ∧ members (db (count_errors op items errors st).2) = members (db st)
    ∧ attendance_records (db (count_errors op items errors st).2)
      = attendance_records (db st).
Proof.
  intros Hop. induction items as [|x items IH]; intros st errors; [done|].
  cbn [count_errors]. unfold bind.
  destruct (Hop x st) as (H1 & H2 & H3).
  destruct (op x st) as [result st1]. cbn in H1, H2, H3.
  destruct (IH st1 (match result with Err => S errors | Ok _ => errors end))
    as (I1 & I2 & I3).
  rewrite I1, I2, I3. done.
Qed.

(** X18: when PUT /api/meeting-schedules answers an error, whichever
    statements failed, the scheduler is not reinitialized: the trigger
    table is the one armed before (even though the writes that succeeded
    stay in the schedule table), and members and attendance records are
    untouched. *)
Theorem replace_error_keeps_triggers (st : State)
    (schedules : list ScheduleInput) :
  let run := putMeetingSchedules schedules st in
  status run.1 ≠ 200 →
  meetingSchedulers run.2 = meetingSchedulers st
  ∧ members (db run.2) = members (db st)
  ∧ attendance_records (db run.2) = attendance_records (db st).
Proof.
  intros run. subst run. unfold putMeetingSchedules, bind.
  assert (∀ st', meetingSchedulers (getMeetingSchedules st').2
                 = meetingSchedulers st'
                 ∧ db (getMeetingSchedules st').2 = db st') as Hread.
  { intros [d m c [|[] fs]]; done. }
  destruct (Hread st) as [R1 R2].
  destruct (getMeetingSchedules st) as [[current|] st1]; cbn in R1, R2.
  - case_decide as Htotal.
    + destruct (initializeMeetingScheduler st1). by cbn.
    + match goal with |- context [count_errors ?op ?items 0 st1] =>
        pose proof (count_errors_keeps op items) as Hdel end.
      destruct Hdel with (st := st1) (errors := 0%nat) as (D1 & D2 & D3).
      { intros x st'. unfold deleteMeetingSchedule.
        by apply schedule_write_keeps. }
      match goal with |- context [count_errors ?op ?items 0 st1] =>
        destruct (count_errors op items 0 st1) as [e1 st2] end.
      cbn in D1, D2, D3.
      match goal with |- context [count_errors ?op ?items e1 st2] =>
        pose proof (count_errors_keeps op items) as Hup end.
      destruct Hup with (st := st2) (errors := e1) as (U1 & U2 & U3).
      { intros x st'. unfold updateMeetingSchedule.
        by apply schedule_write_keeps. }
      match goal with |- context [count_errors ?op ?items e1 st2] =>
        destruct (count_errors op items e1 st2) as [e2 st3] end.
      cbn in U1, U2, U3.
      case_decide.
      * destruct (initializeMeetingScheduler st3). by cbn.
      * cbn. intros _. rewrite U1, U2, U3, D1, D2, D3, R1, R2. done.
  - cbn. intros _. by rewrite R1, R2.
Qed.

Lemma replace_error_keeps_triggers_witness :
  meetingSchedulers
    (putMeetingSchedules [Sample.monday_again]
       (set_faults [false; true] Sample.armed_then_failing)).2
  = meetingSchedulers Sample.armed_then_failing.
Proof.
  apply (replace_error_keeps_triggers
           (set_faults [false; true] Sample.armed_then_failing)
           [Sample.monday_again]).
  by vm_compute.
Defined.

(** X19: replacing the schedule list by the empty list, the store carrying
    it out, leaves no session active and no trigger armed, and from then on
    GET /api/meeting-schedules/current reports, at any time, inactive with
    no next session. *)
Theorem replace_with_empty_list (st : State) (now : Date) :
  faults st = [] →
  let st' := (putMeetingSchedules [] st).2 in
  meetingSchedulers st' = ∅
  ∧ (∀ row, row ∈ meeting_schedules (db st') → is_active row = false)
  ∧ (meetingStatus now st').1 = (200, StatusInactive None).
Proof.
  intros Hf st'. subst st'.
  destruct (Replace.put_no_fault st [] Hf) as (message & ->).
  cbn [snd].
  set (d1 := replaced [] (db st)).
  assert (∀ row, row ∈ meeting_schedules d1 → is_active row = false)
    as Hinactive.
  { intros row Hrow. destruct (is_active row) eqn:Ha; [|done]. exfalso.
    destruct (Replace.replaced_active [] (db st) row Hrow Ha) as (x & Hx & _).
    by apply elem_of_nil in Hx. }
  assert (select_schedules d1 = []) as Hnone.
  { apply elem_of_nil_inv.
    intros row [Hrow Ha]%Scheduler.select_schedules_elem.
    by rewrite (Hinactive row Hrow) in Ha. }
  rewrite Scheduler.initialize_read_ok;
    [|cbn; by rewrite Hf
     |cbn [db set_db]; intros s Hs Ha; by rewrite (Hinactive s Hs) in Ha].
  cbn [snd db set_db meetingSchedulers clock faults]. rewrite Hnone, Hf.
  split; [done|]. split; [done|].
  unfold meetingStatus, isWithinMeetingSchedule, bind.
  rewrite Replace.storage_read_ok by done. cbn [db].
  assert (select_within d1 (getDay now) (currentTime now) = None) as ->.
  { apply Evaluator.select_within_None. intros s Hs (_ & Ha & _).
    by rewrite (Hinactive s Hs) in Ha. }
  rewrite Evaluator.getNextMeetingSession_ok by done. cbn [db ret fst].
  assert (nextSession d1 now = None) as ->; [|done].
  apply Evaluator.nextSession_None. split.
  - intros s (Hs & _ & Ha & _). by rewrite (Hinactive s Hs) in Ha.
  - intros s (Hs & Ha & _). by rewrite (Hinactive s Hs) in Ha.
Qed.

Lemma replace_with_empty_list_witness :
  meetingSchedulers
    (putMeetingSchedules [] (set_faults [] Sample.armed_then_failing)).2 = ∅.
Proof.
  apply (replace_with_empty_list (set_faults [] Sample.armed_then_failing)
           (Sample.monday_at 9 0)).
  reflexivity.
Defined.

End ReplaceMore.

(** ** Members: deletion and update *)

Module MemberFacts.
Import Db Server Store Routes.

Lemma no_records_of d memberId :
  ¬ count_attendance_of memberId d > 0 →
  ∀ r, r ∈ attendance_records d → member_id r ≠ memberId.
Proof.
  unfold count_attendance_of. intros Hc r Hr Hm.
  assert (r ∈ filter (λ r, member_id r = memberId) (attendance_records d))
    as Hin by by apply list_elem_of_filter.
  destruct (filter _ _); [by apply elem_of_nil in Hin|].
  cbn in Hc. lia.
Qed.

(** X20: DELETE /api/members/:id, no statement failing: the member and all
    the member's attendance records are gone, every other member and
    record is kept, the AUTOINCREMENT counter is not moved back (ids are
    not reused) and the member is no longer among the checked-in. *)
Theorem delete_member_cascades (st : State) (memberId : Z) :
  faults st = [] →
  let run := deleteMemberRoute memberId st in
  run.1 = (200, AdminSuccess)
  ∧ (∀ m, m ∈ members (db run.2) ↔ m ∈ members (db st) ∧ m_id m ≠ memberId)
  ∧ (∀ r, r ∈ attendance_records (db run.2)
          ↔ r ∈ attendance_records (db st) ∧ member_id r ≠ memberId)
  ∧ attendance_seq (db run.2) = attendance_seq (db st)
  ∧ meeting_schedules (db run.2) = meeting_schedules (db st)
  ∧ (∀ row, row ∈ select_checked_in (db run.2) → id row ≠ memberId).
Proof.
  intros Hf run.
  assert (run.1 = (200, AdminSuccess)
          ∧ members (db run.2)
            = filter (λ m, m_id m ≠ memberId) (members (db st))
          ∧ (∀ r, r ∈ attendance_records (db run.2)
                  ↔ r ∈ attendance_records (db st) ∧ member_id r ≠ memberId)
          ∧ attendance_seq (db run.2) = attendance_seq (db st)
          ∧ meeting_schedules (db run.2) = meeting_schedules (db st))
    as (H1 & H2 & H3 & H4 & H5).
  { subst run. destruct st as [d m c fs]. cbn in Hf. subst fs.
    unfold deleteMemberRoute, deleteMember, storage_read, storage_write,
      bind, next_fault, ret. cbn.
    case_decide as Hc; cbn.
    - split; [done|]. split; [done|]. split; [|done].
      intros r. rewrite list_elem_of_filter. tauto.
    - split; [done|]. split; [done|]. split; [|done].
      intros r. split; [|tauto]. intros Hr. split; [done|].
      by apply (no_records_of d memberId). }
  split; [done|].
  split; [intros m; rewrite H2, list_elem_of_filter; tauto|].
  split; [done|]. split; [done|]. split; [done|].
  intros row (m & ar & Hm & _ & _ & _ & _ & ->)%CheckedInFacts.select_checked_in_elem.
  rewrite H2 in Hm. by apply list_elem_of_filter in Hm as [? _].
Qed.

Lemma delete_member_cascades_witness :
  (deleteMemberRoute 1 (Sample.state_of Sample.both_checked_in [])).1
  = (200, AdminSuccess)
  ∧ attendance_seq
      (db (deleteMemberRoute 1
             (Sample.state_of Sample.both_checked_in [])).2)
    = attendance_seq Sample.both_checked_in.
Proof.
  destruct (delete_member_cascades
              (Sample.state_of Sample.both_checked_in []) 1)
    as (Hok & _ & _ & Hseq & _).
  - reflexivity.
  - split; [exact Hok | exact Hseq].
Defined.

(** X21: whichever of its statements fail, [deleteMember] never leaves a
    record without its member: the member is deleted only once the member
    has no record left. *)
Theorem delete_member_keeps_references (st : State) (memberId : Z) :
  references_hold (db st) →
  references_hold (db (deleteMember memberId st).2).
Proof.
  intros Href. destruct st as [d m c fs]. cbn in Href |- *.
  assert (references_hold (delete_attendance_of memberId d)) as Hrecs.
  { intros r [_ Hr]%list_elem_of_filter. by apply Href. }
  assert (references_hold
            (delete_member_row memberId (delete_attendance_of memberId d)))
    as Hboth.
  { intros r [Hne Hr]%list_elem_of_filter.
    destruct (Href r Hr) as (mem & Hmem & Hid). exists mem.
    split; [|done]. apply list_elem_of_filter. split; [congruence|done]. }
  assert (¬ count_attendance_of memberId d > 0 →
          references_hold (delete_member_row memberId d)) as Hnone.
  { intros Hc r Hr. cbn in Hr.
    destruct (Href r Hr) as (mem & Hmem & Hid). exists mem.
    split; [|done]. apply list_elem_of_filter. split; [|done].
    rewrite Hid. by apply (no_records_of d memberId). }
  unfold deleteMember, storage_read, storage_write, bind, next_fault, ret.
  destruct fs as [|[] [|[] [|[] fs]]]; cbn; try done;
    case_decide; cbn; try done; by apply Hnone.
Qed.

Lemma delete_member_keeps_references_witness :
  references_hold
    (db (deleteMember 1
           (Sample.state_of Sample.both_checked_in [false; false; true])).2).
Proof.
  apply (delete_member_keeps_references
           (Sample.state_of Sample.both_checked_in [false; false; true]) 1).
  intros r Hr. cbn in Hr.
  apply elem_of_cons in Hr as [->|Hr%list_elem_of_singleton]; [|subst r].
  - exists Sample.ann. split; [by left|done].
  - exists Sample.bob. split; [by right; left|done].
Defined.

Lemma NoDup_fmap_same {A B} (f : A → B) (l : list A) a b :
  NoDup (f <$> l) → a ∈ l → b ∈ l → f a = f b → a = b.
Proof.
  induction l as [|x l IH]; [by intros _ ?%elem_of_nil|].
  rewrite fmap_cons, NoDup_cons. intros [Hx Hl] Ha Hb E.
  apply elem_of_cons in Ha as [->|Ha]; apply elem_of_cons in Hb as [->|Hb].
  - done.
  - destruct Hx. rewrite E. by apply list_elem_of_fmap_2.
  - destruct Hx. rewrite <- E. by apply list_elem_of_fmap_2.
  - by apply IH.
Qed.

Lemma one_row_per_id (rows : list Member) memberId :
  NoDup (m_id <$> rows) →
  (length (filter (λ m, m_id m = memberId) rows) <= 1)%nat.
Proof.
  induction rows as [|x rows IH]; [cbn; lia|].
  rewrite fmap_cons, NoDup_cons. intros [Hx Hl].
  destruct (decide (m_id x = memberId)) as [E|E].
  - rewrite filter_cons_True by done.
    assert (filter (λ m, m_id m = memberId) rows = []) as ->; [|cbn; lia].
    apply elem_of_nil_inv. intros y [Hy Hin]%list_elem_of_filter.
    apply Hx. rewrite E, <- Hy. by apply list_elem_of_fmap_2.
  - rewrite filter_cons_False by done. by apply IH.
Qed.

(** The outcomes of the UPDATE of a member under the primary key. *)
Lemma update_member_row_cases memberId newName newBarcode d :
  NoDup (m_id <$> members d) →
  (update_member_row memberId newName newBarcode d = None
   ∧ (∃ m, m ∈ members d ∧ m_id m = memberId)
   ∧ ∃ other, other ∈ members d ∧ m_id other ≠ memberId
              ∧ barcode other = newBarcode)
  ∨ (update_member_row memberId newName newBarcode d = Some d
     ∧ ∀ m, m ∈ members d → m_id m ≠ memberId)
  ∨ (update_member_row memberId newName newBarcode d
     = Some (with_members
               ((λ m, if decide (m_id m = memberId)
                      then rename newName newBarcode m else m)
                  <$> members d) d)
     ∧ (∃ m, m ∈ members d ∧ m_id m = memberId)
     ∧ ∀ m, m ∈ members d → m_id m ≠ memberId → barcode m ≠ newBarcode).
Proof.
  intros Hpk. unfold update_member_row.
  pose proof (one_row_per_id (members d) memberId Hpk) as Hone.
  case_decide as Ht.
  - right; left. split; [done|]. intros m Hm Hid.
    by eapply (filter_nil_not_elem_of _ _ m Ht).
  - assert (∃ m, m ∈ members d ∧ m_id m = memberId) as Hex.
    { destruct (filter (λ m, m_id m = memberId) (members d))
        as [|m rest] eqn:E; [done|].
      exists m. assert (m ∈ filter (λ m, m_id m = memberId) (members d))
        as [? ?]%list_elem_of_filter by (rewrite E; by left). done. }
    case_decide as Hdup.
    + destruct Hdup as [(other & Ho & Hid & Hb)%Exists_exists|Hlen]; [|lia].
      left. split; [done|]. split; [done|]. by exists other.
    + right; right. split; [done|]. split; [done|].
      intros m Hm Hid Hb. apply Hdup. left.
      apply Exists_exists. by exists m.
Qed.

(** X22: PUT /api/members/:id keeps the primary key and the uniqueness of
    the barcodes, and an answer other than 200 leaves the store as it
    was.  A barcode that another member holds is refused by the store,
    and the refusal is answered 500 with the message of the store: the
    code that the driver reports for it, SQLITE_CONSTRAINT, is not the one
    the route compares with, so "Barcode already exists" is never
    answered. *)
Theorem put_member_keeps_barcodes_unique (st : State) (memberId : Z)
    (newName newBarcode : string) :
  NoDup (m_id <$> members (db st)) →
  NoDup (barcode <$> members (db st)) →
  let run := putMember memberId newName newBarcode st in
  NoDup (m_id <$> members (db run.2))
  ∧ NoDup (barcode <$> members (db run.2))
  ∧ attendance_records (db run.2) = attendance_records (db st)
  ∧ (run.1.1 ≠ 200 → db run.2 = db st)
  ∧ run.1 ≠ (400, AdminError "Barcode already exists")
  ∧ (head (faults st) ≠ Some true →
     newName ≠ EmptyString → newBarcode ≠ EmptyString →
     (∃ m, m ∈ members (db st) ∧ m_id m = memberId) →
     (∃ other, other ∈ members (db st) ∧ m_id other ≠ memberId
               ∧ barcode other = newBarcode) →
     run.1 = (500, AdminError ("Database error: "
                               +:+ err_message constraint_failed))).
Proof.
  intros Hpk Hub run.
  pose proof (update_member_row_cases memberId newName newBarcode (db st) Hpk)
    as Hcases.
  assert (∀ d, update_member_row memberId newName newBarcode (db st) = Some d →
               NoDup (m_id <$> members d) ∧ NoDup (barcode <$> members d)
               ∧ attendance_records d = attendance_records (db st)) as Hkeep.
  { intros d Hd.
    destruct Hcases as [[E _]|[[E _]|(E & _ & Hfree)]]; rewrite E in Hd;
      [done|by injection Hd as <-|]. injection Hd as <-. cbn.
    assert (m_id <$> ((λ m, if decide (m_id m = memberId)
                            then rename newName newBarcode m else m)
                        <$> members (db st)) = m_id <$> members (db st)) as Hids.
    { rewrite <- list_fmap_compose. apply list_fmap_ext.
      intros i m _. cbn. by case_decide. }
    split; [by rewrite Hids|]. split; [|done].
    apply NoDup_fmap_2_strong; [|apply (NoDup_fmap_1 m_id); by rewrite Hids].
    intros a' b' (a & -> & Ha)%list_elem_of_fmap (b & -> & Hb)%list_elem_of_fmap.
    destruct (decide (m_id a = memberId)) as [Ia|Ia];
      destruct (decide (m_id b = memberId)) as [Ib|Ib]; cbn; intros Eb.
    - assert (a = b) as -> by (eapply NoDup_fmap_same; [exact Hpk|..]; congruence).
      done.
    - by destruct (Hfree b Hb Ib).
    - by destruct (Hfree a Ha Ia).
    - by eapply NoDup_fmap_same. }
  assert (∀ d', update_member_row memberId newName newBarcode (db st)
                = Some d' →
                (∃ m, m ∈ members (db st) ∧ m_id m = memberId) →
                (∃ other, other ∈ members (db st) ∧ m_id other ≠ memberId
                          ∧ barcode other = newBarcode) → False) as Hrefused.
  { intros d' E (m0 & Hm0 & Hid0) (o & Ho & Hio & Hbo).
    destruct Hcases as [[E' _]|[[_ Hno]|(_ & _ & Hfree)]].
    - by rewrite E in E'.
    - by destruct (Hno m0).
    - by destruct (Hfree o Ho). }
  subst run. destruct st as [d m c fs]. cbn [db faults] in *.
  unfold putMember. case_decide as Hempty.
  { cbn. split; [done|]. split; [done|]. split; [done|]. split; [done|].
    split; [done|]. intros _ Hn Hb. by destruct Hempty. }
  unfold updateMember, bind, next_fault, ret.
  destruct fs as [|[] fs]; cbn;
    try (destruct (update_member_row memberId newName newBarcode d)
           as [d'|] eqn:E; cbn;
         [destruct (Hkeep d' eq_refl) as (K1 & K2 & K3)|]);
    (split; [done|]; split; [done|]; split; [done|]; split; [done|];
     split; [done|]); try done;
    intros _ _ _ Hm Ho; by destruct (Hrefused d').
Qed.

Lemma put_member_keeps_barcodes_unique_witness :
  (putMember 1 "Ann" "B2" (Sample.state_of Sample.monday_only [])).1
  = (500, AdminError ("Database error: " +:+ err_message constraint_failed)).
Proof.
  destruct (put_member_keeps_barcodes_unique
              (Sample.state_of Sample.monday_only []) 1 "Ann" "B2")
    as (_ & _ & _ & _ & _ & Hrefused).
  - apply (bool_decide_unpack _). by vm_compute.
  - apply (bool_decide_unpack _). by vm_compute.
  - apply Hrefused; [done | done | done | |].
    + exists Sample.ann. split; [by left|done].
    + exists Sample.bob. split; [by right; left|done].
Defined.

(** X23: after PUT /api/members/:id has given an existing member a
    barcode that no other member holds, a scan of the new barcode finds
    that member, renamed, and a scan of the old barcode, if it differs,
    finds nobody. *)
Theorem renamed_member_found_by_barcode (st : State) (memberId : Z)
    (newName newBarcode : string) (m : Member) :
  NoDup (m_id <$> members (db st)) →
  NoDup (barcode <$> members (db st)) →
  head (faults st) ≠ Some true →
  newName ≠ EmptyString → newBarcode ≠ EmptyString →
  m ∈ members (db st) → m_id m = memberId →
  (∀ other, other ∈ members (db st) → m_id other ≠ memberId →
            barcode other ≠ newBarcode) →
  let run := putMember memberId newName newBarcode st in
  run.1 = (200, AdminSuccess)
  ∧ select_member_by_barcode (db run.2) newBarcode
    = Some (rename newName newBarcode m)
  ∧ (barcode m ≠ newBarcode →
     select_member_by_barcode (db run.2) (barcode m) = None).
Proof.
  intros Hpk Hub Hf Hn Hb Hm Hid Hfree run.
  set (f := λ m, if decide (m_id m = memberId)
                 then rename newName newBarcode m else m).
  assert (update_member_row memberId newName newBarcode (db st)
          = Some (with_members (f <$> members (db st)) (db st))) as Hup.
  { destruct (update_member_row_cases memberId newName newBarcode (db st) Hpk)
      as [(_ & _ & o & Ho & Hio & Hbo)|[[_ Hno]|[E _]]].
    - by destruct (Hfree o Ho).
    - by destruct (Hno m).
    - done. }
  assert (run = ((200, AdminSuccess),
                 set_db (with_members (f <$> members (db st)) (db st))
                        (set_faults (tail (faults st)) st))) as ->.
  { subst run. unfold putMember.
    rewrite decide_False by (intros [?|?]; done).
    unfold updateMember, bind, next_fault, ret.
    destruct st as [d sch c [|[] fs]]; cbn in Hup, Hf |- *;
      try done; by rewrite Hup. }
  cbn [fst snd db set_db set_faults]. split; [done|].
  unfold select_member_by_barcode. cbn [members with_members].
  assert (∀ a, a ∈ members (db st) → m_id a = memberId → a = m) as Hsame.
  { intros a Ha Hia. eapply NoDup_fmap_same; [exact Hpk|done..|congruence]. }
  split.
  - destruct (head (filter (λ x, barcode x = newBarcode)
                           (f <$> members (db st)))) as [x|] eqn:E.
    + apply head_Some_elem_of, list_elem_of_filter in E as [Hx Hin].
      apply list_elem_of_fmap in Hin as (a & -> & Ha). unfold f in *.
      case_decide as Hia; [by rewrite (Hsame a Ha Hia)|].
      by destruct (Hfree a Ha Hia).
    + apply head_None in E.
      exfalso. eapply (filter_nil_not_elem_of _ _ (f m) E).
      * unfold f. by rewrite decide_True.
      * by apply list_elem_of_fmap_2.
  - intros Hchanged. apply head_None, elem_of_nil_inv.
    intros x [Hx Hin]%list_elem_of_filter.
    apply list_elem_of_fmap in Hin as (a & -> & Ha). unfold f in Hx.
    case_decide as Hia; [by cbn in Hx|].
    assert (a = m) as -> by by eapply NoDup_fmap_same.
    done.
Qed.

Lemma renamed_member_found_by_barcode_witness :
  select_member_by_barcode
    (db (putMember 1 "Anna" "A9" (Sample.state_of Sample.monday_only [])).2)
    "A9"
  = Some (rename "Anna" "A9" Sample.ann).
Proof.
  apply (renamed_member_found_by_barcode
           (Sample.state_of Sample.monday_only []) 1 "Anna" "A9" Sample.ann).
  - apply (bool_decide_unpack _). by vm_compute.
  - apply (bool_decide_unpack _). by vm_compute.
  - done.
  - done.
  - done.
  - by left.
  - done.
  - intros other Ho Hid. cbn in Ho.
    apply elem_of_cons in Ho as [->|Ho%list_elem_of_singleton]; [done|].
    by subst other.
Defined.

End MemberFacts.

(** ** The default schedules *)

Module DefaultFacts.
Import Db Server Store.

Lemma default_times_well_formed :
  Forall (λ t : Z * Z * string * string,
            0 <= t.1.1.1 <= 6
            ∧ Time.well_formed t.1.2 ∧ Time.well_formed t.2)
         defaultSchedules.
Proof. apply (bool_decide_unpack _). by vm_compute. Qed.

Lemma default_keys_distinct : NoDup (default_key <$> defaultSchedules).
Proof. apply (bool_decide_unpack _). by vm_compute. Qed.

Lemma default_sessions_disjoint :
  Forall (λ a : Z * Z * string * string,
            Forall (λ b : Z * Z * string * string,
                      a.1.1.1 = b.1.1.1 → a.1.1.2 ≠ b.1.1.2 →
                      Time.minutes a.2 < Time.minutes b.1.2
                      ∨ Time.minutes b.2 < Time.minutes a.1.2)
                   defaultSchedules)
         defaultSchedules.
Proof. apply (bool_decide_unpack _). by vm_compute. Qed.

Lemma holds_defaults_data d s :
  holds_defaults d → s ∈ meeting_schedules d →
  schedule_data s ∈ defaultSchedules ∧ is_active s = true.
Proof.
  intros [Hdata Hact] Hs. split.
  - rewrite <- Hdata. by apply list_elem_of_fmap_2.
  - by eapply Forall_forall in Hact.
Qed.

(** Inserts of rows of distinct keys, none of them held by the table and
    no statement failing, append the rows in the order in which they are
    run. *)
Lemma run_inserts order :
  ∀ st,
    faults st = [] →
    NoDup (default_key <$> order) →
    (∀ t, t ∈ order →
          default_key t ∉ schedule_key <$> meeting_schedules (db st)) →
    let st' := (run_each (λ schedule, run_unchecked (insert_schedule schedule))
                         order st).2 in
    schedule_data <$> meeting_schedules (db st')
    = (schedule_data <$> meeting_schedules (db st)) ++ order
    ∧ (Forall (λ s, is_active s = true) (meeting_schedules (db st)) →
       Forall (λ s, is_active s = true) (meeting_schedules (db st')))
    ∧ members (db st') = members (db st)
    ∧ attendance_records (db st') = attendance_records (db st)
    ∧ meetingSchedulers st' = meetingSchedulers st.
Proof.
  induction order as [|t order IH]; intros st Hf Hnd Hfree st'.
  { subst st'. cbn. by rewrite app_nil_r. }
  rewrite fmap_cons in Hnd. apply NoDup_cons in Hnd as [Ht Hnd].
  pose proof (Hfree t ltac:(by left)) as Hnew.
  destruct t as [[[dayOfWeek sessionNumber] start] stop].
  unfold default_key in Ht, Hnew. cbn [fst snd] in Ht, Hnew.
  set (row := {| ms_id := schedule_seq (db st) + 1; day_of_week := dayOfWeek;
                 session_number := sessionNumber; start_time := start;
                 end_time := stop; session_name := EmptyString;
                 is_active := true |}).
  set (st1 := set_db (with_schedules (meeting_schedules (db st) ++ [row])
                        (schedule_seq (db st) + 1) (db st)) st).
  assert (run_unchecked
            (insert_schedule (dayOfWeek, sessionNumber, start, stop)) st
          = (tt, st1)) as Hstep.
  { unfold run_unchecked, bind, next_fault, modify. rewrite Hf. cbn.
    rewrite decide_False; [done|].
    intros (s & Hs & Hk)%Exists_exists. apply Hnew. rewrite <- Hk.
    by apply list_elem_of_fmap_2. }
  subst st'. cbn [run_each]. unfold bind. rewrite Hstep.
  destruct (IH st1) as (H1 & H2 & H3 & H4 & H5); [done|done| |].
  { intros t Hin. cbn [st1 db set_db with_schedules meeting_schedules].
    rewrite fmap_app. intros [Hold|Hrow%list_elem_of_singleton]%elem_of_app.
    - by apply (Hfree t ltac:(by right)).
    - apply Ht. change (schedule_key row) with (dayOfWeek, sessionNumber) in Hrow.
      rewrite <- Hrow. by apply list_elem_of_fmap_2. }
  cbn [st1 db set_db with_schedules meeting_schedules members
       attendance_records meetingSchedulers] in H1, H2, H3, H4, H5.
  rewrite H1, H3, H4, H5. rewrite fmap_app, <- app_assoc.
  split; [done|]. split; [|done].
  intros Hact. apply H2. apply Forall_app. split; [done|].
  by apply Forall_singleton.
Qed.

Lemma default_order_distinct order :
  order ≡ₚ defaultSchedules → NoDup (default_key <$> order).
Proof. intros ->. apply default_keys_distinct. Qed.

(** On an empty table, and no statement failing, the table is left with
    the default sessions, in the order in which the inserts were run. *)
Lemma create_on_empty st order :
  order ≡ₚ defaultSchedules →
  meeting_schedules (db st) = [] → faults st = [] →
  let st' := (createDefaultMeetingSchedules order st).2 in
  schedule_data <$> meeting_schedules (db st') = order
  ∧ holds_defaults (db st')
  ∧ members (db st') = members (db st)
  ∧ attendance_records (db st') = attendance_records (db st)
  ∧ meetingSchedulers st' = meetingSchedulers st.
Proof.
  intros Hperm Hempty Hf st'. subst st'.
  unfold createDefaultMeetingSchedules, bind.
  rewrite Replace.storage_read_ok by done.
  unfold count_schedules. rewrite Hempty. cbn [length]. rewrite decide_True by done.
  destruct (run_inserts order st Hf (default_order_distinct order Hperm))
    as (H1 & H2 & H3 & H4 & H5).
  { intros t _. rewrite Hempty. by intros ?%elem_of_nil. }
  rewrite Hempty in H1, H2. cbn in H1.
  split; [done|]. split; [|done]. split; [by rewrite H1|].
  by apply H2.
Qed.

(** X24: [createDefaultMeetingSchedules] fills only an empty schedule
    table: with any row in the table, or when the count fails, the store is
    left as it was; on an empty table, no statement failing, the table
    then holds the fifteen default sessions, all active, whatever the
    order in which the store ran the inserts (the rows come in that
    order), and the other tables are untouched. *)
Theorem default_schedules_created (st : State)
    (order : list (Z * Z * string * string)) :
  order ≡ₚ defaultSchedules →
  let st' := (createDefaultMeetingSchedules order st).2 in
  (meeting_schedules (db st) ≠ [] → db st' = db st)
  ∧ (head (faults st) = Some true → db st' = db st)
  ∧ (meeting_schedules (db st) = [] → faults st = [] →
     holds_defaults (db st')
     ∧ schedule_data <$> meeting_schedules (db st') = order
     ∧ members (db st') = members (db st)
     ∧ attendance_records (db st') = attendance_records (db st)
     ∧ meetingSchedulers st' = meetingSchedulers st).
Proof.
  intros Hperm st'. split; [|split].
  - subst st'. destruct st as [[ms recs aseq rows sseq] sch c fs].
    cbn [db meeting_schedules].
    unfold createDefaultMeetingSchedules, storage_read, bind, next_fault, ret,
      count_schedules.
    intros Hne. destruct fs as [|[] fs]; cbn; try done;
      (case_decide as Hc; [|done]); destruct rows; cbn in Hc; done || lia.
  - subst st'. intros Hf. by destruct st as [d sch c [|[] fs]].
  - intros Hempty Hf.
    destruct (create_on_empty st order Hperm Hempty Hf)
      as (H1 & H2 & H3 & H4 & H5).
    done.
Qed.

Lemma default_schedules_created_witness :
  schedule_data
    <$> meeting_schedules
          (db (createDefaultMeetingSchedules (reverse defaultSchedules)
                 (Sample.state_of
                    (with_schedules [] 0 Sample.monday_only) [])).2)
  = reverse defaultSchedules.
Proof.
  apply (default_schedules_created
           (Sample.state_of (with_schedules [] 0 Sample.monday_only) [])
           (reverse defaultSchedules));
    [apply reverse_Permutation | reflexivity | reflexivity].
Defined.

(** X25: a schedule table that holds the default sessions, in whatever
    order of its rows, has unique keys, well-formed times and no two
    overlapping sessions, and with it [getNextMeetingSession] finds a
    session at every time of the week. *)
Theorem default_schedules_sound (d : Database) :
  holds_defaults d →
  unique_keys (meeting_schedules d)
  ∧ Forall well_formed_schedule (meeting_schedules d)
  ∧ non_overlapping (meeting_schedules d)
  ∧ ∀ now, is_Some (nextSession d now).
Proof.
  intros Hd. pose proof Hd as [Hdata Hact].
  assert (unique_keys (meeting_schedules d)) as U.
  { intros a b Ha Hb E.
    eapply (MemberFacts.NoDup_fmap_same schedule_key); [|done..].
    pose proof default_keys_distinct as Hnd. rewrite <- Hdata in Hnd.
    by rewrite <- list_fmap_compose in Hnd. }
  pose proof default_times_well_formed as Hwf.
  pose proof default_sessions_disjoint as Hdis.
  rewrite Forall_forall in Hwf, Hdis.
  split; [done|]. split; [|split].
  - apply Forall_forall. intros s Hs.
    destruct (holds_defaults_data d s Hd Hs) as [Hin _].
    destruct (Hwf _ Hin) as (_ & H1 & H2). by split.
  - intros a b Ha Hb _ _ Hday Hne.
    destruct (holds_defaults_data d a Hd Ha) as [Hia _].
    destruct (holds_defaults_data d b Hd Hb) as [Hib _].
    pose proof (Hdis _ Hia) as Hrow. rewrite Forall_forall in Hrow.
    apply (Hrow _ Hib); [done|]. cbn. intros Hsess. apply Hne, U; [done..|].
    unfold schedule_key. congruence.
  - intros now.
    destruct (nextSession d now) as [r|] eqn:E; [by eexists|]. exfalso.
    apply Evaluator.nextSession_None in E as [_ Hother].
    assert (∀ t, t ∈ defaultSchedules →
                 ∃ s, s ∈ meeting_schedules d ∧ schedule_data s = t
                      ∧ is_active s = true) as Hrow.
    { intros t Ht. rewrite <- Hdata in Ht.
      apply list_elem_of_fmap in Ht as (s & -> & Hs). exists s.
      split; [done|]. split; [done|]. by eapply Forall_forall in Hact. }
    destruct (decide (getDay now = 1)) as [Hmon|Hmon].
    + destruct (Hrow (2, 1, "08:00", "12:00")) as (s & Hs & Hdat & Ha).
      { do 3 right. by left. }
      injection Hdat as Hday _ _ _.
      apply (Hother s). repeat split; try done; lia.
    + destruct (Hrow (1, 1, "08:00", "12:00")) as (s & Hs & Hdat & Ha).
      { by left. }
      injection Hdat as Hday _ _ _.
      apply (Hother s). repeat split; try done; lia.
Qed.

Lemma default_schedules_sound_witness :
  is_Some
    (nextSession
       (db (createDefaultMeetingSchedules (reverse defaultSchedules)
              (Sample.state_of
                 (with_schedules [] 0 Sample.monday_only) [])).2)
       (Sample.monday_at 22 0)).
Proof.
  destruct (default_schedules_sound
              (db (createDefaultMeetingSchedules (reverse defaultSchedules)
                     (Sample.state_of
                        (with_schedules [] 0 Sample.monday_only) [])).2))
    as (_ & _ & _ & Hnext).
  - apply (create_on_empty
             (Sample.state_of (with_schedules [] 0 Sample.monday_only) [])
             (reverse defaultSchedules));
      [apply reverse_Permutation | reflexivity | reflexivity].
  - exact (Hnext (Sample.monday_at 22 0)).
Defined.

End DefaultFacts.

(** ** Times as texts, rearm on request, and scans seen by the kiosk *)

Module Closing.
Import Db Server Store Routes.

(** X26: the three comparisons that the schedule queries make between a
    stored time and the current time ([start_time <= ?], [end_time >= ?],
    [start_time > ?]) are, on a well-formed stored time, the comparisons
    of the times of day. *)
Theorem stored_times_compare_as_times (t : string) (now : Date) :
  Time.well_formed t →
  (Time.text_le t (currentTime now) = true
   ↔ Time.minutes t <= minute_of_day now)
  ∧ (Time.text_le (currentTime now) t = true
     ↔ minute_of_day now <= Time.minutes t)
  ∧ (Time.text_lt (currentTime now) t = true
     ↔ minute_of_day now < Time.minutes t).
Proof.
  intros Ht.
  pose proof (Evaluator.minutes_well_formed t Ht) as Hm.
  pose proof (Evaluator.currentTime_minutes now) as Hc.
  rewrite (TimeFacts.text_le_minutes _ _ _ _ Hm Hc).
  rewrite (TimeFacts.text_le_minutes _ _ _ _ Hc Hm).
  rewrite (TimeFacts.text_lt_minutes _ _ _ _ Hc Hm).
  by rewrite !Z.leb_le, Z.ltb_lt.
Qed.

Lemma stored_times_compare_as_times_witness :
  Time.text_le "08:00" (currentTime (Sample.monday_at 9 30)) = true
  ↔ Time.minutes "08:00" <= minute_of_day (Sample.monday_at 9 30).
Proof.
  apply (stored_times_compare_as_times "08:00" (Sample.monday_at 9 30)).
  by eexists.
Defined.

(** X27: the text of a time and its reading round-trip: the server reads
    back from "HH:MM" the hour and the minute it was written from, and a
    well-formed stored time is the text of its own hour and minute. *)
Theorem time_text_round_trip (h m : Z) (t : string) :
  (0 <= h < 24 → 0 <= m < 60 →
   Time.split_hour_minute (Time.hhmm h m) = (Some h, Some m)
   ∧ Time.minutes (Time.hhmm h m) = h * 60 + m)
  ∧ (Time.well_formed t →
     0 <= Time.minutes t < 1440
     ∧ t = Time.hhmm (Time.minutes t / 60) (Time.minutes t mod 60)
     ∧ Time.split_hour_minute t
       = (Some (Time.minutes t / 60), Some (Time.minutes t mod 60))).
Proof.
  split.
  - intros Hh Hm. split.
    + apply TimeFacts.split_hour_minute_hhmm; lia.
    + unfold Time.minutes. by rewrite TimeFacts.minutes_of_hhmm.
  - intros Ht. pose proof (Evaluator.minutes_well_formed t Ht) as Hmin.
    destruct (TimeFacts.minutes_of_inv _ _ Hmin)
      as (h0 & m0 & Hh & Hm & Et & En).
    rewrite En.
    replace ((h0 * 60 + m0) / 60) with h0
      by (Z.div_mod_to_equations; lia).
    replace ((h0 * 60 + m0) mod 60) with m0
      by (Z.div_mod_to_equations; lia).
    split; [lia|]. split; [done|].
    rewrite Et at 1. apply TimeFacts.split_hour_minute_hhmm; lia.
Qed.

(** X28: POST /api/meeting-schedules/refresh always answers success and
    never touches the store, however the rearm ends; when the read of
    the schedules succeeded on a table whose active sessions all have a
    weekday 0 to 6 and a time of day "HH:MM" as end_time, the triggers
    then match the active sessions, and when the read failed no trigger is
    left armed although the answer is a success. *)
Theorem refresh_route_answers_success (st : State) :
  let run := refreshRoute st in
  status run.1 = 200
  ∧ db run.2 = db st
  ∧ (head (faults st) ≠ Some true →
     (∀ s, s ∈ meeting_schedules (db st) → is_active s = true → armable s) →
     triggers_match_store run.2)
  ∧ (head (faults st) = Some true → meetingSchedulers run.2 = ∅).
Proof.
  intros run. subst run. unfold refreshRoute, bind, ret.
  pose proof (Scheduler.initialize_db st) as Hdb.
  split; [by destruct (initializeMeetingScheduler st)|].
  split; [by destruct (initializeMeetingScheduler st)|]. split.
  - intros Hf Harm. rewrite Scheduler.initialize_read_ok by done. by cbn.
  - intros Hf. rewrite Scheduler.initialize_read_failed by done. by cbn.
Qed.

(** X29: the kiosk's list follows the scans: after an accepted scan of a
    member, the member is among the currently checked-in exactly when the
    scan was a check-in (the ids of the store not exceeding its
    AUTOINCREMENT counter). *)
Theorem accepted_scan_shows_in_checked_in (st : State) (code : string)
    (now : Date) (member : Member) :
  select_member_by_barcode (db st) code = Some member →
  (∀ r, r ∈ attendance_records (db st) → ar_id r <= attendance_seq (db st)) →
  status (scan code now st).1 = 200 →
  m_id member ∈ id <$> select_checked_in (db (scan code now st).2)
  ↔ isCheckin_of (select_last_scan (db st) (m_id member)) = true.
Proof.
  intros Hmem Hbound Hok.
  destruct (ScanFacts.scan_run st code now) as (_ & _ & _ & Hacc).
  destruct (Hacc Hok) as (member' & Hmem' & Hdb & _).
  rewrite Hmem in Hmem'. injection Hmem' as <-. rewrite Hdb.
  set (dir := isCheckin_of (select_last_scan (db st) (m_id member))).
  match goal with |- context [insert_attendance _ _ _ ?f _ _] =>
    set (flag := f) end.
  assert (member ∈ members (db st)) as Hin.
  { unfold select_member_by_barcode in Hmem.
    by apply head_Some_elem_of, list_elem_of_filter in Hmem as [_ ?]. }
  rewrite CheckedInFacts.checked_in_by_highest_id by done.
  cbn [insert_attendance attendance_records].
  set (r := {| ar_id := attendance_seq (db st) + 1;
               member_id := m_id member; scan_time := clock st;
               is_checkin := dir; is_auto_logout := false;
               needs_review := flag |}).
  split.
  - intros (ar & Har & Hk & Hmax & Hdir).
    apply elem_of_app in Har as [Har|Har%list_elem_of_singleton].
    + specialize (Hbound ar Har).
      specialize (Hmax r ltac:(apply elem_of_app; right; by left) eq_refl).
      cbn in Hmax. lia.
    + by subst ar.
  - intros Hdir. exists r. split; [apply elem_of_app; right; by left|].
    split; [done|]. split; [|done].
    intros r' [Hr'|Hr'%list_elem_of_singleton]%elem_of_app _.
    + specialize (Hbound r' Hr'). cbn. lia.
    + by subst r'.
Qed.

Lemma accepted_scan_shows_in_checked_in_witness :
  m_id Sample.bob
  ∈ id <$> select_checked_in
             (db (scan "B2" (Sample.monday_at 9 30)
                    (Sample.state_of Sample.ann_checked_in [])).2)
  ↔ isCheckin_of (select_last_scan Sample.ann_checked_in
                    (m_id Sample.bob)) = true.
Proof.
  apply (accepted_scan_shows_in_checked_in
           (Sample.state_of Sample.ann_checked_in []) "B2"
           (Sample.monday_at 9 30) Sample.bob).
  - by vm_compute.
  - intros r Hr%list_elem_of_singleton. subst r. by vm_compute.
  - by vm_compute.
Defined.



End Closing.
